(** * gemini-stream: the SSE bridge of [route.ts], embedded and verified

    The development follows the source file by file:
    - [JSStr]    ECMAScript strings (sequences of UTF-16 code units) with the
                 [String.prototype] operations the route uses;
    - [JSON]     the values the route serialises, [JSON.stringify] and
                 [JSON.parse];
    - [Sse]      [sseEvent], the [GeminiSSEEvent] variants of [_responses.ts]
                 and the frame reader [readSSE] of the test-suite and of the
                 client example;
    - [Cors]     [parseAllowedOrigins], [corsHeaders] and [Headers];
    - [Bridge]   the handlers registered with [ai.live.connect], [closeWith],
                 the [WritableStream] writer they share, and the two ways the
                 runtime can schedule them;
    - [Route]    [createGenAI], the turn normalisation of [POST] and [GET] and
                 the two handlers. *)

From Stdlib Require Import List NArith ZArith Bool Lia String Ascii.
From Stdlib Require DecimalN DecimalPos DecimalFacts.
Import ListNotations.

(* ================================================================= *)
(** ** ECMAScript strings *)

Module JSStr.

Local Open Scope N_scope.

(** A string is its sequence of UTF-16 code units. *)
Definition jsstring := list N.

(** A source literal, written as Rocq text (ASCII only). *)
Definition js (s : string) : jsstring :=
  List.map N_of_ascii (list_ascii_of_string s).

Definition LF : N := 10.

Fixpoint eqb (a b : jsstring) : bool :=
  match a, b with
  | [], [] => true
  | x :: a', y :: b' => (x =? y) && eqb a' b'
  | _, _ => false
  end.

(** [WhiteSpace] and [LineTerminator] of ECMA-262: what [trim] strips and
    what the regular-expression class [\s] matches. *)
Definition isWhiteSpace (c : N) : bool :=
  ((9 <=? c) && (c <=? 13)) || (c =? 32) || (c =? 160) || (c =? 5760)
  || ((8192 <=? c) && (c <=? 8202)) || (c =? 8232) || (c =? 8233)
  || (c =? 8239) || (c =? 8287) || (c =? 12288) || (c =? 65279).

Fixpoint trimStart (s : jsstring) : jsstring :=
  match s with
  | c :: r => if isWhiteSpace c then trimStart r else s
  | [] => []
  end.

Definition trimEnd (s : jsstring) : jsstring := rev (trimStart (rev s)).

Definition trim (s : jsstring) : jsstring := trimEnd (trimStart s).

(** [s.startsWith(p)], returning what follows the prefix. *)
Fixpoint stripPrefix (p s : jsstring) : option jsstring :=
  match p, s with
  | [], _ => Some s
  | x :: p', y :: s' => if x =? y then stripPrefix p' s' else None
  | _ :: _, [] => None
  end.

Definition startsWith (p s : jsstring) : bool :=
  match stripPrefix p s with Some _ => true | None => false end.

(** [s.split(sep)] for a one-unit separator: never empty, [""] gives [[""]]. *)
Fixpoint split (sep : N) (s : jsstring) : list jsstring :=
  match s with
  | [] => [[]]
  | c :: r =>
      if c =? sep then [] :: split sep r
      else match split sep r with
           | part :: parts => (c :: part) :: parts
           | [] => [[c]]
           end
  end.

(** [parts.join(sep)]. *)
Fixpoint join (sep : jsstring) (parts : list jsstring) : jsstring :=
  match parts with
  | [] => []
  | [p] => p
  | p :: rest => p ++ sep ++ join sep rest
  end.

(** [a.includes(x)] on an array of strings. *)
Definition includes (a : list jsstring) (x : jsstring) : bool :=
  existsb (eqb x) a.

(** [s.indexOf("\n\n")]: the units before the first blank line and the
    units after it, [None] for the result [-1]. *)
Fixpoint cutAtBlankLine (s : jsstring) : option (jsstring * jsstring) :=
  match s with
  | [] => None
  | c :: r =>
      match r with
      | d :: r' =>
          if (c =? LF) && (d =? LF) then Some ([], r')
          else match cutAtBlankLine r with
               | Some (pre, post) => Some (c :: pre, post)
               | None => None
               end
      | [] => None
      end
  end.

(** The number of positions at which the two-unit sequence LF LF starts. *)
Fixpoint countBlankLines (s : jsstring) : nat :=
  match s with
  | [] => O
  | c :: r =>
      let here := match r with
                  | d :: _ => if (c =? LF) && (d =? LF) then 1%nat else 0%nat
                  | [] => 0%nat
                  end in
      Nat.add here (countBlankLines r)
  end.

(** [s.includes(t)] on strings. *)
Fixpoint contains (t s : jsstring) : bool :=
  startsWith t s || match s with [] => false | _ :: r => contains t r end.

(** ASCII lower-casing, as [Headers] applies to header names. *)
Definition toLowerAscii (s : jsstring) : jsstring :=
  List.map (fun c => if (65 <=? c) && (c <=? 90) then c + 32 else c) s.

End JSStr.

(* ================================================================= *)
(** ** JSON *)

Module JSON.

Import JSStr.
Local Open Scope N_scope.

(** *** Numbers

    A Number is an IEEE 754 binary64 value. A finite Number other than
    zero is [m * 2^e] with [m < 2^53] and [-1074 <= e <= 971], and
    [2^52 <= m] unless [e] is the least exponent (the subnormal range). *)
Inductive Number : Type :=
| NaN
| Infinity (negative : bool)
| Zero (negative : bool)
| Finite (negative : bool) (m : positive) (e : Z).

Definition isDouble (x : Number) : bool :=
  match x with
  | Finite _ m e =>
      (Npos m <? 2 ^ 53) && (-1074 <=? e)%Z && (e <=? 971)%Z
      && ((2 ^ 52 <=? Npos m) || (e =? -1074)%Z)
  | _ => true
  end.

Definition isFinite (x : Number) : bool :=
  match x with
  | Zero _ | Finite _ _ _ => true
  | NaN | Infinity _ => false
  end.

(** [2^e] and [10^e] for [e >= 0], and [1] for [e < 0]. *)
Definition pow2 (e : Z) : N := 2 ^ Z.to_N e.
Definition pow10 (e : Z) : N := 10 ^ Z.to_N e.

(** The integer nearest to [a / b], the even one when two are as near. *)
Definition roundHalfEven (a b : N) : N :=
  let q := a / b in
  match 2 * (a mod b) ?= b with
  | Lt => q
  | Gt => q + 1
  | Eq => if N.even q then q else q + 1
  end.

(** The integer nearest to [(p / q) / 2^e]. *)
Definition significand (p q : N) (e : Z) : N :=
  roundHalfEven (p * pow2 (- e)) (q * pow2 e).

(** The least exponent from [e] on at which the significand has at most
    53 bits. *)
Fixpoint fit (fuel : nat) (p q : N) (e : Z) : N * Z :=
  let m := significand p q e in
  match fuel with
  | O => (m, e)
  | S fuel' => if m <? 2 ^ 53 then (m, e) else fit fuel' p q (e + 1)
  end.

(** The Number value for the positive rational [p / q]
    (roundTiesToEven): the search for the exponent starts one below the
    least one the sizes of [p] and [q] allow. *)
Definition roundRatio (negative : bool) (p q : N) : Number :=
  let start :=
    Z.max (-1074) (Z.of_N (N.log2 p) - Z.of_N (N.log2 q) - 53) in
  let (m, e) := fit 3 p q start in
  if (971 <? e)%Z then Infinity negative
  else match m with
       | N0 => Zero negative
       | Npos m' => Finite negative m' e
       end.

(** [s * 10^d] with the zeros at the end of [s] moved into [d]. *)
Fixpoint stripZeros (fuel : nat) (s : N) (d : Z) : N * Z :=
  match fuel with
  | O => (s, d)
  | S fuel' =>
      if (s =? 0) || negb (s mod 10 =? 0) then (s, d)
      else stripZeros fuel' (s / 10) (d + 1)
  end.

Definition normalise (s : N) (d : Z) : N * Z :=
  stripZeros (S (N.to_nat (N.log2 s))) s d.

(** The Number value for the decimal [s * 10^d], taken in the form whose
    [s] has no zero at its end. *)
Definition roundDecimal (negative : bool) (c : N * Z) : Number :=
  let (s, d) := normalise (fst c) (snd c) in
  if s =? 0 then Zero negative
  else roundRatio negative (s * pow10 d) (pow10 (- d)).

(** The decimal digits of a natural number, and back. *)
Fixpoint uintChars (u : Decimal.uint) : jsstring :=
  match u with
  | Decimal.Nil => []
  | Decimal.D0 u' => 48 :: uintChars u'
  | Decimal.D1 u' => 49 :: uintChars u'
  | Decimal.D2 u' => 50 :: uintChars u'
  | Decimal.D3 u' => 51 :: uintChars u'
  | Decimal.D4 u' => 52 :: uintChars u'
  | Decimal.D5 u' => 53 :: uintChars u'
  | Decimal.D6 u' => 54 :: uintChars u'
  | Decimal.D7 u' => 55 :: uintChars u'
  | Decimal.D8 u' => 56 :: uintChars u'
  | Decimal.D9 u' => 57 :: uintChars u'
  end.

Definition digitsOf (n : N) : jsstring := uintChars (N.to_uint n).

Definition isDigit (c : N) : bool := (48 <=? c) && (c <=? 57).

Definition digitsValue (ds : jsstring) : N :=
  fold_left (fun acc c => 10 * acc + (c - 48)) ds 0.

(** The [n] with [10^(n-1) <= xn / xd < 10^n]. *)
Fixpoint leadingZeros (fuel : nat) (xn xd : N) (j : N) : N :=
  match fuel with
  | O => j
  | S fuel' =>
      if xd <=? xn * 10 ^ j then j else leadingZeros fuel' xn xd (j + 1)
  end.

Definition decade (xn xd : N) : Z :=
  if xd <=? xn then Z.of_nat (List.length (digitsOf (xn / xd)))
  else (1 - Z.of_N (leadingZeros 400 xn xd 1))%Z.

(** The Number value for the decimal [c] is [m * 2^e]. *)
Definition rounds (m : positive) (e : Z) (c : N * Z) : bool :=
  match roundDecimal false c with
  | Finite false m' e' => (m' =? m)%positive && (e' =? e)%Z
  | _ => false
  end.

(** [Number::toString] chooses integers [n], [k] and [s] with [k >= 1],
    [10^(k-1) <= s < 10^k], such that the Number value for
    [s * 10^(n-k)] is the number itself, and [k] as small as possible;
    of two such [s] the one nearer to the number, the even one when they
    are as near. For each [k] from 1 on, the two candidates are the
    number cut after [k] digits and the next decimal of [k] digits
    above. *)
Fixpoint search (fuel : nat) (k : Z) (xn xd : N) (n0 : Z)
    (m : positive) (e : Z) : option (N * Z) :=
  match fuel with
  | O => None
  | S fuel' =>
      let t := (k - n0)%Z in
      let a := xn * pow10 t in
      let b := xd * pow10 (- t) in
      let low := normalise (a / b) (- t) in
      let high := normalise (a / b + 1) (- t) in
      match rounds m e low, rounds m e high with
      | true, true =>
          Some match 2 * (a mod b) ?= b with
               | Lt => low
               | Gt => high
               | Eq => if N.even (a / b) then low else high
               end
      | true, false => Some low
      | false, true => Some high
      | false, false => search fuel' (k + 1)%Z xn xd n0 m e
      end
  end.

(** The decimal that is [m * 2^e] exactly. *)
Definition exactDecimal (m : positive) (e : Z) : N * Z :=
  if (e <? 0)%Z then normalise (Npos m * 5 ^ Z.to_N (- e)) e
  else normalise (Npos m * pow2 e) 0.

(** The digits [s] and the exponent [n - k] of [Number::toString]. No
    binary64 value needs more than 17 digits; the exact decimal stands
    behind the search. *)
Definition shortest (m : positive) (e : Z) : N * Z :=
  let xn := Npos m * pow2 e in
  let xd := pow2 (- e) in
  match search 17 1 xn xd (decade xn xd) m e with
  | Some c => c
  | None => exactDecimal m e
  end.

Definition zeros (n : Z) : jsstring := repeat 48 (Z.to_nat n).

(** The four ways [Number::toString] writes [s * 10^(n-k)]: the digits
    followed by zeros, the digits with a decimal point inside, the digits
    after [0.] and zeros, and the exponent form. *)
Definition formatDecimal (c : N * Z) : jsstring :=
  let (s, d) := c in
  let ds := digitsOf s in
  let k := Z.of_nat (List.length ds) in
  let n := (d + k)%Z in
  if ((k <=? n) && (n <=? 21))%Z then ds ++ zeros (n - k)
  else if ((0 <? n) && (n <=? 21))%Z
       then firstn (Z.to_nat n) ds ++ 46 :: skipn (Z.to_nat n) ds
  else if ((-6 <? n) && (n <=? 0))%Z then 48 :: 46 :: zeros (- n) ++ ds
  else
    let exponent :=
      101 :: (if (n - 1 <? 0)%Z then 45 else 43)
          :: digitsOf (Z.abs_N (n - 1)) in
    match ds with
    | [] => exponent
    | [c] => c :: exponent
    | c :: rest => c :: 46 :: rest ++ exponent
    end.

(** [Number::toString(x)] with radix 10. *)
Definition toString (x : Number) : jsstring :=
  match x with
  | NaN => js "NaN"
  | Infinity negative => (if negative then [45] else []) ++ js "Infinity"
  | Zero _ => js "0"
  | Finite negative m e =>
      (if negative then [45] else []) ++ formatDecimal (shortest m e)
  end.

(** The Number value for an integer. *)
Definition ofZ (z : Z) : Number :=
  match z with
  | Z0 => Zero false
  | Zpos p => roundRatio false (Npos p) 1
  | Zneg p => roundRatio true (Npos p) 1
  end.

(** [Number::toString] on the Number value for an integer, as a template
    literal writes a status code. *)
Definition numberToString (z : Z) : jsstring := toString (ofZ z).

(** The values that reach [JSON.stringify] in the route ([data: unknown]).
    An object is its list of own enumerable properties in property
    order. *)
#[local] Unset Elimination Schemes.
Inductive JSValue : Type :=
| JSUndefined
| JSNull
| JSBool (b : bool)
| JSNumber (x : Number)
| JSString (s : jsstring)
| JSArray (elems : list JSValue)
| JSObject (props : list (jsstring * JSValue)).
#[local] Set Elimination Schemes.

(** [ToBoolean], which decides [if (message)] and [a || b]. *)
Definition truthy (v : JSValue) : bool :=
  match v with
  | JSUndefined | JSNull => false
  | JSBool b => b
  | JSNumber x =>
      match x with
      | NaN | Zero _ => false
      | Infinity _ | Finite _ _ _ => true
      end
  | JSString s => match s with [] => false | _ => true end
  | JSArray _ | JSObject _ => true
  end.

(** *** Serialisation *)

Definition hexDigit (d : N) : N := if d <? 10 then 48 + d else 87 + d.

(** [UnicodeEscape]: backslash, [u], four lower-case hexadecimal digits. *)
Definition unicodeEscape (c : N) : jsstring :=
  [92; 117; hexDigit ((c / 4096) mod 16); hexDigit ((c / 256) mod 16);
   hexDigit ((c / 16) mod 16); hexDigit (c mod 16)].

Definition isHighSurrogate (c : N) : bool := (55296 <=? c) && (c <=? 56319).
Definition isLowSurrogate (c : N) : bool := (56320 <=? c) && (c <=? 57343).

(** One code point that is not a surrogate pair, as [QuoteJSONString]
    treats it. *)
Definition quoteUnit (c : N) : jsstring :=
  if c =? 8 then [92; 98]
  else if c =? 9 then [92; 116]
  else if c =? 10 then [92; 110]
  else if c =? 12 then [92; 102]
  else if c =? 13 then [92; 114]
  else if c =? 34 then [92; 34]
  else if c =? 92 then [92; 92]
  else if (c <? 32) || isHighSurrogate c || isLowSurrogate c
       then unicodeEscape c
  else [c].

(** The body of [QuoteJSONString]: code point by code point, a surrogate
    pair is kept and a lone surrogate is escaped. *)
Fixpoint quoteBody (s : jsstring) : jsstring :=
  match s with
  | [] => []
  | c :: r =>
      match r with
      | d :: r' =>
          if isHighSurrogate c && isLowSurrogate d
          then c :: d :: quoteBody r'
          else quoteUnit c ++ quoteBody r
      | [] => quoteUnit c
      end
  end.

Definition quote (s : jsstring) : jsstring := 34 :: quoteBody s ++ [34].

(** [JSON.stringify(v)] without replacer or indentation; [None] is the
    result [undefined]. An [undefined] array element is written [null], an
    [undefined] property is left out, a Number that is not finite is
    written [null]. *)
Fixpoint stringify (v : JSValue) : option jsstring :=
  match v with
  | JSUndefined => None
  | JSNull => Some (js "null")
  | JSBool b => Some (if b then js "true" else js "false")
  | JSNumber x => Some (if isFinite x then toString x else js "null")
  | JSString s => Some (quote s)
  | JSArray elems =>
      Some (91 :: join [44]
                   (List.map (fun e => match stringify e with
                                       | Some t => t
                                       | None => js "null"
                                       end) elems) ++ [93])
  | JSObject props =>
      Some (123 :: join [44]
                    (flat_map (fun p => match stringify (snd p) with
                                        | Some t => [quote (fst p) ++ 58 :: t]
                                        | None => []
                                        end) props) ++ [125])
  end.

(** A template-literal hole [${x}] holding the result of [stringify]. *)
Definition interpolate (r : option jsstring) : jsstring :=
  match r with Some t => t | None => js "undefined" end.

(** *** Parsing *)

Notation "'let?' p ':=' e 'in' k" :=
  (match e with Some p => k | None => None end)
  (at level 10, p pattern, e at level 100, k at level 200, only parsing).

(** JSON insignificant white space: space, tab, line feed, carriage return. *)
Definition isJsonWs (c : N) : bool :=
  (c =? 32) || (c =? 9) || (c =? 10) || (c =? 13).

Fixpoint skipWs (s : jsstring) : jsstring :=
  match s with
  | c :: r => if isJsonWs c then skipWs r else s
  | [] => []
  end.

Definition hexValue (c : N) : option N :=
  if (48 <=? c) && (c <=? 57) then Some (c - 48)
  else if (97 <=? c) && (c <=? 102) then Some (c - 87)
  else if (65 <=? c) && (c <=? 70) then Some (c - 55)
  else None.

(** The unit a two-character escape stands for. *)
Definition escapeChar (e : N) : option N :=
  if e =? 34 then Some 34
  else if e =? 92 then Some 92
  else if e =? 47 then Some 47
  else if e =? 98 then Some 8
  else if e =? 102 then Some 12
  else if e =? 110 then Some 10
  else if e =? 114 then Some 13
  else if e =? 116 then Some 9
  else None.

(** A JSON string after its opening quote, up to and including the closing
    quote. *)
Fixpoint parseStringBody (s : jsstring) : option (jsstring * jsstring) :=
  match s with
  | [] => None
  | c :: r =>
      if c =? 34 then Some ([], r)
      else if c =? 92 then
        match r with
        | e :: r1 =>
            if e =? 117 then
              match r1 with
              | h3 :: h2 :: h1 :: h0 :: r2 =>
                  let? a := hexValue h3 in
                  let? b := hexValue h2 in
                  let? x := hexValue h1 in
                  let? y := hexValue h0 in
                  let? (t, rest) := parseStringBody r2 in
                  Some ((4096 * a + 256 * b + 16 * x + y) :: t, rest)
              | _ => None
              end
            else
              let? u := escapeChar e in
              let? (t, rest) := parseStringBody r1 in
              Some (u :: t, rest)
        | [] => None
        end
      else if c <? 32 then None
      else
        let? (t, rest) := parseStringBody r in
        Some (c :: t, rest)
  end.

(** The longest run of decimal digits at the head of [s]. *)
Fixpoint takeDigits (s : jsstring) : jsstring * jsstring :=
  match s with
  | [] => ([], [])
  | c :: r =>
      if isDigit c
      then let (ds, rest) := takeDigits r in (c :: ds, rest)
      else ([], s)
  end.

(** The integer part of a JSON number: [0], or a digit run that does not
    start with [0]. *)
Definition parseInt (s : jsstring) : option (jsstring * jsstring) :=
  match s with
  | [] => None
  | c :: r =>
      if c =? 48 then Some ([48], r)
      else if isDigit c then Some (takeDigits s)
      else None
  end.

(** The optional fraction: a point and at least one digit. *)
Definition parseFraction (s : jsstring) : option (jsstring * jsstring) :=
  match s with
  | c :: r =>
      if c =? 46 then
        match takeDigits r with
        | ([], _) => None
        | (ds, rest) => Some (ds, rest)
        end
      else Some ([], s)
  | [] => Some ([], [])
  end.

(** The optional sign of an exponent. *)
Definition parseSign (s : jsstring) : bool * jsstring :=
  match s with
  | c :: r =>
      if c =? 43 then (false, r)
      else if c =? 45 then (true, r)
      else (false, s)
  | [] => (false, [])
  end.

(** The optional exponent: [e] or [E], an optional sign and at least one
    digit. *)
Definition parseExponent (s : jsstring) : option (Z * jsstring) :=
  match s with
  | c :: r =>
      if (c =? 101) || (c =? 69) then
        let (negative, r1) := parseSign r in
        match takeDigits r1 with
        | ([], _) => None
        | (ds, rest) =>
            let x := Z.of_N (digitsValue ds) in
            Some (if negative then (- x)%Z else x, rest)
        end
      else Some (0%Z, s)
  | [] => Some (0%Z, [])
  end.

(** The optional minus sign of a number. *)
Definition parseMinus (s : jsstring) : bool * jsstring :=
  match s with
  | c :: r => if c =? 45 then (true, r) else (false, s)
  | [] => (false, [])
  end.

(** A JSON number token after its sign, and its Number value: the
    mathematical value of the decimal literal, rounded to the nearest
    binary64 value; the sign of a zero is kept. *)
Definition parseUnsigned (negative : bool) (s : jsstring)
  : option (Number * jsstring) :=
  let? (int, r1) := parseInt s in
  let? (fraction, r2) := parseFraction r1 in
  let? (exponent, r3) := parseExponent r2 in
  Some (roundDecimal negative
          (digitsValue (int ++ fraction),
           (exponent - Z.of_nat (List.length fraction))%Z),
        r3).

Definition parseNumber (s : jsstring) : option (Number * jsstring) :=
  let (negative, s1) := parseMinus s in parseUnsigned negative s1.

(** [CreateDataProperty] on the object under construction: a repeated key
    keeps its place and takes the later value. *)
Fixpoint setProp (k : jsstring) (v : JSValue)
    (props : list (jsstring * JSValue)) : list (jsstring * JSValue) :=
  match props with
  | [] => [(k, v)]
  | (k', v') :: rest =>
      if eqb k k' then (k', v) :: rest else (k', v') :: setProp k v rest
  end.

Definition buildObject (members : list (jsstring * JSValue)) : JSValue :=
  JSObject (fold_left (fun acc m => setProp (fst m) (snd m) acc) members []).

(** The JSON grammar, by recursive descent; [fuel] bounds the nesting and
    the number of elements read. *)
Fixpoint parseValue (fuel : nat) (s : jsstring) : option (JSValue * jsstring) :=
  match fuel with
  | O => None
  | S fuel' =>
      match skipWs s with
      | [] => None
      | c :: r =>
          if c =? 123 then
            match skipWs r with
            | 125 :: r' => Some (JSObject [], r')
            | _ => let? (ms, r') := parseMembers fuel' r in
                   Some (buildObject ms, r')
            end
          else if c =? 91 then
            match skipWs r with
            | 93 :: r' => Some (JSArray [], r')
            | _ => let? (vs, r') := parseElements fuel' r in
                   Some (JSArray vs, r')
            end
          else if c =? 34 then
            let? (t, r') := parseStringBody r in Some (JSString t, r')
          else if c =? 116 then
            let? r' := stripPrefix (js "true") (c :: r) in
            Some (JSBool true, r')
          else if c =? 102 then
            let? r' := stripPrefix (js "false") (c :: r) in
            Some (JSBool false, r')
          else if c =? 110 then
            let? r' := stripPrefix (js "null") (c :: r) in
            Some (JSNull, r')
          else
            let? (x, r') := parseNumber (c :: r) in Some (JSNumber x, r')
      end
  end

with parseElements (fuel : nat) (s : jsstring)
  : option (list JSValue * jsstring) :=
  match fuel with
  | O => None
  | S fuel' =>
      let? (v, r) := parseValue fuel' s in
      match skipWs r with
      | 44 :: r' =>
          let? (vs, r'') := parseElements fuel' r' in Some (v :: vs, r'')
      | 93 :: r' => Some ([v], r')
      | _ => None
      end
  end

with parseMembers (fuel : nat) (s : jsstring)
  : option (list (jsstring * JSValue) * jsstring) :=
  match fuel with
  | O => None
  | S fuel' =>
      match skipWs s with
      | 34 :: r =>
          let? (k, r1) := parseStringBody r in
          match skipWs r1 with
          | 58 :: r2 =>
              let? (v, r3) := parseValue fuel' r2 in
              match skipWs r3 with
              | 44 :: r4 =>
                  let? (ms, r5) := parseMembers fuel' r4 in
                  Some ((k, v) :: ms, r5)
              | 125 :: r4 => Some ([(k, v)], r4)
              | _ => None
              end
          | _ => None
          end
      | _ => None
      end
  end.

(** [JSON.parse(text)]; [None] is a [SyntaxError]. *)
Definition parse (text : jsstring) : option JSValue :=
  let? (v, r) := parseValue (S (List.length text)) text in
  match skipWs r with
  | [] => Some v
  | _ :: _ => None
  end.

(** *** JSON values *)

Definition isCodeUnit (c : N) : bool := c <? 65536.

Definition wfString (s : jsstring) : bool := forallb isCodeUnit s.

Fixpoint distinct (keys : list jsstring) : bool :=
  match keys with
  | [] => true
  | k :: rest => negb (includes rest k) && distinct rest
  end.

(** A value is a JSON value when a JSON text can stand for it: no
    [undefined] anywhere, numbers that are finite binary64 values (zero
    of either sign among them), strings of code units, no repeated
    property name. *)
Fixpoint isJson (v : JSValue) : bool :=
  match v with
  | JSUndefined => false
  | JSNull | JSBool _ => true
  | JSNumber x => isFinite x && isDouble x
  | JSString s => wfString s
  | JSArray elems => forallb isJson elems
  | JSObject props =>
      forallb (fun p => wfString (fst p) && isJson (snd p)) props
      && distinct (List.map fst props)
  end.

(** A number without its sign when it is a zero. *)
Definition unsigned (x : Number) : Number :=
  match x with Zero _ => Zero false | _ => x end.

(** The value with every negative zero replaced by zero. *)
Fixpoint unsignZero (v : JSValue) : JSValue :=
  match v with
  | JSNumber x => JSNumber (unsigned x)
  | JSArray elems => JSArray (List.map unsignZero elems)
  | JSObject props =>
      JSObject (List.map (fun p => (fst p, unsignZero (snd p))) props)
  | _ => v
  end.

(** No number in the value is negative zero. *)
Fixpoint noNegativeZero (v : JSValue) : bool :=
  match v with
  | JSNumber (Zero negative) => negb negative
  | JSArray elems => forallb noNegativeZero elems
  | JSObject props => forallb (fun p => noNegativeZero (snd p)) props
  | _ => true
  end.

(** *** Reasoning about values *)

(** Induction on values, with the hypothesis on every element and on every
    property value. *)
Section JSValueInd.

Variable P : JSValue -> Prop.
Hypothesis Hundef : P JSUndefined.
Hypothesis Hnull : P JSNull.
Hypothesis Hbool : forall b, P (JSBool b).
Hypothesis Hnum : forall x, P (JSNumber x).
Hypothesis Hstr : forall s, P (JSString s).
Hypothesis Harr : forall elems, Forall P elems -> P (JSArray elems).
Hypothesis Hobj :
  forall props, Forall (fun p => P (snd p)) props -> P (JSObject props).

Fixpoint JSValue_ind (v : JSValue) : P v :=
  match v with
  | JSUndefined => Hundef
  | JSNull => Hnull
  | JSBool b => Hbool b
  | JSNumber x => Hnum x
  | JSString s => Hstr s
  | JSArray elems =>
      Harr elems ((fix all (l : list JSValue) : Forall P l :=
                     match l with
                     | [] => Forall_nil P
                     | e :: l' => Forall_cons e (JSValue_ind e) (all l')
                     end) elems)
  | JSObject props =>
      Hobj props ((fix all (l : list (jsstring * JSValue))
                     : Forall (fun p => P (snd p)) l :=
                     match l with
                     | [] => Forall_nil _
                     | p :: l' => Forall_cons p (JSValue_ind (snd p)) (all l')
                     end) props)
  end.

End JSValueInd.

(** The result of reading a string body, with one more unit in front. *)
Definition consResult (c : N) (r : option (jsstring * jsstring))
  : option (jsstring * jsstring) :=
  match r with Some (t, rest) => Some (c :: t, rest) | None => None end.

Definition noLF (s : jsstring) : Prop := Forall (fun c => c <> LF) s.

(** The characters of a number as [Number::toString] writes it: digits,
    the point, [e] and the two signs. *)
Definition isNumberChar (c : N) : bool :=
  isDigit c || (c =? 46) || (c =? 101) || (c =? 43) || (c =? 45).

(** The rational [p / q] is [m * 2^e]. *)
Definition represents (p q : N) (m : positive) (e : Z) : Prop :=
  q <> 0 /\ p * pow2 (- e) = q * Npos m * pow2 e.

(** The decimal [s * 10^d] is [m * 2^e], and is not zero. *)
Definition denotes (c : N * Z) (m : positive) (e : Z) : Prop :=
  fst c <> 0 /\
  represents (fst c * pow10 (snd c)) (pow10 (- snd c)) m e.

(** The decimal is not zero and its digits end in no zero. *)
Definition normal (c : N * Z) : Prop := fst c <> 0 /\ fst c mod 10 <> 0.

(** What may follow a value inside a text written by [stringify]. *)
Definition delimited (rest : jsstring) : bool :=
  match rest with
  | [] => true
  | c :: _ => (c =? 44) || (c =? 93) || (c =? 125)
  end.

(** The text an array element or a property value is written as. *)
Definition render (v : JSValue) : jsstring :=
  match stringify v with Some t => t | None => js "null" end.

Definition memberText (p : jsstring * JSValue) : jsstring :=
  quote (fst p) ++ 58 :: render (snd p).

Definition valueStart (c : N) : Prop := isJsonWs c = false /\ c <> 93.

(** [v] is read back from its text, whatever delimiter follows, but for
    the sign of a zero, which [Number::toString] does not write. *)
Definition readsBack (v : JSValue) : Prop :=
  forall fuel rest,
    (List.length (render v) <= fuel)%nat -> delimited rest = true ->
    parseValue fuel (render v ++ rest) = Some (unsignZero v, rest).

End JSON.

(* ================================================================= *)
(** ** Server-sent events *)

Module Sse.

Import JSStr JSON.

(** [sseEvent] of [route.ts] (and its copy [sseEventLocal] in [GET]):
    [`data: ${JSON.stringify(data)}\n\n`]. *)
Definition sseEvent (data : JSValue) : jsstring :=
  js "data: " ++ interpolate (stringify data) ++ [LF; LF].

(** The copy local to [GET]. *)
Definition sseEventLocal (data : JSValue) : jsstring :=
  js "data: " ++ interpolate (stringify data) ++ [LF; LF].

(** [GeminiSSEEvent] of [_responses.ts]. The optional [message] of [end]
    is [None] when the property is absent. *)
Inductive GeminiSSEEvent : Type :=
| EvOpen
| EvMessage (payload : JSValue)
| EvClose (reason : jsstring)
| EvEnd (message : option JSValue)
| EvError (error : jsstring).

(** The object literal each variant is written as in the route. *)
Definition toJS (e : GeminiSSEEvent) : JSValue :=
  match e with
  | EvOpen => JSObject [(js "type", JSString (js "open"))]
  | EvMessage payload =>
      JSObject [(js "type", JSString (js "message")); (js "payload", payload)]
  | EvClose reason =>
      JSObject [(js "type", JSString (js "close"));
                (js "reason", JSString reason)]
  | EvEnd None => JSObject [(js "type", JSString (js "end"))]
  | EvEnd (Some message) =>
      JSObject [(js "type", JSString (js "end")); (js "message", message)]
  | EvError error =>
      JSObject [(js "type", JSString (js "error"));
                (js "error", JSString error)]
  end.

(** The events of the wire contract: every carried value is a JSON value. *)
Definition isWireEvent (e : GeminiSSEEvent) : bool :=
  match e with
  | EvOpen | EvEnd None => true
  | EvMessage payload => isJson payload
  | EvClose reason => wfString reason
  | EvEnd (Some message) => isJson message
  | EvError error => wfString error
  end.

(** A [message] event with a nested payload; one of its strings holds a
    line feed, a quote and a lone surrogate, and its numbers are [-12],
    [0.5], [1e21] and the least positive Number, [5e-324]. *)
Definition sampleEvent : GeminiSSEEvent :=
  EvMessage
    (JSObject [(js "serverContent",
                JSObject [(js "turnComplete", JSBool true);
                          (js "parts",
                           JSArray [JSString [72; 105; 10; 34; 55357]%N;
                                    JSNumber (Finite true 6755399441055744 (-49));
                                    JSNumber (Finite false 4503599627370496 (-53));
                                    JSNumber (Finite false 7629394531250000 17);
                                    JSNumber (Finite false 1 (-1074));
                                    JSNull])])]).

(** A [message] event whose payload is negative zero. *)
Definition negativeZeroEvent : GeminiSSEEvent :=
  EvMessage (JSNumber (Zero true)).

(** [o.name] on a value; [undefined] when there is no such own property. *)
Fixpoint lookupProp (name : jsstring) (props : list (jsstring * JSValue))
  : JSValue :=
  match props with
  | [] => JSUndefined
  | (k, v) :: rest => if eqb name k then v else lookupProp name rest
  end.

Definition getProp (o : JSValue) (name : jsstring) : JSValue :=
  match o with
  | JSObject props => lookupProp name props
  | _ => JSUndefined
  end.

(** The loop of [readSSE] (test-suite) and of [runGeminiStreamExample]:
    cut the buffer at each blank line, trim the chunk, and when it starts
    with [data:] remove [/^data:\s*/] and [JSON.parse] the rest; a chunk
    that does not parse is skipped. *)
Fixpoint readFrames (fuel : nat) (buffer : jsstring) : list JSValue :=
  match fuel with
  | O => []
  | S fuel' =>
      match cutAtBlankLine buffer with
      | None => []
      | Some (pre, post) =>
          let chunk := trim pre in
          let later := readFrames fuel' post in
          match stripPrefix (js "data:") chunk with
          | Some after =>
              match parse (trimStart after) with
              | Some evt => evt :: later
              | None => later
              end
          | None => later
          end
      end
  end.

Definition readSSE (body : jsstring) : list JSValue :=
  readFrames (List.length body) body.

(** [events.map((e) => e.type)]. *)
Definition eventTypes (events : list JSValue) : list JSValue :=
  List.map (fun e => getProp e (js "type")) events.

End Sse.

(* ================================================================= *)
(** ** Configuration and CORS *)

Module Cors.

Import JSStr.
Local Open Scope N_scope.

(** [process.env]: the variables that are set, with their values. *)
Definition Env := list (jsstring * jsstring).

(** [process.env.NAME]; [None] is [undefined]. *)
Fixpoint getenv (env : Env) (name : jsstring) : option jsstring :=
  match env with
  | [] => None
  | (k, v) :: rest => if eqb name k then Some v else getenv rest name
  end.

(** [process.env.NAME === "literal"]. *)
Definition envIs (env : Env) (name literal : jsstring) : bool :=
  match getenv env name with
  | Some v => eqb v literal
  | None => false
  end.

(** [Boolean(s)] on a string. *)
Definition nonEmpty (s : jsstring) : bool :=
  match s with [] => false | _ :: _ => true end.

(** A string-or-undefined in a condition or on the left of [||]: the
    string when it is truthy. *)
Definition whenTruthy (v : option jsstring) : option jsstring :=
  match v with
  | Some s => if nonEmpty s then Some s else None
  | None => None
  end.

(** The result type [string[] | "*"] of [parseAllowedOrigins]. *)
Inductive AllowList : Type :=
| AnyOrigin
| Origins (parts : list jsstring).

Definition parseAllowedOrigins (env : Env) : AllowList :=
  match option_map trim (getenv env (js "CORS_ALLOW_ORIGINS")) with
  | None => AnyOrigin
  | Some raw =>
      if negb (nonEmpty raw) || eqb raw (js "*") then AnyOrigin
      else
        let parts := filter nonEmpty (List.map trim (split 44 raw)) in
        match parts with
        | [] => AnyOrigin
        | _ :: _ => Origins parts
        end
  end.

(** [Headers]: header names are case-insensitive and kept in lower case;
    [set] replaces the value of a name that is present. *)
Definition Headers := list (jsstring * jsstring).

Fixpoint setRaw (name value : jsstring) (h : Headers) : Headers :=
  match h with
  | [] => [(name, value)]
  | (k, v) :: rest =>
      if eqb name k then (k, value) :: rest else (k, v) :: setRaw name value rest
  end.

Definition hset (name value : jsstring) (h : Headers) : Headers :=
  setRaw (toLowerAscii name) value h.

Fixpoint getRaw (name : jsstring) (h : Headers) : option jsstring :=
  match h with
  | [] => None
  | (k, v) :: rest => if eqb name k then Some v else getRaw name rest
  end.

Definition hget (h : Headers) (name : jsstring) : option jsstring :=
  getRaw (toLowerAscii name) h.

(** [corsHeaders(origin)]; [origin] is [None] for [undefined]. *)
Definition corsHeaders (env : Env) (origin : option jsstring) : Headers :=
  let allowList := parseAllowedOrigins env in
  let allowCredentials :=
    envIs env (js "CORS_ALLOW_CREDENTIALS") (js "true") in
  let h := hset (js "Access-Control-Allow-Methods") (js "GET,POST,OPTIONS") [] in
  let h := hset (js "Access-Control-Allow-Headers")
                (js "Content-Type, Authorization") h in
  let h := hset (js "Access-Control-Max-Age") (js "86400") h in
  let h :=
    match allowList with
    | AnyOrigin => hset (js "Access-Control-Allow-Origin") (js "*") h
    | Origins allowed =>
        match whenTruthy origin with
        | Some o =>
            if includes allowed o
            then hset (js "Vary") (js "Origin")
                   (hset (js "Access-Control-Allow-Origin") o h)
            else h
        | None => h
        end
    end in
  if allowCredentials
  then hset (js "Access-Control-Allow-Credentials") (js "true") h
  else h.

(** *** The allow-list as the specification words it *)

(** The entries of a comma-separated value: split on commas, trim each
    part, keep the non-empty ones, in order. *)
Definition entries (value : jsstring) : list jsstring :=
  filter nonEmpty (List.map trim (split 44 value)).

Definition whitespaceOnly (value : jsstring) : bool :=
  forallb isWhiteSpace value.

Definition commasOnly (value : jsstring) : bool :=
  forallb (fun c => (c =? 44) || isWhiteSpace c) value.

Definition noEntry (value : jsstring) : bool :=
  match entries value with [] => true | _ :: _ => false end.

(** The allow-list a value of [CORS_ALLOW_ORIGINS] stands for: any origin
    when the variable is unset, holds white space only, is a star once
    trimmed, or has no entry; its entries otherwise. *)
Definition allowListOfValue (value : option jsstring) : AllowList :=
  match value with
  | None => AnyOrigin
  | Some v =>
      if whitespaceOnly v || eqb (trim v) (js "*") || noEntry v
      then AnyOrigin
      else Origins (entries v)
  end.

(** The same reading with the star compared to the value as it is set. *)
Definition allowListOfLiteral (value : option jsstring) : AllowList :=
  match value with
  | None => AnyOrigin
  | Some v =>
      if whitespaceOnly v || eqb v (js "*") || noEntry v
      then AnyOrigin
      else Origins (entries v)
  end.

(** Configurations used below. *)
Definition paddedStar : Env := [(js "CORS_ALLOW_ORIGINS", js " * ")].

Definition wildcardWithCredentials : Env :=
  [(js "CORS_ALLOW_ORIGINS", js "*"); (js "CORS_ALLOW_CREDENTIALS", js "true")].

Definition unsetWithCredentials : Env :=
  [(js "CORS_ALLOW_CREDENTIALS", js "true")].

(** The parts of a split with one more unit at the end of the last. *)
Fixpoint snocLast (parts : list jsstring) (c : N) : list jsstring :=
  match parts with
  | [] => []
  | [p] => [p ++ [c]]
  | p :: rest => p :: snocLast rest c
  end.

Definition allowOrigin : jsstring := js "Access-Control-Allow-Origin".
Definition allowCredentials : jsstring := js "Access-Control-Allow-Credentials".

End Cors.

(* ================================================================= *)
(** ** The session bridge *)

Module Bridge.

Import JSStr JSON Sse.
Local Open Scope N_scope.

(** *** Handler code

    The body of an [async] callback, in continuation form. Each operation
    carries what runs when it succeeds and what runs when it throws or its
    promise rejects; [try { op } catch {}] passes the same code twice. *)
Inductive Proc : Type :=
| Return
| Reject
| Write (frame : jsstring) (fulfilled rejected : Proc)
| CloseWriter (fulfilled rejected : Proc)
| CloseSession (returned thrown : Proc).

(** What the remote session delivers to the registered callbacks. *)
Inductive Signal : Type :=
| SigOpen
| SigMessage (message : JSValue)
| SigError (message : jsstring)
| SigClose (reason : jsstring).

Section Callbacks.

(** [sseEvent] in [POST], [sseEventLocal] in [GET]. *)
Variable encode : JSValue -> jsstring.

(** [closeWith(message)], followed by [next]. *)
Definition closeWith (message : JSValue) (next : Proc) : Proc :=
  let closing := CloseWriter next next in
  if truthy message
  then Write (encode (toJS (EvEnd (Some message)))) closing closing
  else closing.

Definition onopen : Proc :=
  Write (encode (toJS EvOpen)) Return Reject.

(** [message.serverContent?.turnComplete]. *)
Definition turnComplete (message : JSValue) : JSValue :=
  getProp (getProp message (js "serverContent")) (js "turnComplete").

Definition onmessage (message : JSValue) : Proc :=
  Write (encode (toJS (EvMessage message)))
    (if truthy (turnComplete message)
     then let finish := closeWith (JSString (js "turn_complete")) Return in
          CloseSession finish finish
     else Return)
    Reject.

Definition onerror (message : jsstring) : Proc :=
  Write (encode (toJS (EvError message)))
    (let finish := closeWith (JSString (js "error")) Return in
     CloseSession finish finish)
    Reject.

Definition onclose (reason : jsstring) : Proc :=
  Write (encode (toJS (EvClose reason)))
    (closeWith (JSString (js "closed")) Return)
    Reject.

(** The listener on [req.signal]. *)
Definition onabort : Proc := CloseSession Return Return.

Definition callback (s : Signal) : Proc :=
  match s with
  | SigOpen => onopen
  | SigMessage message => onmessage message
  | SigError message => onerror message
  | SigClose reason => onclose reason
  end.

End Callbacks.

(** *** The writer and the session

    [writer.write(chunk)] on a [WritableStream] puts the chunk in the
    stream's queue and returns a promise that settles when the sink has
    taken the chunk; once [close()] has been called both [write] and
    [close] return a rejected promise. Requests are served in order. *)
Inductive Pending : Type :=
| ReqWrite
| ReqClose.

Record State : Type := mkState {
  written : list jsstring;          (* chunks accepted by the stream, in order *)
  queue : list (Pending * Proc);    (* requests not yet served, with the code awaiting each *)
  closeRequested : bool;            (* [close()] has been called *)
  streamClosed : bool;              (* the close request has been served *)
  sessionClosed : bool;             (* [session.close()] has been called *)
  sessionStrict : bool;             (* the handle throws when closed again *)
  rejections : nat                  (* callbacks whose promise rejected *)
}.

Definition initial (strict : bool) : State :=
  mkState [] [] false false false strict 0.

(** Run handler code until it suspends on an accepted request or ends. A
    rejected promise resumes its [await] in a later microtask; the code
    after a refused [write] or [close] does not touch the writer again
    with any effect, so it is run at once. *)
Fixpoint run (p : Proc) (st : State) : State :=
  match p with
  | Return => st
  | Reject =>
      mkState (written st) (queue st) (closeRequested st) (streamClosed st)
              (sessionClosed st) (sessionStrict st) (S (rejections st))
  | Write frame fulfilled rejected =>
      if closeRequested st then run rejected st
      else mkState (written st ++ [frame])
                   (queue st ++ [(ReqWrite, fulfilled)])
                   (closeRequested st) (streamClosed st)
                   (sessionClosed st) (sessionStrict st) (rejections st)
  | CloseWriter fulfilled rejected =>
      if closeRequested st then run rejected st
      else mkState (written st) (queue st ++ [(ReqClose, fulfilled)])
                   true (streamClosed st)
                   (sessionClosed st) (sessionStrict st) (rejections st)
  | CloseSession returned thrown =>
      if sessionClosed st && sessionStrict st then run thrown st
      else run returned
             (mkState (written st) (queue st) (closeRequested st)
                      (streamClosed st) true (sessionStrict st)
                      (rejections st))
  end.

(** What can happen next: the remote invokes a callback, the sink serves
    the oldest request (and the code awaiting it resumes), or the client
    disconnects. *)
Inductive Action : Type :=
| Deliver (s : Signal)
| Serve
| Abort.

Section Steps.

Variable encode : JSValue -> jsstring.

Definition step (st : State) (a : Action) : State :=
  match a with
  | Deliver s => run (callback encode s) st
  | Serve =>
      match queue st with
      | [] => st
      | (req, continuation) :: later =>
          run continuation
            (mkState (written st) later (closeRequested st)
                     (match req with
                      | ReqClose => true
                      | ReqWrite => streamClosed st
                      end)
                     (sessionClosed st) (sessionStrict st) (rejections st))
      end
  | Abort => run onabort st
  end.

Definition exec (st : State) (schedule : list Action) : State :=
  fold_left step schedule st.

(** The work still held by the queue; serving a request lowers it. *)
Fixpoint size (p : Proc) : nat :=
  match p with
  | Return | Reject => 0
  | Write _ a b | CloseWriter a b | CloseSession a b => S (size a + size b)
  end.

Definition load (st : State) : nat :=
  fold_right (fun item n => S (size (snd item) + n)) 0%nat (queue st).

(** Serve requests until none is left. *)
Fixpoint drainFor (fuel : nat) (st : State) : State :=
  match fuel with
  | O => st
  | S fuel' =>
      match queue st with
      | [] => st
      | _ :: _ => drainFor fuel' (step st Serve)
      end
  end.

Definition drain (st : State) : State := drainFor (load st) st.

(** A run in which every callback has finished, its writes served, before
    the next signal arrives. *)
Definition serial (st : State) (signals : list Signal) : State :=
  fold_left (fun st s => drain (step st (Deliver s))) signals st.

(** [closeWith(message)] called on its own and left to finish. *)
Definition finalize (message : JSValue) (st : State) : State :=
  drain (run (closeWith encode message Return) st).

End Steps.

(** *** Reading the stream *)

(** The [type] an event frame announces: after [data: {], the quoted name
    [type], a colon and a quote, the text up to the next quote. *)
Fixpoint upToQuote (s : jsstring) : jsstring :=
  match s with
  | [] => []
  | c :: r => if c =? 34 then [] else c :: upToQuote r
  end.

Definition frameType (frame : jsstring) : option jsstring :=
  match stripPrefix (js "data: {") frame with
  | Some r1 =>
      match stripPrefix (quote (js "type")) r1 with
      | Some (58 :: 34 :: r2) => Some (upToQuote r2)
      | _ => None
      end
  | None => None
  end.

Definition isEndFrame (frame : jsstring) : bool :=
  match frameType frame with
  | Some t => eqb t (js "end")
  | None => false
  end.

(** No chunk follows an [end] frame. *)
Fixpoint endIsLast (frames : list jsstring) : bool :=
  match frames with
  | [] => true
  | f :: rest =>
      if isEndFrame f
      then match rest with [] => true | _ :: _ => false end
      else endIsLast rest
  end.

Definition countEndFrames (frames : list jsstring) : nat :=
  List.length (filter isEndFrame frames).

(** *** The session of the test-suite

    [sendClientContent] of the replaced [connect] in the test [handles
    error callback] invokes [onopen], [onerror] and [onclose] in one
    microtask, without awaiting them: each runs up to its first [await],
    that is, each has its frame accepted by the writer and suspends. *)
Definition faultThenClose : list Action :=
  [Deliver SigOpen; Deliver (SigError (js "boom"));
   Deliver (SigClose (js "error"))].

(** The body is read afterwards, which lets the writes settle in order:
    - the write of [open] settles, [onopen] returns;
    - the write of [error] settles, [onerror] resumes, closes the session
      and enters [closeWith("error")], whose [end] frame is accepted;
    - the write of [close] settles, [onclose] resumes and enters
      [closeWith("closed")]: [writer.close()] has not been called yet, so
      this [end] frame is accepted too;
    - the first [end] settles and [closeWith("error")] calls
      [writer.close()];
    - the second [end] settles and [closeWith("closed")] calls
      [writer.close()], which is refused and caught;
    - the close request is served.
    Two more steps find nothing to serve. *)
Definition readToEnd : list Action :=
  [Serve; Serve; Serve; Serve; Serve; Serve; Serve; Serve].

(** The session every other test uses: [onopen], [onmessage] with a text
    part, [onmessage] with [turnComplete] and [onclose], in one microtask. *)
Definition happyPath : list Action :=
  [Deliver SigOpen;
   Deliver (SigMessage
              (JSObject [(js "serverContent",
                          JSObject [(js "modelTurn",
                                     JSObject [(js "parts",
                                                JSArray [JSObject [(js "text", JSString (js "hi"))]])])])]));
   Deliver (SigMessage
              (JSObject [(js "serverContent",
                          JSObject [(js "turnComplete", JSBool true)])]));
   Deliver (SigClose (js "done"))].

(** The same three signals with the reader keeping any pace: [a] requests
    are served after [open], [b] after the fault, [c] after the closure. *)
Definition paced (a b c : nat) (message reason : jsstring) : list Action :=
  Deliver SigOpen :: repeat Serve a
  ++ Deliver (SigError message) :: repeat Serve b
  ++ Deliver (SigClose reason) :: repeat Serve c.

(** The type sequence of the specification for a fault then a closure. *)
Definition faultThenCloseTypes : list (option jsstring) :=
  [Some (js "open"); Some (js "error"); Some (js "close"); Some (js "end")].

(** *** Reasoning about runs *)

(** Code on every path of which the writer is closed. *)
Fixpoint finishes (p : Proc) : bool :=
  match p with
  | Return | Reject => false
  | CloseWriter _ _ => true
  | Write _ a b | CloseSession a b => finishes a && finishes b
  end.

(** The stream is closing, or code that will close it waits in the queue. *)
Definition willClose (st : State) : bool :=
  closeRequested st || existsb (fun item => finishes (snd item)) (queue st).

(** Nothing is pending, no chunk follows an [end] frame, no [end] frame
    has been written while the stream is not closing, and a closing stream
    is closed. *)
Definition settled (st : State) : Prop :=
  queue st = [] /\
  endIsLast (written st) = true /\
  (closeRequested st = false -> countEndFrames (written st) = 0%nat) /\
  (closeRequested st = true -> streamClosed st = true).

Definition jsText (s : string) : JSValue := JSString (js s).

End Bridge.

(* ================================================================= *)
(** ** The route handlers *)

Module Route.

Import JSStr JSON Sse Cors.
Local Open Scope N_scope.

(** *** [createGenAI] *)

(** The options object handed to [new GoogleGenAI]. *)
Inductive Client : Type :=
| VertexClient (project location : jsstring) (apiVersion : option jsstring)
| ApiKeyClient (apiKey : jsstring) (apiVersion : option jsstring).

Definition vertexMessage : jsstring :=
  js "Vertex AI mode enabled (GOOGLE_GENAI_USE_VERTEXAI=true) but GOOGLE_CLOUD_PROJECT or GOOGLE_CLOUD_LOCATION is missing.".

Definition apiKeyMessage : jsstring :=
  js "Missing GOOGLE_API_KEY or GEMINI_API_KEY environment variable.".

Definition useVertex (env : Env) : bool :=
  envIs env (js "GOOGLE_GENAI_USE_VERTEXAI") (js "true").

(** [process.env.GOOGLE_API_KEY || process.env.GEMINI_API_KEY], when
    truthy. *)
Definition apiKeyOf (env : Env) : option jsstring :=
  match whenTruthy (getenv env (js "GOOGLE_API_KEY")) with
  | Some k => Some k
  | None => whenTruthy (getenv env (js "GEMINI_API_KEY"))
  end.

(** The client, or the message of the [Error] thrown. *)
Definition createGenAI (env : Env) : Client + jsstring :=
  let apiVersion := whenTruthy (getenv env (js "GOOGLE_GENAI_API_VERSION")) in
  if useVertex env then
    match whenTruthy (getenv env (js "GOOGLE_CLOUD_PROJECT")),
          whenTruthy (getenv env (js "GOOGLE_CLOUD_LOCATION")) with
    | Some project, Some location =>
        inl (VertexClient project location apiVersion)
    | _, _ => inr vertexMessage
    end
  else
    match apiKeyOf env with
    | Some apiKey => inl (ApiKeyClient apiKey apiVersion)
    | None => inr apiKeyMessage
    end.

(** *** Requests and responses *)

Record Request : Type := mkRequest {
  originHeader : option jsstring;          (* [req.headers.get("origin")] *)
  bodyText : jsstring;                     (* the body [req.json()] parses *)
  query : list (jsstring * jsstring)       (* [new URL(req.url).searchParams] *)
}.

(** [req.headers.get("origin") || undefined]. *)
Definition originOf (req : Request) : option jsstring :=
  whenTruthy (originHeader req).

(** [searchParams.get(name)] and [searchParams.getAll(name)]. *)
Fixpoint searchGet (q : list (jsstring * jsstring)) (name : jsstring)
  : option jsstring :=
  match q with
  | [] => None
  | (k, v) :: rest => if eqb name k then Some v else searchGet rest name
  end.

Definition searchGetAll (q : list (jsstring * jsstring)) (name : jsstring)
  : list jsstring :=
  List.map snd (filter (fun p => eqb name (fst p)) q).

Inductive Body : Type :=
| NoBody
| Text (text : jsstring)
| EventStream.

Record Response : Type := mkResponse {
  status : Z;
  headers : Headers;
  body : Body
}.

(** What [ai.live.connect] and [session.sendClientContent] were given. *)
Record Session : Type := mkSession {
  model : JSValue;
  turns : list JSValue
}.

(** The response of a handler, and the session it opened if it did. *)
Record Outcome : Type := mkOutcome {
  response : Response;
  opened : option Session
}.

(** How [ai.live.connect] settles: with a session, or rejecting with an
    [Error] carrying a message, or with something that is not an [Error]. *)
Inductive Connect : Type :=
| Connected
| ConnectError (message : jsstring)
| ConnectThrows.

(** How the reachability request of the health check settles. *)
Inductive Probe : Type :=
| ProbeResponse (status : Z) (text : option jsstring)
| ProbeError (message : jsstring).

Definition defaultModel : JSValue :=
  JSString (js "models/gemini-2.5-flash-preview-native-audio-dialog").

Definition hello : JSValue := JSString (js "Hello!").

(** [JSON.stringify({ error: msg })] as a response body. *)
Definition errorBody (msg : jsstring) : Body :=
  Text (interpolate (stringify (JSObject [(js "error", JSString msg)]))).

Definition jsonType (h : Headers) : Headers :=
  hset (js "content-type") (js "application/json") h.

Definition streamHeaders (h : Headers) : Headers :=
  hset (js "X-Accel-Buffering") (js "no")
    (hset (js "Connection") (js "keep-alive")
       (hset (js "Cache-Control") (js "no-cache, no-transform")
          (hset (js "Content-Type") (js "text/event-stream; charset=utf-8") h))).

(** The outer [catch]: status 500, CORS headers, the message as JSON. *)
Definition failure (env : Env) (req : Request) (msg : jsstring) : Outcome :=
  mkOutcome
    (mkResponse 500 (jsonType (corsHeaders env (originOf req))) (errorBody msg))
    None.

Definition connectMessage (c : Connect) : jsstring :=
  match c with
  | ConnectError message => message
  | _ => js "Unknown error"
  end.

(** The streaming response, once the session is connected and the turns
    are sent. *)
Definition streaming (env : Env) (req : Request) (m : JSValue)
    (ts : list JSValue) : Outcome :=
  mkOutcome
    (mkResponse 200 (streamHeaders (corsHeaders env (originOf req))) EventStream)
    (Some (mkSession m ts)).

(** *** [POST] *)

(** The turn normalisation of [POST]:
    [Array.isArray(input) ? input
     : typeof input === "string" && input.length > 0 ? [input] : ["Hello!"]]. *)
Definition turnsOfBody (input : JSValue) : list JSValue :=
  match input with
  | JSArray elems => elems
  | JSString s => if nonEmpty s then [JSString s] else [hello]
  | _ => [hello]
  end.

(** [a ?? b]. *)
Definition nullish (a b : JSValue) : JSValue :=
  match a with
  | JSUndefined | JSNull => b
  | _ => a
  end.

(** [await req.json().catch(() => ({}))]. *)
Definition jsonOrEmpty (text : jsstring) : JSValue :=
  match parse text with
  | Some v => v
  | None => JSObject []
  end.

(** The message of the [TypeError] raised by destructuring [null]; its
    wording belongs to the engine. *)
Definition destructureMessage : jsstring :=
  js "Cannot destructure property 'input' of '(intermediate value)' as it is null.".

Definition POST (env : Env) (req : Request) (remote : Connect) : Outcome :=
  match createGenAI env with
  | inr msg =>
      mkOutcome (mkResponse 500 (jsonType []) (errorBody msg)) None
  | inl _ =>
      match jsonOrEmpty (bodyText req) with
      | JSNull | JSUndefined => failure env req destructureMessage
      | parsed =>
          let input := getProp parsed (js "input") in
          let modelOverride := getProp parsed (js "model") in
          let m := nullish modelOverride defaultModel in
          let ts := turnsOfBody input in
          match remote with
          | Connected => streaming env req m ts
          | _ => failure env req (connectMessage remote)
          end
      end
  end.

(** *** [GET] *)

(** The turn normalisation of [GET]:
    [input.length > 0 ? input : ["Hello!"]]. *)
Definition turnsOfQuery (input : list jsstring) : list JSValue :=
  match input with
  | [] => [hello]
  | _ :: _ => List.map JSString input
  end.

Definition noContent (env : Env) (req : Request) : Outcome :=
  mkOutcome (mkResponse 204 (corsHeaders env (originOf req)) NoBody) None.

Definition healthFailure (env : Env) (req : Request) (payload : JSValue)
  : Outcome :=
  mkOutcome
    (mkResponse 500 (jsonType (corsHeaders env (originOf req)))
       (Text (interpolate (stringify payload))))
    None.

(** The branch [health=1], as the first copy of the route in the file has
    it (the second copy answers 204 without looking at anything). *)
Definition healthCheck (env : Env) (req : Request) (probe : Probe) : Outcome :=
  if useVertex env then
    match whenTruthy (getenv env (js "GOOGLE_CLOUD_PROJECT")),
          whenTruthy (getenv env (js "GOOGLE_CLOUD_LOCATION")) with
    | Some _, Some _ => noContent env req
    | _, _ =>
        healthFailure env req
          (JSObject [(js "error",
                      JSString (js "Missing GOOGLE_CLOUD_PROJECT or GOOGLE_CLOUD_LOCATION"))])
    end
  else
    match apiKeyOf env with
    | None =>
        healthFailure env req
          (JSObject [(js "error",
                      JSString (js "Missing GOOGLE_API_KEY or GEMINI_API_KEY"))])
    | Some _ =>
        match probe with
        | ProbeResponse code text =>
            if ((200 <=? code) && (code <=? 299))%Z then noContent env req
            else
              healthFailure env req
                (JSObject
                   [(js "error",
                     JSString (js "Google API health failed: "
                               ++ numberToString code));
                    (js "body",
                     JSString (firstn 300
                                 (match text with Some t => t | None => [] end)))])
        | ProbeError message =>
            healthFailure env req (JSObject [(js "error", JSString message)])
        end
    end.

Definition healthRequested (req : Request) : bool :=
  match searchGet (query req) (js "health") with
  | Some v => eqb v (js "1")
  | None => false
  end.

Definition GET (env : Env) (req : Request) (remote : Connect) (probe : Probe)
  : Outcome :=
  match createGenAI env with
  | inr msg => failure env req msg
  | inl _ =>
      if healthRequested req then healthCheck env req probe
      else
        let m := match searchGet (query req) (js "model") with
                 | Some name => JSString name
                 | None => defaultModel
                 end in
        let ts := turnsOfQuery (searchGetAll (query req) (js "input")) in
        match remote with
        | Connected => streaming env req m ts
        | _ => failure env req (connectMessage remote)
        end
  end.

(** [OPTIONS]. *)
Definition OPTIONS (env : Env) (req : Request) : Response :=
  mkResponse 204 (corsHeaders env (originOf req)) NoBody.

(** *** The configuration the specification speaks of *)

Definition apiKeyPresent (env : Env) : bool :=
  match apiKeyOf env with Some _ => true | None => false end.

Definition hostedIdentityComplete (env : Env) : bool :=
  useVertex env
  && match whenTruthy (getenv env (js "GOOGLE_CLOUD_PROJECT")),
           whenTruthy (getenv env (js "GOOGLE_CLOUD_LOCATION")) with
     | Some _, Some _ => true
     | _, _ => false
     end.

(** The message names the variables whose absence stopped the client. *)
Definition mentionsMissing (env : Env) (msg : jsstring) : bool :=
  if useVertex env
  then contains (js "GOOGLE_CLOUD_PROJECT") msg
       && contains (js "GOOGLE_CLOUD_LOCATION") msg
  else contains (js "GOOGLE_API_KEY") msg
       && contains (js "GEMINI_API_KEY") msg.

(** *** Requests used below *)

Definition keyOnly : Env := [(js "GEMINI_API_KEY", js "test-key")].

(** The body whose [input] is the empty array. *)
Definition emptyInputBody : jsstring :=
  js "{" ++ quote (js "input") ++ js ":[]}".

Definition emptyInputRequest : Request := mkRequest None emptyInputBody [].

(** A request without body and without query. *)
Definition bareRequest : Request := mkRequest None [] [].

(** The request of the test-suite: the body whose [input] is [hello]. *)
Definition helloRequest : Request :=
  mkRequest None
    (js "{" ++ quote (js "input") ++ js ":" ++ quote (js "hello") ++ js "}") [].

(** The chunks of the response body when the session behaves as
    [schedule] says: those its bridge writes for an event stream, none for
    any other body. *)
Definition streamed (encode : JSValue -> jsstring) (o : Outcome)
    (strict : bool) (schedule : list Bridge.Action) : list jsstring :=
  match body (response o) with
  | EventStream =>
      Bridge.written (Bridge.exec encode (Bridge.initial strict) schedule)
  | NoBody | Text _ => []
  end.

(** A structured failure that is not a stream: status 500, a JSON body
    whose [error] is [msg] and in which a client finds no SSE frame, no
    session opened, no chunk written whatever the remote would do. *)
Definition configurationFailure (r : Outcome) (msg : jsstring) : Prop :=
  status (response r) = 500%Z /\
  (exists text,
     body (response r) = Text text /\
     parse text = Some (JSObject [(js "error", JSString msg)]) /\
     readSSE text = []) /\
  hget (headers (response r)) (js "Content-Type") = Some (js "application/json") /\
  opened r = None /\
  (forall encode strict schedule, streamed encode r strict schedule = []).

End Route.

(* ================================================================= *)
(** ** Reading a body chunk by chunk *)

Module Reader.

Import JSStr JSON Sse Cors.
Local Open Scope N_scope.

(** The inner [while (idx !== -1)] loop of [readSSE] and of
    [runGeminiStreamExample], with the buffer it leaves: the events of the
    frames that are complete, and the text after the last blank line. *)
Fixpoint pump (fuel : nat) (buffer : jsstring) : list JSValue * jsstring :=
  match fuel with
  | O => ([], buffer)
  | S fuel' =>
      match cutAtBlankLine buffer with
      | None => ([], buffer)
      | Some (pre, post) =>
          let chunk := trim pre in
          let (later, left) := pump fuel' post in
          match stripPrefix (js "data:") chunk with
          | Some after =>
              match parse (trimStart after) with
              | Some evt => (evt :: later, left)
              | None => (later, left)
              end
          | None => (later, left)
          end
      end
  end.

(** The outer [while (true)] loop: each chunk the transport hands over is
    appended to the buffer, which is then emptied of its complete frames.
    What remains in the buffer when the body ends is dropped. *)
Fixpoint readChunksFrom (buffer : jsstring) (chunks : list jsstring)
  : list JSValue :=
  match chunks with
  | [] => []
  | value :: rest =>
      let buffer := buffer ++ value in
      let (events, left) := pump (List.length buffer) buffer in
      events ++ readChunksFrom left rest
  end.

Definition readChunks (chunks : list jsstring) : list JSValue :=
  readChunksFrom [] chunks.

(** The loop of [postSSE] in the API document: a frame that does not start
    with [data:] is skipped, the rest of the frame is trimmed on both
    sides, an empty rest is skipped, and so is one that does not parse. *)
Fixpoint postFrames (fuel : nat) (buffer : jsstring) : list JSValue :=
  match fuel with
  | O => []
  | S fuel' =>
      match cutAtBlankLine buffer with
      | None => []
      | Some (pre, post) =>
          let frame := trim pre in
          let later := postFrames fuel' post in
          match stripPrefix (js "data:") frame with
          | None => later
          | Some after =>
              let data := trim after in
              if nonEmpty data
              then match parse data with
                   | Some evt => evt :: later
                   | None => later
                   end
              else later
          end
      end
  end.

Definition postSSE (body : jsstring) : list JSValue :=
  postFrames (List.length body) body.

(** What the loop of [readSSE] finds in one chunk: one event or none. *)
Definition decodeChunk (chunk : jsstring) : list JSValue :=
  match stripPrefix (js "data:") chunk with
  | Some after =>
      match parse (trimStart after) with
      | Some evt => [evt]
      | None => []
      end
  | None => []
  end.

(** The body a stream of events is sent as. *)
Definition bodyOf (events : list GeminiSSEEvent) : jsstring :=
  List.concat (List.map (fun e => sseEvent (toJS e)) events).

(** No two line feeds in a row. *)
Fixpoint noBlankLine (s : jsstring) : bool :=
  match s with
  | c :: r =>
      match r with
      | d :: _ => negb ((c =? LF) && (d =? LF)) && noBlankLine r
      | [] => true
      end
  | [] => true
  end.

(** Three events and the start of a fourth, handed over in two chunks cut
    between the two line feeds that end the first frame. *)
Definition sampleBody : jsstring :=
  bodyOf [EvOpen; sampleEvent; negativeZeroEvent] ++ js "data: {".

Definition sampleChunks : list jsstring :=
  [firstn 22 sampleBody; skipn 22 sampleBody].

End Reader.

(* ================================================================= *)
(** ** The life of a stream *)

Module Lifecycle.

Import JSStr JSON Sse Bridge.
Local Open Scope N_scope.

(** The event a callback writes first. *)
Definition eventOf (s : Signal) : GeminiSSEEvent :=
  match s with
  | SigOpen => EvOpen
  | SigMessage message => EvMessage message
  | SigError message => EvError message
  | SigClose reason => EvClose reason
  end.

(** The signals whose callback goes on to [closeWith]. *)
Definition isTerminal (s : Signal) : bool :=
  match s with
  | SigOpen => false
  | SigMessage message => truthy (turnComplete message)
  | SigError _ | SigClose _ => true
  end.

(** The argument [closeWith] is called with by the callback of a terminal
    signal. *)
Definition endMessage (s : Signal) : JSValue :=
  match s with
  | SigMessage _ => JSString (js "turn_complete")
  | SigError _ => JSString (js "error")
  | SigOpen | SigClose _ => JSString (js "closed")
  end.

(** The callbacks that call [session.close()]. *)
Definition closesSession (s : Signal) : bool :=
  match s with
  | SigMessage _ | SigError _ => true
  | SigOpen | SigClose _ => false
  end.

(** What can happen while no terminal signal has arrived. *)
Definition quiet (a : Action) : bool :=
  match a with
  | Deliver s => negb (isTerminal s)
  | Serve | Abort => true
  end.

Definition isAbort (a : Action) : bool :=
  match a with
  | Abort => true
  | Deliver _ | Serve => false
  end.

Fixpoint delivered (schedule : list Action) : list Signal :=
  match schedule with
  | [] => []
  | Deliver s :: rest => s :: delivered rest
  | _ :: rest => delivered rest
  end.

Definition frames (encode : JSValue -> jsstring) (signals : list Signal)
  : list jsstring :=
  List.map (fun s => encode (toJS (eventOf s))) signals.

(** Every request waiting in the queue is the write of a callback that has
    nothing left to do. *)
Definition idleWrites (q : list (Pending * Proc)) : bool :=
  forallb (fun item =>
             match item with
             | (ReqWrite, Return) => true
             | _ => false
             end) q.

(** A close request is waiting to be served. *)
Definition closeQueued (q : list (Pending * Proc)) : bool :=
  existsb (fun item =>
             match fst item with ReqClose => true | ReqWrite => false end) q.

(** Once [close()] has been called, the close request either waits in the
    queue or has been served. *)
Definition closing (st : State) : Prop :=
  closeRequested st = true ->
  streamClosed st = true \/ closeQueued (queue st) = true.

(** The code a terminal callback runs once its own frame is written. *)
Definition afterwards (encode : JSValue -> jsstring) (s : Signal) : Proc :=
  let finish := closeWith encode (endMessage s) Return in
  if closesSession s then CloseSession finish finish else finish.

(** What holds of the bridge while only quiet things have happened: the
    frames of the signals are written, the callbacks whose write waits have
    nothing left to do, the stream is open, no write was refused. *)
Definition forwarding (encode : JSValue -> jsstring) (st : State)
    (signals : list Signal) (aborted : bool) : Prop :=
  written st = frames encode signals /\
  idleWrites (queue st) = true /\
  closeRequested st = false /\
  streamClosed st = false /\
  rejections st = 0%nat /\
  sessionClosed st = aborted.

(** The stream as a terminal signal leaves it once every request has been
    served. *)
Definition ended (encode : JSValue -> jsstring) (strict : bool)
    (schedule : list Action) (s : Signal) : State :=
  drain encode (step encode (exec encode (initial strict) schedule) (Deliver s)).

(** A run before any terminal signal: the session opens, the client
    disconnects, a message without [turnComplete] arrives, one write is
    served. *)
Definition quietRun : list Action :=
  [Deliver SigOpen; Abort;
   Deliver (SigMessage
              (JSObject [(js "serverContent",
                          JSObject [(js "turnComplete", JSBool false)])]));
   Serve].

(** A message that ends the turn. *)
Definition turnCompleteMessage : Signal :=
  SigMessage (JSObject [(js "serverContent",
                         JSObject [(js "turnComplete", JSBool true)])]).

(** A run whose message carries the numbers [0.5] and negative zero. *)
Definition numbersRun : list Action :=
  [Deliver SigOpen;
   Deliver (SigMessage
              (JSObject [(js "serverContent",
                          JSObject [(js "parts",
                                     JSArray
                                       [JSNumber (Finite false 4503599627370496 (-53));
                                        JSNumber (Zero true)])])]));
   Serve].

End Lifecycle.

(* ================================================================= *)
(** ** The two ways of calling the route *)

Module Usage.

Import JSStr JSON Sse Cors Route.
Local Open Scope N_scope.

(** [model: undefined] or a name, as [postSSE] is given it. *)
Definition modelValue (model : option jsstring) : JSValue :=
  match model with
  | Some name => JSString name
  | None => JSUndefined
  end.

(** [JSON.stringify({ input, model })], the body [postSSE] sends. *)
Definition postBody (input : JSValue) (model : option jsstring) : jsstring :=
  interpolate
    (stringify (JSObject [(js "input", input); (js "model", modelValue model)])).

(** The search parameters the handler finds in the URL of the
    [EventSource] example: [input] once for each turn, then [model] when
    one is given. The escaping of the values in the URL and its undoing by
    [new URL] are the platform's and are not part of the model. *)
Definition getQuery (inputs : list jsstring) (model : option jsstring)
  : list (jsstring * jsstring) :=
  List.map (fun turn => (js "input", turn)) inputs
  ++ match model with
     | Some name => [(js "model", name)]
     | None => []
     end.

(** The values [const { input, model } = ...] accepts: anything but
    [null] and [undefined]. *)
Definition destructurable (v : JSValue) : bool :=
  match v with
  | JSNull | JSUndefined => false
  | _ => true
  end.

(** A body with a property the route does not read, whose value is the
    number [0.5]: the text [{"input":"hi","temperature":0.5}]. *)
Definition temperatureRequest : Request :=
  mkRequest None
    (js "{" ++ quote (js "input") ++ js ":" ++ quote (js "hi") ++ js ","
     ++ quote (js "temperature") ++ js ":0.5}") [].

(** The body [null]. *)
Definition nullRequest : Request := mkRequest None (js "null") [].

(** [resp.ok]. *)
Definition probeOk (probe : Probe) : bool :=
  match probe with
  | ProbeResponse code _ => ((200 <=? code) && (code <=? 299))%Z
  | ProbeError _ => false
  end.

(** The names [streamHeaders] sets, as [Headers] keeps them. *)
Definition streamHeaderNames : list jsstring :=
  [js "content-type"; js "cache-control"; js "connection";
   js "x-accel-buffering"].

(** The configuration of the test [includes CORS headers in POST error
    responses]: one allowed origin, no credential. *)
Definition appOrigin : jsstring := js "https://app.example.com".

Definition listedOriginOnly : Env := [(js "CORS_ALLOW_ORIGINS", appOrigin)].

Definition appRequest : Request :=
  mkRequest (Some appOrigin)
    (js "{" ++ quote (js "input") ++ js ":" ++ quote (js "hi") ++ js "}") [].


(** The hosted flag with an incomplete hosted configuration, and an API
    key beside it. *)
Definition hostedWithKey : Env :=
  [(js "GOOGLE_GENAI_USE_VERTEXAI", js "true");
   (js "GOOGLE_CLOUD_PROJECT", js "my-project");
   (js "GOOGLE_API_KEY", js "test-key")].

(** Both key variables set, the first one empty. *)
Definition emptyFirstKey : Env :=
  [(js "GOOGLE_API_KEY", []); (js "GEMINI_API_KEY", js "test-key")].

(** A request for the health check. *)
Definition healthRequest : Request := mkRequest None [] [(js "health", js "1")].

End Usage.

(* ================================================================= *)
(** ** The second copy of the route *)

Module Revision.

Import JSStr JSON Sse Cors Route.
Local Open Scope N_scope.

(** [GET] as the second copy of [route.ts] in the file has it: the branch
    [health=1] answers 204 once the client is created, and the rest is the
    first copy's. *)
Definition GET (env : Env) (req : Request) (remote : Connect) : Outcome :=
  match createGenAI env with
  | inr msg => failure env req msg
  | inl _ =>
      if healthRequested req then noContent env req
      else
        let m := match searchGet (query req) (js "model") with
                 | Some name => JSString name
                 | None => defaultModel
                 end in
        let ts := turnsOfQuery (searchGetAll (query req) (js "input")) in
        match remote with
        | Connected => streaming env req m ts
        | _ => failure env req (connectMessage remote)
        end
  end.

End Revision.

(* ================================================================= *)
(** ** The address the health check probes *)

Module HealthUrl.

Import JSStr JSON Cors Route.
Local Open Scope N_scope.

Definition isDigit (c : N) : bool := (48 <=? c) && (c <=? 57).

(** [LineTerminator], which [.] does not match. *)
Definition isLineTerminator (c : N) : bool :=
  (c =? 10) || (c =? 13) || (c =? 8232) || (c =? 8233).

(** [s.replace(pattern, replacement)] of the health check. The pattern
    is anchored at both ends: the letter v, one decimal digit as the first
    group, then as the second group any characters that are not line
    terminators, up to the end of the string; the replacement is the letter
    v followed by the two groups. *)
Definition replaceVersion (s : jsstring) : jsstring :=
  match s with
  | c :: d :: rest =>
      if (c =? 118) && isDigit d
         && forallb (fun x => negb (isLineTerminator x)) rest
      then js "v" ++ [d] ++ rest
      else s
  | _ => s
  end.

(** [(process.env.GOOGLE_GENAI_API_VERSION || "v1").replace(...)]. *)
Definition ver (env : Env) : jsstring :=
  replaceVersion
    (match whenTruthy (getenv env (js "GOOGLE_GENAI_API_VERSION")) with
     | Some v => v
     | None => js "v1"
     end).

(** The characters [encodeURIComponent] leaves as they are: letters,
    digits, and the marks hyphen, underscore, dot, exclamation mark, tilde,
    asterisk, apostrophe and the two parentheses. *)
Definition isUnescaped (c : N) : bool :=
  ((48 <=? c) && (c <=? 57)) || ((65 <=? c) && (c <=? 90))
  || ((97 <=? c) && (c <=? 122))
  || (c =? 45) || (c =? 95) || (c =? 46) || (c =? 33) || (c =? 126)
  || (c =? 42) || (c =? 39) || (c =? 40) || (c =? 41).

Definition hexUpper (d : N) : N := if d <? 10 then 48 + d else 55 + d.

(** One octet as [%XX]. *)
Definition percent (octet : N) : jsstring :=
  [37; hexUpper (octet / 16); hexUpper (octet mod 16)].

(** The UTF-8 octets of a code point. *)
Definition utf8 (cp : N) : list N :=
  if cp <? 128 then [cp]
  else if cp <? 2048 then [192 + cp / 64; 128 + cp mod 64]
  else if cp <? 65536
       then [224 + cp / 4096; 128 + (cp / 64) mod 64; 128 + cp mod 64]
  else [240 + cp / 262144; 128 + (cp / 4096) mod 64;
        128 + (cp / 64) mod 64; 128 + cp mod 64].

(** [UTF16SurrogatePairToCodePoint]. *)
Definition codePoint (lead trail : N) : N :=
  (lead - 55296) * 1024 + (trail - 56320) + 65536.

(** [encodeURIComponent(s)]; [None] is the [URIError] thrown for a
    surrogate without its pair. *)
Fixpoint encodeURIComponent (s : jsstring) : option jsstring :=
  match s with
  | [] => Some []
  | c :: r =>
      if isUnescaped c
      then option_map (cons c) (encodeURIComponent r)
      else if isLowSurrogate c then None
      else if isHighSurrogate c then
        match r with
        | d :: r' =>
            if isLowSurrogate d
            then option_map (app (flat_map percent (utf8 (codePoint c d))))
                            (encodeURIComponent r')
            else None
        | [] => None
        end
      else option_map (app (flat_map percent (utf8 c))) (encodeURIComponent r)
  end.

(** [checkUrl]; [None] when [encodeURIComponent] throws. *)
Definition checkUrl (env : Env) (apiKey : jsstring) : option jsstring :=
  option_map
    (fun key => js "https://generativelanguage.googleapis.com/" ++ ver env
                ++ js "/models?key=" ++ key)
    (encodeURIComponent apiKey).

(** What a query value may hold without ending the parameter: the
    characters left as they are, and the percent sign of an escape. *)
Definition isUrlSafe (c : N) : bool := isUnescaped c || (c =? 37).

Definition isSurrogate (c : N) : bool := isHighSurrogate c || isLowSurrogate c.

End HealthUrl.

(* ================================================================= *)
(** * Properties *)

(** ** Numbers *)

Module NumberFacts.
Import JSStr JSON.
Local Open Scope N_scope.

(** *** Rounding a value that needs none *)

Lemma isDouble_Finite (negative : bool) (m : positive) (e : Z) :
  isDouble (Finite negative m e)
  = ((Npos m <? 2 ^ 53) && (-1074 <=? e)%Z && (e <=? 971)%Z
     && ((2 ^ 52 <=? Npos m) || (e =? -1074)%Z)).
Proof. reflexivity. Qed.

Lemma isDouble_inv (negative : bool) (m : positive) (e : Z) :
  isDouble (Finite negative m e) = true ->
  Npos m < 2 ^ 53 /\ (-1074 <= e <= 971)%Z
  /\ (2 ^ 52 <= Npos m \/ e = (-1074)%Z).
Proof.
  rewrite isDouble_Finite. intros Hd.
  apply andb_true_iff in Hd. destruct Hd as (Hd & Hnorm).
  apply andb_true_iff in Hd. destruct Hd as (Hd & Hmax).
  apply andb_true_iff in Hd. destruct Hd as (Hm & Hmin).
  apply N.ltb_lt in Hm. apply Z.leb_le in Hmin, Hmax.
  apply orb_true_iff in Hnorm.
  split; [exact Hm|]. split; [split; assumption|].
  destruct Hnorm as [Hn|Hn]; [left; now apply N.leb_le | right; now apply Z.eqb_eq].
Qed.

Lemma pow2_nonzero (e : Z) : pow2 e <> 0.
Proof. unfold pow2. apply N.pow_nonzero. discriminate. Qed.

Lemma pow10_nonzero (e : Z) : pow10 e <> 0.
Proof. unfold pow10. apply N.pow_nonzero. discriminate. Qed.

Lemma roundHalfEven_exact (b k : N) : b <> 0 -> roundHalfEven (b * k) b = k.
Proof.
  intros Hb. unfold roundHalfEven.
  rewrite (N.mul_comm b k), N.Div0.mod_mul, N.div_mul by exact Hb.
  replace (2 * 0 ?= b) with Lt; [reflexivity|].
  symmetry. apply N.compare_lt_iff. lia.
Qed.

Lemma pow2_split (e e' : Z) :
  (e' <= e)%Z ->
  pow2 (- e') * pow2 e = pow2 (- e) * pow2 e' * pow2 (e - e').
Proof.
  intros H. unfold pow2. rewrite <- !N.pow_add_r. f_equal. lia.
Qed.

Lemma significand_exact (p q : N) (m : positive) (e e' : Z) :
  represents p q m e -> (e' <= e)%Z ->
  significand p q e' = Npos m * pow2 (e - e').
Proof.
  intros (Hq & Heq) Hle. unfold significand.
  assert (H : p * pow2 (- e') = q * pow2 e' * (Npos m * pow2 (e - e'))).
  { apply (N.mul_cancel_r _ _ (pow2 (- e))); [apply pow2_nonzero|].
    transitivity (p * pow2 (- e) * pow2 (- e')); [lia|].
    rewrite Heq.
    transitivity (q * N.pos m * (pow2 (- e') * pow2 e)); [lia|].
    rewrite (pow2_split e e' Hle). lia. }
  rewrite H. apply roundHalfEven_exact.
  pose proof (pow2_nonzero e'). lia.
Qed.

Lemma fit_exact (p q : N) (m : positive) (e : Z) :
  represents p q m e ->
  Npos m < 2 ^ 53 ->
  forall fuel start,
    (start <= e)%Z -> (e - start <= Z.of_nat fuel)%Z ->
    ((start < e)%Z -> 2 ^ 52 <= Npos m) ->
    fit fuel p q start = (Npos m, e).
Proof.
  intros Hr Hm fuel. induction fuel as [|fuel IH]; intros start Hle Hfuel Hnorm.
  - assert (start = e) by lia. subst start. cbn [fit].
    rewrite (significand_exact p q m e e Hr) by lia.
    rewrite Z.sub_diag. change (pow2 0) with 1. now rewrite N.mul_1_r.
  - cbn [fit]. rewrite (significand_exact p q m e start Hr Hle).
    destruct (Z.eq_dec start e) as [->|Hne].
    + rewrite Z.sub_diag. change (pow2 0) with 1. rewrite N.mul_1_r.
      apply N.ltb_lt in Hm. now rewrite Hm.
    + assert (Hlt : (start < e)%Z) by lia. specialize (Hnorm Hlt).
      assert (Hbig : 2 ^ 53 <= N.pos m * pow2 (e - start)).
      { unfold pow2. replace (Z.to_N (e - start)) with (N.succ (Z.to_N (e - start - 1)))
          by lia.
        rewrite N.pow_succ_r'.
        assert (1 <= 2 ^ Z.to_N (e - start - 1)).
        { pose proof (N.pow_nonzero 2 (Z.to_N (e - start - 1))). lia. }
        change (2 ^ 53) with (2 ^ 52 * 2). nia. }
      apply N.ltb_ge in Hbig. rewrite Hbig.
      apply IH; lia.
Qed.

(** The sizes of [p] and [q] give the exponent, or the one below. *)
Lemma start_bounds (p q : N) (m : positive) (e : Z) :
  represents p q m e ->
  Npos m < 2 ^ 53 ->
  let start := (Z.of_N (N.log2 p) - Z.of_N (N.log2 q) - 53)%Z in
  (start <= e)%Z /\
  (2 ^ 52 <= Npos m -> (e <= start + 1)%Z) /\
  (Npos m < 2 ^ 52 -> (start < e)%Z).
Proof.
  intros (Hq & Heq) Hm. cbv zeta.
  assert (Hp : p <> 0).
  { intros ->. rewrite N.mul_0_l in Heq. symmetry in Heq.
    apply N.eq_mul_0 in Heq. pose proof (pow2_nonzero e).
    destruct Heq as [Heq|Heq]; [|contradiction].
    apply N.eq_mul_0 in Heq. destruct Heq; [contradiction | discriminate]. }
  destruct (N.log2_spec p ltac:(lia)) as (Pa & Pb).
  destruct (N.log2_spec q ltac:(lia)) as (Qa & Qb).
  set (a := N.log2 p) in *. set (b := N.log2 q) in *.
  unfold pow2 in Heq.
  set (u := Z.to_N (- e)) in *. set (w := Z.to_N e) in *.
  assert (He : e = (Z.of_N w - Z.of_N u)%Z) by lia.
  assert (L1 : 2 ^ (a + u) <= p * 2 ^ u).
  { rewrite N.pow_add_r. now apply N.mul_le_mono_r. }
  assert (L2 : p * 2 ^ u < 2 ^ (N.succ a + u)).
  { rewrite N.pow_add_r. apply N.mul_lt_mono_pos_r; [|exact Pb].
    pose proof (N.pow_nonzero 2 u). lia. }
  assert (R2 : q * N.pos m * 2 ^ w < 2 ^ (N.succ b + 53 + w)).
  { rewrite !N.pow_add_r. apply N.mul_lt_mono_pos_r.
    - pose proof (N.pow_nonzero 2 w). lia.
    - apply N.mul_lt_mono; assumption. }
  assert (U : a + u < N.succ b + 53 + w).
  { apply (N.pow_lt_mono_r_iff 2); [lia|]. lia. }
  split; [lia|]. split.
  - intros Hnorm.
    assert (R1 : 2 ^ (b + 52 + w) <= q * N.pos m * 2 ^ w).
    { rewrite !N.pow_add_r. apply N.mul_le_mono_r.
      apply N.mul_le_mono; assumption. }
    assert (V : b + 52 + w < N.succ a + u).
    { apply (N.pow_lt_mono_r_iff 2); [lia|]. lia. }
    lia.
  - intros Hsub.
    assert (R3 : q * N.pos m * 2 ^ w < 2 ^ (N.succ b + 52 + w)).
    { rewrite !N.pow_add_r. apply N.mul_lt_mono_pos_r.
      - pose proof (N.pow_nonzero 2 w). lia.
      - apply N.mul_lt_mono; assumption. }
    assert (V : a + u < N.succ b + 52 + w).
    { apply (N.pow_lt_mono_r_iff 2); [lia|]. lia. }
    lia.
Qed.

(** Rounding a rational that is a binary64 value gives that value. *)
Lemma roundRatio_exact (negative : bool) (p q : N) (m : positive) (e : Z) :
  represents p q m e ->
  isDouble (Finite negative m e) = true ->
  roundRatio negative p q = Finite negative m e.
Proof.
  intros Hr Hd. apply isDouble_inv in Hd.
  destruct Hd as (Hm & (Hmin & Hmax) & Hnorm).
  destruct (start_bounds p q m e Hr Hm) as (B1 & B2 & B3).
  unfold roundRatio.
  rewrite (fit_exact p q m e Hr Hm 3).
  - apply Z.ltb_ge in Hmax. now rewrite Hmax.
  - lia.
  - change (Z.of_nat 3) with 3%Z. destruct Hnorm as [Hn|Hn].
    + specialize (B2 Hn). lia.
    + lia.
  - intros Hlt. destruct Hnorm as [Hn|Hn]; [exact Hn|].
    exfalso. lia.
Qed.

(** *** Decimals without zeros at the end *)

Lemma stripZeros_spec (fuel : nat) :
  forall s d s' d',
    stripZeros fuel s d = (s', d') -> s < 2 ^ N.of_nat fuel ->
    (s' = 0 \/ s' mod 10 <> 0) /\ (d <= d')%Z
    /\ s = s' * 10 ^ Z.to_N (d' - d).
Proof.
  induction fuel as [|fuel IH]; intros s d s' d' E Hs.
  - cbn [stripZeros] in E. injection E as <- <-.
    change (2 ^ N.of_nat 0) with 1 in Hs.
    rewrite Z.sub_diag. change (10 ^ Z.to_N 0) with 1.
    split; [left; lia|]. split; lia.
  - cbn [stripZeros] in E.
    destruct ((s =? 0) || negb (s mod 10 =? 0)) eqn:T.
    + injection E as <- <-. rewrite Z.sub_diag. change (10 ^ Z.to_N 0) with 1.
      split; [|split; lia].
      apply orb_true_iff in T. destruct T as [T|T].
      * left. now apply N.eqb_eq.
      * right. apply negb_true_iff in T. now apply N.eqb_neq.
    + apply orb_false_iff in T. destruct T as (T0 & T1).
      apply negb_false_iff in T1. apply N.eqb_eq in T1.
      assert (Hdiv : s = 10 * (s / 10)).
      { pose proof (N.div_mod s 10 ltac:(discriminate)). lia. }
      assert (Hlt : s / 10 < 2 ^ N.of_nat fuel).
      { apply N.Div0.div_lt_upper_bound.
        rewrite Nat2N.inj_succ, N.pow_succ_r' in Hs. lia. }
      destruct (IH _ _ _ _ E Hlt) as (Hn & Hd & Hv).
      split; [exact Hn|]. split; [lia|].
      replace (Z.to_N (d' - d)) with (N.succ (Z.to_N (d' - (d + 1)))) by lia.
      rewrite N.pow_succ_r'. lia.
Qed.

Lemma normalise_spec (s : N) (d : Z) (s' : N) (d' : Z) :
  normalise s d = (s', d') ->
  (s' = 0 \/ s' mod 10 <> 0) /\ (d <= d')%Z
  /\ s = s' * 10 ^ Z.to_N (d' - d).
Proof.
  unfold normalise. intros E. apply (stripZeros_spec _ _ _ _ _ E).
  rewrite Nat2N.inj_succ, N2Nat.id.
  destruct (N.eq_dec s 0) as [->|Hs]; [reflexivity|].
  apply N.log2_spec. lia.
Qed.

Lemma normalise_fixed (s : N) (d : Z) :
  s = 0 \/ s mod 10 <> 0 -> normalise s d = (s, d).
Proof.
  intros H. unfold normalise. cbn [stripZeros].
  replace ((s =? 0) || negb (s mod 10 =? 0)) with true; [reflexivity|].
  symmetry. apply orb_true_iff. destruct H as [H|H].
  - left. now apply N.eqb_eq.
  - right. apply negb_true_iff. now apply N.eqb_neq.
Qed.

Lemma stripZeros_scaled (s : N) :
  s <> 0 -> s mod 10 <> 0 ->
  forall (j fuel : nat) (d : Z),
    lt j fuel ->
    stripZeros fuel (s * 10 ^ N.of_nat j) d = (s, (d + Z.of_nat j)%Z).
Proof.
  intros Hs Hm j. induction j as [|j IH]; intros fuel d Hf.
  - destruct fuel as [|fuel]; [lia|]. cbn [stripZeros].
    change (10 ^ N.of_nat 0) with 1. rewrite N.mul_1_r, Z.add_0_r.
    replace ((s =? 0) || negb (s mod 10 =? 0)) with true; [reflexivity|].
    symmetry. apply orb_true_iff. right. apply negb_true_iff.
    now apply N.eqb_neq.
  - destruct fuel as [|fuel]; [lia|]. cbn [stripZeros].
    rewrite Nat2N.inj_succ, N.pow_succ_r'.
    replace (s * (10 * 10 ^ N.of_nat j)) with (s * 10 ^ N.of_nat j * 10) by lia.
    rewrite N.Div0.mod_mul, N.div_mul by discriminate.
    assert (Hnz : s * 10 ^ N.of_nat j * 10 <> 0).
    { pose proof (N.pow_nonzero 10 (N.of_nat j) ltac:(discriminate)). nia. }
    apply N.eqb_neq in Hnz. rewrite Hnz. cbn [N.eqb negb orb].
    rewrite IH by lia. f_equal. lia.
Qed.

Lemma normalise_scaled (s j : N) (d : Z) :
  s <> 0 -> s mod 10 <> 0 ->
  normalise (s * 10 ^ j) d = (s, (d + Z.of_N j)%Z).
Proof.
  intros Hs Hm. unfold normalise.
  assert (H : j <= N.log2 (s * 10 ^ j)).
  { apply N.log2_le_pow2.
    - pose proof (N.pow_nonzero 10 j ltac:(discriminate)). nia.
    - assert (2 ^ j <= 10 ^ j) by (apply N.pow_le_mono_l; lia). nia. }
  pose proof (stripZeros_scaled s Hs Hm (N.to_nat j)
                (S (N.to_nat (N.log2 (s * 10 ^ j)))) d ltac:(lia)) as E.
  rewrite N2Nat.id in E. rewrite E. f_equal. lia.
Qed.

(** *** The Number value for a decimal *)

Lemma roundDecimal_normal (negative : bool) (s : N) (d : Z) :
  s = 0 \/ s mod 10 <> 0 ->
  roundDecimal negative (s, d)
  = if s =? 0 then Zero negative
    else roundRatio negative (s * pow10 d) (pow10 (- d)).
Proof.
  intros H. unfold roundDecimal. cbn [fst snd].
  now rewrite (normalise_fixed s d H).
Qed.

Lemma roundDecimal_scaled (negative : bool) (s j : N) (d : Z) :
  s <> 0 -> s mod 10 <> 0 ->
  roundDecimal negative (s * 10 ^ j, d)
  = roundDecimal negative (s, (d + Z.of_N j)%Z).
Proof.
  intros Hs Hm. unfold roundDecimal. cbn [fst snd].
  rewrite (normalise_scaled s j d Hs Hm).
  now rewrite (normalise_fixed s _ (or_intror Hm)).
Qed.

(** The sign does not take part in the rounding. *)
Lemma roundDecimal_sign (negative : bool) (c : N * Z) (m : positive) (e : Z) :
  roundDecimal false c = Finite false m e ->
  roundDecimal negative c = Finite negative m e.
Proof.
  unfold roundDecimal. destruct (normalise (fst c) (snd c)) as [s d].
  destruct (s =? 0); [discriminate|].
  unfold roundRatio. destruct (fit 3 _ _ _) as [m' e'].
  destruct (971 <? e')%Z; [discriminate|].
  destruct m' as [|m']; [discriminate|].
  intros [= -> ->]. reflexivity.
Qed.

Lemma roundDecimal_nonzero (c : N * Z) (m : positive) (e : Z) :
  roundDecimal false c = Finite false m e -> fst c <> 0.
Proof.
  intros H Hz. destruct c as [s d]. cbn [fst] in Hz. subst s.
  rewrite roundDecimal_normal in H by (left; reflexivity). discriminate.
Qed.

Lemma pow10_split (d d' : Z) :
  (d <= d')%Z ->
  pow10 (- d) * pow10 d' = pow10 (- d') * pow10 d * 10 ^ Z.to_N (d' - d).
Proof.
  intros H. unfold pow10. rewrite <- !N.pow_add_r. f_equal. lia.
Qed.

Lemma denotes_normalise (s : N) (d : Z) (m : positive) (e : Z) :
  denotes (s, d) m e -> denotes (normalise s d) m e.
Proof.
  intros (Hs & Hq & Heq). cbn [fst snd] in *.
  destruct (normalise s d) as [s' d'] eqn:E.
  destruct (normalise_spec s d s' d' E) as (_ & Hd & Hv).
  unfold denotes, represents. cbn [fst snd].
  split; [intros ->; apply Hs; rewrite Hv; lia|].
  split; [apply pow10_nonzero|].
  apply (N.mul_cancel_r _ _ (pow10 (- d))); [apply pow10_nonzero|].
  pose proof (pow10_split d d' Hd) as Hsplit.
  set (j := 10 ^ Z.to_N (d' - d)) in *.
  transitivity (s' * (pow10 (- d) * pow10 d') * pow2 (- e)); [lia|].
  rewrite Hsplit.
  transitivity (s' * j * pow10 d * pow2 (- e) * pow10 (- d')); [lia|].
  rewrite <- Hv, Heq. lia.
Qed.

Lemma roundDecimal_exact (negative : bool) (c : N * Z) (m : positive) (e : Z) :
  denotes c m e ->
  isDouble (Finite negative m e) = true ->
  roundDecimal negative c = Finite negative m e.
Proof.
  intros Hc Hd. destruct c as [s d].
  apply denotes_normalise in Hc. unfold roundDecimal. cbn [fst snd].
  destruct (normalise s d) as [s' d']. destruct Hc as (Hs & Hr).
  cbn [fst snd] in *. apply N.eqb_neq in Hs. rewrite Hs.
  now apply roundRatio_exact.
Qed.

(** *** The digits [Number::toString] chooses *)

Lemma exactDecimal_denotes (m : positive) (e : Z) :
  denotes (exactDecimal m e) m e.
Proof.
  unfold exactDecimal. destruct (Z.ltb_spec e 0) as [He|He];
    apply denotes_normalise; unfold denotes, represents; cbn [fst snd].
  - split; [pose proof (N.pow_nonzero 5 (Z.to_N (- e)) ltac:(discriminate)); nia|].
    split; [apply pow10_nonzero|].
    unfold pow10, pow2.
    replace (Z.to_N e) with 0 by lia. change (10 ^ 0) with 1. change (2 ^ 0) with 1.
    change 10 with (5 * 2) at 1. rewrite N.pow_mul_l. lia.
  - split; [pose proof (pow2_nonzero e); nia|].
    split; [apply pow10_nonzero|].
    unfold pow10, pow2. change (Z.to_N 0) with 0. change (Z.to_N (- 0)) with 0.
    replace (Z.to_N (- e)) with 0 by lia.
    change (10 ^ 0) with 1. change (2 ^ 0) with 1. lia.
Qed.

Lemma rounds_true (m : positive) (e : Z) (c : N * Z) :
  rounds m e c = true -> roundDecimal false c = Finite false m e.
Proof.
  unfold rounds. destruct (roundDecimal false c) as [| | |[|] m' e'];
    try discriminate.
  intros H. apply andb_true_iff in H. destruct H as (Hm & He).
  apply Pos.eqb_eq in Hm. apply Z.eqb_eq in He. now subst.
Qed.

Lemma normalise_normal (s : N) (d : Z) :
  fst (normalise s d) <> 0 -> normal (normalise s d).
Proof.
  destruct (normalise s d) as [s' d'] eqn:E. cbn [fst]. intros Hs.
  destruct (normalise_spec s d s' d' E) as ([H|H] & _); [contradiction|].
  split; assumption.
Qed.

Lemma search_spec (xn xd : N) (n0 : Z) (m : positive) (e : Z) (fuel : nat) :
  forall k c,
    search fuel k xn xd n0 m e = Some c ->
    roundDecimal false c = Finite false m e /\ normal c.
Proof.
  assert (Hlow : forall s d,
             rounds m e (normalise s d) = true ->
             roundDecimal false (normalise s d) = Finite false m e
             /\ normal (normalise s d)).
  { intros s d H. apply rounds_true in H. split; [exact H|].
    apply normalise_normal. now apply roundDecimal_nonzero in H. }
  induction fuel as [|fuel IH]; intros k c; [discriminate|].
  cbn [search]. cbv zeta.
  set (t := (k - n0)%Z). set (a := xn * pow10 t). set (b := xd * pow10 (- t)).
  destruct (rounds m e (normalise (a / b) (- t))) eqn:El;
    destruct (rounds m e (normalise (a / b + 1) (- t))) eqn:Eh.
  - destruct (2 * (a mod b) ?= b); [destruct (N.even (a / b))| |];
      intros [= <-]; now apply Hlow.
  - intros [= <-]. now apply Hlow.
  - intros [= <-]. now apply Hlow.
  - apply IH.
Qed.

(** The digits chosen stand for the number, and end in no zero. *)
Lemma shortest_spec (m : positive) (e : Z) :
  isDouble (Finite false m e) = true ->
  roundDecimal false (shortest m e) = Finite false m e
  /\ normal (shortest m e).
Proof.
  intros Hd. unfold shortest. cbv zeta.
  destruct (search 17 1 _ _ _ m e) as [c|] eqn:E.
  - exact (search_spec _ _ _ m e 17 1 c E).
  - pose proof (exactDecimal_denotes m e) as Hden.
    split; [now apply roundDecimal_exact|].
    unfold exactDecimal in *.
    destruct (e <? 0)%Z; apply normalise_normal; apply Hden.
Qed.

(** *** Digits *)

Lemma uintChars_digits (u : Decimal.uint) :
  forallb isDigit (uintChars u) = true.
Proof. induction u; cbn [uintChars forallb]; try rewrite IHu; reflexivity. Qed.

Lemma zeros_digits (n : Z) : forallb isDigit (zeros n) = true.
Proof.
  unfold zeros. induction (Z.to_nat n) as [|j IH]; [reflexivity|].
  cbn [repeat forallb]. now rewrite IH.
Qed.

Lemma length_zeros (n : Z) : List.length (zeros n) = Z.to_nat n.
Proof. apply repeat_length. Qed.

Lemma forallb_firstn_skipn {A : Type} (f : A -> bool) (n : nat) (l : list A) :
  forallb f l = true ->
  forallb f (firstn n l) = true /\ forallb f (skipn n l) = true.
Proof.
  intros H. rewrite <- (firstn_skipn n l) in H.
  rewrite forallb_app in H. now apply andb_true_iff in H.
Qed.

Lemma digitsFold_acc (ds : jsstring) :
  forall acc,
    fold_left (fun acc c => 10 * acc + (c - 48)) ds acc
    = acc * 10 ^ N.of_nat (List.length ds) + digitsValue ds.
Proof.
  unfold digitsValue. induction ds as [|c ds IH]; intros acc.
  - cbn [fold_left List.length]. change (10 ^ N.of_nat 0) with 1. lia.
  - cbn [fold_left List.length]. rewrite IH. rewrite (IH (10 * 0 + (c - 48))).
    rewrite Nat2N.inj_succ, N.pow_succ_r'. lia.
Qed.

Lemma digitsValue_app (a b : jsstring) :
  digitsValue (a ++ b)
  = digitsValue a * 10 ^ N.of_nat (List.length b) + digitsValue b.
Proof.
  unfold digitsValue at 1. rewrite fold_left_app.
  fold (digitsValue a). apply digitsFold_acc.
Qed.

Lemma digitsValue_zeros (n : Z) : digitsValue (zeros n) = 0.
Proof.
  unfold zeros, digitsValue. induction (Z.to_nat n) as [|j IH]; [reflexivity|].
  cbn [repeat fold_left]. exact IH.
Qed.

Lemma digitsFold_pos (u : Decimal.uint) :
  forall acc : positive,
    fold_left (fun acc c => 10 * acc + (c - 48)) (uintChars u) (Npos acc)
    = Npos (Pos.of_uint_acc u acc).
Proof.
  induction u as [|u IH|u IH|u IH|u IH|u IH|u IH|u IH|u IH|u IH|u IH];
    intros acc; [reflexivity|..];
    cbn [uintChars fold_left Pos.of_uint_acc];
    rewrite <- IH; f_equal; lia.
Qed.

Lemma digitsValue_uintChars (u : Decimal.uint) :
  digitsValue (uintChars u) = N.of_uint u.
Proof.
  unfold N.of_uint, digitsValue.
  induction u as [|u IH|u IH|u IH|u IH|u IH|u IH|u IH|u IH|u IH|u IH];
    [reflexivity | exact IH | ..];
    cbn [uintChars fold_left Pos.of_uint]; rewrite <- digitsFold_pos;
    reflexivity.
Qed.

Lemma digitsValue_digitsOf (n : N) : digitsValue (digitsOf n) = n.
Proof.
  unfold digitsOf. rewrite digitsValue_uintChars.
  apply DecimalN.Unsigned.of_to.
Qed.

Lemma digitsOf_digits (n : N) : forallb isDigit (digitsOf n) = true.
Proof. apply uintChars_digits. Qed.

(** The decimal writing of a number starts with a digit, and with a digit
    other than [0] unless the number is zero. *)
Lemma digitsOf_head (n : N) :
  exists c t, digitsOf n = c :: t /\ isDigit c = true
              /\ (n <> 0 -> (c =? 48) = false).
Proof.
  pose proof (digitsOf_digits n) as Hall.
  destruct (digitsOf n) as [|c t] eqn:E.
  - exfalso. unfold digitsOf in E. destruct n as [|p].
    + discriminate.
    + apply (DecimalPos.Unsigned.to_uint_nonnil p).
      change (N.to_uint (Npos p)) with (Pos.to_uint p) in E.
      now destruct (Pos.to_uint p).
  - exists c, t. split; [reflexivity|].
    cbn [forallb] in Hall. apply andb_true_iff in Hall.
    split; [apply Hall|]. intros Hn.
    destruct (N.eqb_spec c 48) as [->|]; [|reflexivity]. exfalso.
    pose proof (digitsValue_digitsOf n) as Hv.
    assert (Hnorm : Decimal.unorm (N.to_uint n) = N.to_uint n).
    { rewrite <- DecimalN.Unsigned.to_of.
      now rewrite DecimalN.Unsigned.of_to. }
    unfold digitsOf in E.
    destruct (N.to_uint n) as [|u|u|u|u|u|u|u|u|u|u] eqn:Eu;
      try discriminate.
    rewrite DecimalFacts.unorm_D0 in Hnorm.
    assert (Hz : N.of_uint (Decimal.D0 u) = n).
    { rewrite <- Eu. apply DecimalN.Unsigned.of_to. }
    destruct (Decimal.nzhead u) eqn:En;
      [ unfold Decimal.unorm in Hnorm; rewrite En in Hnorm;
        injection Hnorm as <-; apply Hn; rewrite <- Hz; reflexivity
      | rewrite DecimalFacts.unorm_nzhead in Hnorm by (rewrite En; discriminate);
        now apply DecimalFacts.nzhead_nonzero in Hnorm .. ].
Qed.

(** *** Reading what [Number::toString] wrote *)

Lemma takeDigits_app (ds rest : jsstring) :
  forallb isDigit ds = true ->
  match rest with [] => True | c :: _ => isDigit c = false end ->
  takeDigits (ds ++ rest) = (ds, rest).
Proof.
  intros Hds Hrest. induction ds as [|c ds IH].
  - destruct rest as [|c r]; [reflexivity|].
    cbn [app takeDigits]. now rewrite Hrest.
  - cbn [forallb] in Hds. apply andb_true_iff in Hds. destruct Hds as [Hc Hds].
    cbn [app takeDigits]. rewrite Hc, (IH Hds). reflexivity.
Qed.

Lemma delimited_inv (rest : jsstring) :
  delimited rest = true ->
  match rest with [] => True | c :: _ => isDigit c = false end
  /\ parseFraction rest = Some ([], rest)
  /\ parseExponent rest = Some (0%Z, rest).
Proof.
  destruct rest as [|c r]; [now repeat split|]. cbn [delimited]. intros H.
  apply orb_true_iff in H. destruct H as [H|H];
    [apply orb_true_iff in H; destruct H as [H|H]|];
    apply N.eqb_eq in H; subst c; repeat split; reflexivity.
Qed.

Lemma parseInt_digits (c : N) (t tail : jsstring) :
  isDigit c = true -> (c =? 48) = false -> forallb isDigit t = true ->
  match tail with [] => True | c :: _ => isDigit c = false end ->
  parseInt ((c :: t) ++ tail) = Some (c :: t, tail).
Proof.
  intros Hc H48 Ht Htail. cbn [app parseInt]. rewrite H48, Hc. f_equal.
  apply (takeDigits_app (c :: t) tail); [|exact Htail].
  cbn [forallb]. now rewrite Hc, Ht.
Qed.

Lemma parseFraction_digits (ds tail : jsstring) :
  ds <> [] -> forallb isDigit ds = true ->
  match tail with [] => True | c :: _ => isDigit c = false end ->
  parseFraction (46 :: ds ++ tail) = Some (ds, tail).
Proof.
  intros Hne Hds Htail. cbn [parseFraction]. change (46 =? 46) with true.
  cbv iota. rewrite (takeDigits_app ds tail Hds Htail).
  destruct ds; [congruence|reflexivity].
Qed.

Lemma parseExponent_written (x : Z) (rest : jsstring) :
  match rest with [] => True | c :: _ => isDigit c = false end ->
  parseExponent
    (101 :: (if (x <? 0)%Z then 45 else 43) :: digitsOf (Z.abs_N x) ++ rest)
  = Some (x, rest).
Proof.
  intros Hrest. cbn [parseExponent]. change ((101 =? 101) || (101 =? 69)) with true.
  cbv iota.
  assert (Hsign : parseSign ((if (x <? 0)%Z then 45 else 43)
                             :: digitsOf (Z.abs_N x) ++ rest)
                  = ((x <? 0)%Z, digitsOf (Z.abs_N x) ++ rest)).
  { destruct (x <? 0)%Z; reflexivity. }
  rewrite Hsign.
  rewrite (takeDigits_app _ rest (digitsOf_digits _) Hrest).
  destruct (digitsOf_head (Z.abs_N x)) as (c & t & E & _).
  pose proof (digitsValue_digitsOf (Z.abs_N x)) as Hv.
  rewrite E in *. rewrite Hv. f_equal. f_equal.
  rewrite N2Z.inj_abs_N.
  destruct (Z.ltb_spec x 0); lia.
Qed.

(** The text [formatDecimal] writes for a decimal is read back as the
    Number value for that decimal. *)
Lemma parseUnsigned_formatDecimal (negative : bool) (s : N) (d : Z)
    (rest : jsstring) :
  normal (s, d) -> delimited rest = true ->
  parseUnsigned negative (formatDecimal (s, d) ++ rest)
  = Some (roundDecimal negative (s, d), rest).
Proof.
  intros (Hs & Hm) Hrest. cbn [fst] in Hs, Hm.
  destruct (delimited_inv rest Hrest) as (Hnd & Hfrac & Hexp).
  destruct (digitsOf_head s) as (c0 & t0 & E & Hc0 & H48). specialize (H48 Hs).
  pose proof (digitsOf_digits s) as Hds.
  pose proof (digitsValue_digitsOf s) as Hv.
  unfold formatDecimal, parseUnsigned. cbv zeta. rewrite E in *.
  assert (Ht0 : forallb isDigit t0 = true).
  { cbn [forallb] in Hds. apply andb_true_iff in Hds. apply Hds. }
  set (k := Z.of_nat (List.length (c0 :: t0))).
  assert (Hk : k = Z.succ (Z.of_nat (List.length t0))).
  { subst k. cbn [List.length]. lia. }
  set (n := (d + k)%Z).
  assert (Hn : n = (d + k)%Z) by reflexivity.
  clearbody n k.
  destruct ((k <=? n) && (n <=? 21))%Z eqn:F1.
  { (* the digits followed by zeros *)
    apply andb_true_iff in F1. destruct F1 as [F1 _]. apply Z.leb_le in F1.
    change ((c0 :: t0) ++ zeros (n - k)) with (c0 :: (t0 ++ zeros (n - k))).
    rewrite parseInt_digits; try assumption;
      [|rewrite forallb_app, Ht0, zeros_digits; reflexivity].
    rewrite Hfrac, Hexp. f_equal. f_equal.
    rewrite app_nil_r.
    change (c0 :: t0 ++ zeros (n - k)) with ((c0 :: t0) ++ zeros (n - k)).
    rewrite digitsValue_app, digitsValue_zeros, Hv, length_zeros, N.add_0_r.
    rewrite (roundDecimal_scaled negative s _ _ Hs Hm).
    f_equal. f_equal. cbn [List.length]. lia. }
  destruct ((0 <? n) && (n <=? 21))%Z eqn:F2.
  { (* a decimal point inside the digits *)
    apply andb_true_iff in F2. destruct F2 as [F2 F2'].
    apply Z.ltb_lt in F2. apply Z.leb_le in F2'.
    assert (Hnk : (n < k)%Z).
    { apply andb_false_iff in F1. destruct F1 as [F1|F1];
        [apply Z.leb_gt in F1; lia | apply Z.leb_gt in F1; lia]. }
    destruct (Z.to_nat n) as [|n1] eqn:En; [lia|].
    cbn [firstn skipn].
    destruct (forallb_firstn_skipn isDigit n1 t0 Ht0) as (Hfirst & Hskip).
    change (((c0 :: firstn n1 t0) ++ 46 :: skipn n1 t0) ++ rest)
      with (c0 :: ((firstn n1 t0 ++ 46 :: skipn n1 t0) ++ rest)).
    rewrite <- app_assoc.
    change (c0 :: firstn n1 t0 ++ (46 :: skipn n1 t0) ++ rest)
      with ((c0 :: firstn n1 t0) ++ 46 :: skipn n1 t0 ++ rest).
    rewrite parseInt_digits; try assumption; [|reflexivity].
    assert (Hlen : List.length (skipn n1 t0) = Nat.sub (List.length t0) n1)
      by apply length_skipn.
    rewrite parseFraction_digits; try assumption;
      [|intros Hnil; rewrite Hnil in Hlen; cbn [List.length] in Hlen; lia].
    rewrite Hexp. f_equal. f_equal.
    change ((c0 :: firstn n1 t0) ++ skipn n1 t0)
      with (c0 :: (firstn n1 t0 ++ skipn n1 t0)).
    rewrite firstn_skipn, Hv. f_equal. f_equal. rewrite Hlen. lia. }
  destruct ((-6 <? n) && (n <=? 0))%Z eqn:F3.
  { (* the digits after a point and zeros *)
    apply andb_true_iff in F3. destruct F3 as [_ F3]. apply Z.leb_le in F3.
    change ((48 :: 46 :: zeros (- n) ++ c0 :: t0) ++ rest)
      with (48 :: 46 :: (zeros (- n) ++ c0 :: t0) ++ rest).
    cbn [parseInt]. change (48 =? 48) with true. cbv iota.
    rewrite parseFraction_digits; try assumption;
      [| intros Hnil; apply app_eq_nil in Hnil; destruct Hnil; discriminate
       | rewrite forallb_app, zeros_digits, Hds; reflexivity ].
    rewrite Hexp. f_equal. f_equal.
    change ([48] ++ zeros (- n) ++ c0 :: t0)
      with (48 :: (zeros (- n) ++ c0 :: t0)).
    change (48 :: (zeros (- n) ++ c0 :: t0))
      with ([48] ++ zeros (- n) ++ c0 :: t0).
    rewrite !digitsValue_app, digitsValue_zeros, Hv.
    change (digitsValue [48]) with 0. rewrite !N.mul_0_l, !N.add_0_l.
    f_equal. f_equal. rewrite length_app, length_zeros. cbn [List.length]. lia. }
  (* the exponent form *)
  clear F1 F2 F3.
  destruct t0 as [|c1 t1].
  - change ((c0 :: 101 :: (if (n - 1 <? 0)%Z then 45 else 43)
                :: digitsOf (Z.abs_N (n - 1))) ++ rest)
      with ([c0] ++ 101 :: (if (n - 1 <? 0)%Z then 45 else 43)
                :: digitsOf (Z.abs_N (n - 1)) ++ rest).
    rewrite parseInt_digits; try assumption; [|reflexivity].
    cbn [parseFraction]. change (101 =? 46) with false. cbv iota.
    rewrite (parseExponent_written (n - 1) rest Hnd).
    f_equal. f_equal. rewrite app_nil_r, Hv. f_equal. f_equal.
    cbn [List.length] in *. lia.
  - change ((c0 :: 46 :: (c1 :: t1)
                ++ 101 :: (if (n - 1 <? 0)%Z then 45 else 43)
                :: digitsOf (Z.abs_N (n - 1))) ++ rest)
      with ([c0] ++ 46 :: ((c1 :: t1)
                ++ 101 :: (if (n - 1 <? 0)%Z then 45 else 43)
                :: digitsOf (Z.abs_N (n - 1))) ++ rest).
    rewrite parseInt_digits; try assumption; [|reflexivity|reflexivity].
    rewrite <- app_assoc.
    rewrite parseFraction_digits; try assumption; [|discriminate|reflexivity].
    change ((101 :: (if (n - 1 <? 0)%Z then 45 else 43)
                :: digitsOf (Z.abs_N (n - 1))) ++ rest)
      with (101 :: (if (n - 1 <? 0)%Z then 45 else 43)
                :: digitsOf (Z.abs_N (n - 1)) ++ rest).
    rewrite (parseExponent_written (n - 1) rest Hnd).
    f_equal. f_equal.
    change ([c0] ++ c1 :: t1) with (c0 :: c1 :: t1). rewrite Hv. f_equal. f_equal.
    cbn [List.length] in *. lia.
Qed.

Lemma formatDecimal_head (c : N * Z) :
  exists h t, formatDecimal c = h :: t /\ isDigit h = true.
Proof.
  destruct c as [s d]. unfold formatDecimal. cbv zeta.
  destruct (digitsOf_head s) as (c0 & t0 & E & Hc0 & _). rewrite E.
  set (k := Z.of_nat (List.length (c0 :: t0))). set (n := (d + k)%Z).
  destruct ((k <=? n) && (n <=? 21))%Z; [now eexists _, _|].
  destruct ((0 <? n) && (n <=? 21))%Z eqn:F2.
  { apply andb_true_iff in F2. destruct F2 as [F2 _]. apply Z.ltb_lt in F2.
    destruct (Z.to_nat n) as [|n1] eqn:En; [lia|]. now eexists _, _. }
  destruct ((-6 <? n) && (n <=? 0))%Z; [now eexists _, _|].
  destruct t0; now eexists _, _.
Qed.

Lemma isDigit_isNumberChar (l : jsstring) :
  forallb isDigit l = true -> forallb isNumberChar l = true.
Proof.
  induction l as [|c l IH]; [reflexivity|]. cbn [forallb]. intros H.
  apply andb_true_iff in H. destruct H as [Hc Hl].
  unfold isNumberChar at 1. rewrite Hc, (IH Hl). reflexivity.
Qed.

Lemma formatDecimal_chars (c : N * Z) :
  forallb isNumberChar (formatDecimal c) = true.
Proof.
  destruct c as [s d]. unfold formatDecimal. cbv zeta.
  pose proof (isDigit_isNumberChar _ (digitsOf_digits s)) as Hds.
  set (ds := digitsOf s) in *.
  set (k := Z.of_nat (List.length ds)). set (n := (d + k)%Z).
  assert (Hz : forall j, forallb isNumberChar (zeros j) = true).
  { intros j. apply isDigit_isNumberChar, zeros_digits. }
  destruct ((k <=? n) && (n <=? 21))%Z.
  { now rewrite forallb_app, Hds, Hz. }
  destruct ((0 <? n) && (n <=? 21))%Z.
  { destruct (forallb_firstn_skipn isNumberChar (Z.to_nat n) ds Hds) as (H1 & H2).
    rewrite forallb_app. cbn [forallb]. now rewrite H1, H2. }
  destruct ((-6 <? n) && (n <=? 0))%Z.
  { cbn [forallb]. now rewrite forallb_app, Hds, Hz. }
  assert (He : forallb isNumberChar
                 (101 :: (if (n - 1 <? 0)%Z then 45 else 43)
                      :: digitsOf (Z.abs_N (n - 1))) = true).
  { cbn [forallb].
    rewrite (isDigit_isNumberChar _ (digitsOf_digits _)).
    now destruct (n - 1 <? 0)%Z. }
  destruct ds as [|c0 [|c1 t1]]; [exact He | |].
  - cbn [forallb] in Hds |- *. apply andb_true_iff in Hds.
    destruct Hds as [-> _]. exact He.
  - cbn [forallb] in Hds. apply andb_true_iff in Hds. destruct Hds as [H0 Hds].
    change (c0 :: 46 :: (c1 :: t1) ++ _)
      with ([c0; 46] ++ (c1 :: t1)
            ++ 101 :: (if (n - 1 <? 0)%Z then 45 else 43)
                   :: digitsOf (Z.abs_N (n - 1))).
    rewrite !forallb_app, He. cbn [forallb] in Hds |- *.
    now rewrite H0, Hds.
Qed.

Lemma isNumberChar_inv (c : N) :
  isNumberChar c = true ->
  c <> LF /\ isCodeUnit c = true /\ isJsonWs c = false.
Proof.
  unfold isNumberChar, isDigit. intros H.
  assert (Hc : 43 <= c <= 101).
  { repeat (apply orb_true_iff in H; destruct H as [H|H]);
      try (apply N.eqb_eq in H; subst c; lia).
    apply andb_true_iff in H. destruct H as [H1 H2].
    apply N.leb_le in H1, H2. lia. }
  unfold LF, isCodeUnit, isJsonWs. split; [lia|]. split.
  - apply N.ltb_lt. lia.
  - repeat (apply orb_false_iff; split); apply N.eqb_neq; lia.
Qed.

(** The characters of a finite number's text. *)
Lemma toString_chars (x : Number) :
  isFinite x = true -> forallb isNumberChar (toString x) = true.
Proof.
  destruct x as [| | |negative m e]; try discriminate; intros _.
  - reflexivity.
  - cbn [toString]. rewrite forallb_app, formatDecimal_chars.
    now destruct negative.
Qed.

Lemma toString_head (x : Number) :
  isFinite x = true ->
  exists c t, toString x = c :: t /\ (c = 45 \/ isDigit c = true).
Proof.
  destruct x as [| | |negative m e]; try discriminate; intros _.
  - eexists _, _. split; [reflexivity|]. now right.
  - cbn [toString].
    destruct (formatDecimal_head (shortest m e)) as (h & t & E & Hh).
    rewrite E. destruct negative.
    + eexists _, _. split; [reflexivity|]. now left.
    + eexists _, _. split; [reflexivity|]. now right.
Qed.

(** [Number::toString] writes a text that is read back as the number,
    but for the sign of a zero. *)
Lemma parseNumber_toString (x : Number) (rest : jsstring) :
  isFinite x = true -> isDouble x = true -> delimited rest = true ->
  parseNumber (toString x ++ rest) = Some (unsigned x, rest).
Proof.
  destruct x as [| | |negative m e]; try discriminate; intros _ Hd Hrest.
  - destruct (delimited_inv rest Hrest) as (_ & Hfrac & Hexp).
    change (toString (Zero negative) ++ rest) with (48 :: rest).
    unfold parseNumber. cbn [parseMinus]. change (48 =? 45) with false.
    cbv iota. unfold parseUnsigned. cbn [parseInt].
    change (48 =? 48) with true. cbv iota. rewrite Hfrac, Hexp.
    reflexivity.
  - assert (Hd' : isDouble (Finite false m e) = true).
    { rewrite isDouble_Finite in *. exact Hd. }
    destruct (shortest_spec m e Hd') as (Hround & Hnormal).
    cbn [toString unsigned].
    destruct (shortest m e) as [s d].
    pose proof (parseUnsigned_formatDecimal negative s d rest Hnormal Hrest)
      as Hparse.
    rewrite (roundDecimal_sign negative _ _ _ Hround) in Hparse.
    destruct (formatDecimal_head (s, d)) as (h & t & E & Hh).
    unfold parseNumber. destruct negative.
    + change (([45] ++ formatDecimal (s, d)) ++ rest)
        with (45 :: formatDecimal (s, d) ++ rest).
      cbn [parseMinus]. change (45 =? 45) with true. cbv iota. exact Hparse.
    + change (([] ++ formatDecimal (s, d)) ++ rest)
        with (formatDecimal (s, d) ++ rest).
      rewrite E in *. cbn [app parseMinus] in *.
      destruct (N.eqb_spec h 45) as [->|_]; [discriminate|]. exact Hparse.
Qed.

End NumberFacts.

(** ** Strings and serialisation *)

Module JSStrFacts.
Import JSStr.
Local Open Scope N_scope.

Lemma eqb_eq (a b : jsstring) : eqb a b = true <-> a = b.
Proof.
  revert b; induction a as [|x a IH]; intros [|y b]; simpl; split;
    try congruence; try reflexivity.
  - rewrite andb_true_iff, N.eqb_eq, IH. intros [-> ->]; reflexivity.
  - intros E; injection E as -> ->. now rewrite N.eqb_refl, (proj2 (IH b)).
Qed.

Lemma eqb_refl (a : jsstring) : eqb a a = true.
Proof. now apply eqb_eq. Qed.

Lemma trimStart_head (c : N) (s : jsstring) :
  isWhiteSpace c = false -> trimStart (c :: s) = c :: s.
Proof. intros H. simpl. now rewrite H. Qed.

Lemma trimEnd_last (s : jsstring) (c : N) :
  isWhiteSpace c = false -> trimEnd (s ++ [c]) = s ++ [c].
Proof.
  intros H. unfold trimEnd. rewrite rev_app_distr.
  change (rev [c] ++ rev s) with (c :: rev s).
  rewrite trimStart_head by assumption.
  change (c :: rev s) with (rev [c] ++ rev s).
  now rewrite <- rev_app_distr, rev_involutive.
Qed.

(** A chunk that neither starts nor ends with white space is its own trim. *)
Lemma trim_id (c : N) (s : jsstring) (d : N) :
  isWhiteSpace c = false -> isWhiteSpace d = false ->
  trim (c :: s ++ [d]) = c :: s ++ [d].
Proof.
  intros Hc Hd. unfold trim. rewrite trimStart_head by assumption.
  change (c :: s ++ [d]) with ((c :: s) ++ [d]). now apply trimEnd_last.
Qed.

Lemma stripPrefix_app (p s : jsstring) : stripPrefix p (p ++ s) = Some s.
Proof. induction p as [|x p IH]; simpl; [reflexivity|]. now rewrite N.eqb_refl. Qed.

(** Text without a line feed, then a blank line: the cut is exactly there. *)
Lemma cutAtBlankLine_first (pre post : jsstring) :
  Forall (fun c => c <> LF) pre ->
  cutAtBlankLine (pre ++ LF :: LF :: post) = Some (pre, post).
Proof.
  induction 1 as [|c pre Hc Hpre IH]; [reflexivity|].
  change ((c :: pre) ++ LF :: LF :: post) with (c :: (pre ++ LF :: LF :: post)).
  cbv beta iota delta [cutAtBlankLine]; fold cutAtBlankLine.
  rewrite IH.
  destruct (pre ++ LF :: LF :: post) as [|d r'] eqn:E.
  - destruct pre; discriminate.
  - replace (c =? LF) with false by (symmetry; now apply N.eqb_neq).
    reflexivity.
Qed.

Lemma countBlankLines_noLF (s : jsstring) (t : jsstring) :
  Forall (fun c => c <> LF) s ->
  countBlankLines (s ++ t) = countBlankLines t.
Proof.
  induction 1 as [|c s Hc Hs IH]; [reflexivity|].
  change ((c :: s) ++ t) with (c :: (s ++ t)).
  cbv beta iota delta [countBlankLines]; fold countBlankLines.
  rewrite IH.
  replace (c =? LF) with false by (symmetry; now apply N.eqb_neq).
  destruct (s ++ t); reflexivity.
Qed.

End JSStrFacts.

Module JSONFacts.
Import JSStr JSON JSStrFacts.
Local Open Scope N_scope.

(** *** Strings *)

Lemma hexValue_hexDigit (d : N) : d < 16 -> hexValue (hexDigit d) = Some d.
Proof.
  intros H. unfold hexDigit, hexValue.
  destruct (N.ltb_spec d 10).
  - replace ((48 <=? 48 + d) && (48 + d <=? 57)) with true.
    + f_equal; lia.
    + symmetry; apply andb_true_iff; split; apply N.leb_le; lia.
  - replace ((48 <=? 87 + d) && (87 + d <=? 57)) with false.
    + replace ((97 <=? 87 + d) && (87 + d <=? 102)) with true.
      * f_equal; lia.
      * symmetry; apply andb_true_iff; split; apply N.leb_le; lia.
    + symmetry; apply andb_false_iff; right; apply N.leb_gt; lia.
Qed.

Lemma hex_digits_value (c : N) :
  c < 65536 ->
  4096 * ((c / 4096) mod 16) + 256 * ((c / 256) mod 16)
  + 16 * ((c / 16) mod 16) + c mod 16 = c.
Proof.
  intros H.
  assert (E1 : c / 256 = c / 16 / 16) by (now rewrite N.Div0.div_div).
  assert (E2 : c / 4096 = c / 256 / 16) by (now rewrite N.Div0.div_div).
  assert (H3 : c / 4096 < 16) by (apply N.Div0.div_lt_upper_bound; exact H).
  rewrite (N.mod_small (c / 4096) 16) by exact H3.
  pose proof (N.div_mod c 16 ltac:(discriminate)) as D0.
  pose proof (N.div_mod (c / 16) 16 ltac:(discriminate)) as D1.
  pose proof (N.div_mod (c / 256) 16 ltac:(discriminate)) as D2.
  rewrite <- E1 in D1. rewrite <- E2 in D2. lia.
Qed.

Lemma parse_unicodeEscape (c : N) (rest : jsstring) :
  c < 65536 ->
  parseStringBody (unicodeEscape c ++ rest) = consResult c (parseStringBody rest).
Proof.
  intros H. unfold unicodeEscape.
  cbn [app]. cbv beta iota delta [parseStringBody]; fold parseStringBody.
  change (92 =? 34) with false. change (92 =? 92) with true.
  change (117 =? 117) with true. cbv iota.
  rewrite !hexValue_hexDigit by (apply N.mod_lt; discriminate).
  rewrite hex_digits_value by assumption. reflexivity.
Qed.

(** A unit that the grammar reads as itself. *)
Lemma parse_literal (c : N) (rest : jsstring) :
  c <> 34 -> c <> 92 -> 32 <= c ->
  parseStringBody (c :: rest) = consResult c (parseStringBody rest).
Proof.
  intros H1 H2 H3. cbv beta iota delta [parseStringBody]; fold parseStringBody.
  replace (c =? 34) with false by (symmetry; now apply N.eqb_neq).
  replace (c =? 92) with false by (symmetry; now apply N.eqb_neq).
  replace (c <? 32) with false by (symmetry; now apply N.ltb_ge).
  reflexivity.
Qed.

Lemma parse_quoteUnit (c : N) (rest : jsstring) :
  c < 65536 ->
  parseStringBody (quoteUnit c ++ rest) = consResult c (parseStringBody rest).
Proof.
  intros H. unfold quoteUnit.
  repeat match goal with
  | |- context [if ?c =? ?k then _ else _] =>
      destruct (N.eqb_spec c k) as [->|?]; [reflexivity|]
  end.
  destruct ((c <? 32) || isHighSurrogate c || isLowSurrogate c) eqn:E.
  - now apply parse_unicodeEscape.
  - apply orb_false_iff in E as [E _]. apply orb_false_iff in E as [E _].
    apply N.ltb_ge in E. now apply parse_literal.
Qed.

Lemma surrogate_literal (c : N) :
  isHighSurrogate c = true \/ isLowSurrogate c = true ->
  c <> 34 /\ c <> 92 /\ 32 <= c.
Proof.
  unfold isHighSurrogate, isLowSurrogate.
  rewrite !andb_true_iff, !N.leb_le. lia.
Qed.

(** Lists, two elements at a time. *)
Lemma list_pair_ind (A : Type) (P : list A -> Prop) :
  P [] ->
  (forall a, P [a]) ->
  (forall a b l, P l -> P (b :: l) -> P (a :: b :: l)) ->
  forall l, P l.
Proof.
  intros H0 H1 H2 l.
  enough (P l /\ forall a, P (a :: l)) by tauto.
  induction l as [|b l [IH1 IH2]]; split; auto.
Qed.

Lemma quoteBody_cons2 (c d : N) (r : jsstring) :
  quoteBody (c :: d :: r) =
  if isHighSurrogate c && isLowSurrogate d
  then c :: d :: quoteBody r
  else quoteUnit c ++ quoteBody (d :: r).
Proof. reflexivity. Qed.

(** [QuoteJSONString] is undone by the string grammar. *)
Lemma parse_quoteBody (s rest : jsstring) :
  wfString s = true ->
  parseStringBody (quoteBody s ++ 34 :: rest) = Some (s, rest).
Proof.
  revert s. apply (@list_pair_ind N (fun s => wfString s = true ->
    parseStringBody (quoteBody s ++ 34 :: rest) = Some (s, rest))).
  - reflexivity.
  - intros a Ha. simpl in Ha. rewrite andb_true_r in Ha. apply N.ltb_lt in Ha.
    change (quoteBody [a]) with (quoteUnit a).
    rewrite parse_quoteUnit by assumption. reflexivity.
  - intros a b l IHl IHbl Hwf.
    change (wfString (a :: b :: l)) with
      (isCodeUnit a && (isCodeUnit b && wfString l)) in Hwf.
    apply andb_true_iff in Hwf as [Ha Hwf].
    rewrite quoteBody_cons2.
    destruct (isHighSurrogate a && isLowSurrogate b) eqn:E.
    + apply andb_true_iff in E as [Ea Eb].
      apply andb_true_iff in Hwf as [_ Hl].
      destruct (surrogate_literal a (or_introl Ea)) as (? & ? & ?).
      destruct (surrogate_literal b (or_intror Eb)) as (? & ? & ?).
      change ((a :: b :: quoteBody l) ++ 34 :: rest)
        with (a :: b :: (quoteBody l ++ 34 :: rest)).
      rewrite parse_literal by assumption.
      rewrite parse_literal by assumption.
      rewrite IHl by assumption. reflexivity.
    + rewrite <- app_assoc. apply N.ltb_lt in Ha.
      rewrite parse_quoteUnit by assumption.
      rewrite IHbl by exact Hwf. reflexivity.
Qed.

Lemma parse_quote (s rest : jsstring) :
  wfString s = true ->
  parseStringBody (quoteBody s ++ [34] ++ rest) = Some (s, rest).
Proof. apply parse_quoteBody. Qed.

(** *** No line feed in what [stringify] writes *)

Lemma noLF_app (a b : jsstring) : noLF a -> noLF b -> noLF (a ++ b).
Proof. intros; apply Forall_app; auto. Qed.

Lemma noLF_js_literal (s : jsstring) :
  forallb (fun c => negb (c =? LF)) s = true -> noLF s.
Proof.
  intros H. apply Forall_forall. intros c Hc.
  rewrite forallb_forall in H. specialize (H c Hc).
  apply negb_true_iff in H. now apply N.eqb_neq.
Qed.

Lemma hexDigit_noLF (d : N) : hexDigit d <> LF.
Proof. unfold hexDigit, LF. destruct (d <? 10); lia. Qed.

Lemma quoteUnit_noLF (c : N) : noLF (quoteUnit c).
Proof.
  unfold quoteUnit.
  repeat match goal with
  | |- context [if ?c =? ?k then _ else _] =>
      destruct (N.eqb_spec c k) as [->|?];
      [apply noLF_js_literal; reflexivity|]
  end.
  destruct ((c <? 32) || isHighSurrogate c || isLowSurrogate c).
  - unfold unicodeEscape.
    repeat (constructor; [first [apply hexDigit_noLF | discriminate]|]).
    constructor.
  - constructor; [assumption | constructor].
Qed.

Lemma quoteBody_noLF (s : jsstring) : noLF (quoteBody s).
Proof.
  revert s. apply (@list_pair_ind N (fun s => noLF (quoteBody s))).
  - constructor.
  - intros a. apply quoteUnit_noLF.
  - intros a b l IHl IHbl. rewrite quoteBody_cons2.
    destruct (isHighSurrogate a && isLowSurrogate b) eqn:E.
    + apply andb_true_iff in E as [Ea Eb].
      unfold isHighSurrogate, isLowSurrogate in Ea, Eb.
      apply andb_true_iff in Ea as [Ea _]. apply andb_true_iff in Eb as [Eb _].
      apply N.leb_le in Ea, Eb.
      constructor; [unfold LF; lia|]. constructor; [unfold LF; lia|]. exact IHl.
    + apply noLF_app; [apply quoteUnit_noLF | exact IHbl].
Qed.

Lemma quote_noLF (s : jsstring) : noLF (quote s).
Proof.
  unfold quote. constructor; [discriminate|].
  apply noLF_app; [apply quoteBody_noLF|].
  constructor; [discriminate | constructor].
Qed.

Lemma toString_noLF (x : Number) : isFinite x = true -> noLF (toString x).
Proof.
  intros H. apply Forall_forall. intros c Hc.
  pose proof (NumberFacts.toString_chars x H) as Hall.
  rewrite forallb_forall in Hall.
  apply (NumberFacts.isNumberChar_inv c (Hall c Hc)).
Qed.

Lemma join_noLF (parts : list jsstring) :
  Forall noLF parts -> noLF (join [44] parts).
Proof.
  induction 1 as [|p parts Hp Hparts IH]; [constructor|].
  destruct parts as [|q parts']; [exact Hp|].
  change (join [44] (p :: q :: parts')) with (p ++ [44] ++ join [44] (q :: parts')).
  apply noLF_app; [exact Hp|].
  apply noLF_app; [|exact IH].
  constructor; [discriminate | constructor].
Qed.

(** The serialisation of any value is free of line feeds. *)
Lemma stringify_noLF (v : JSValue) :
  forall t, stringify v = Some t -> noLF t.
Proof.
  induction v using JSValue_ind; intros t Ht; cbn [stringify] in Ht;
    try discriminate; injection Ht as <-.
  - apply noLF_js_literal; reflexivity.
  - destruct b; apply noLF_js_literal; reflexivity.
  - destruct (isFinite x) eqn:Hx;
      [now apply toString_noLF | apply noLF_js_literal; reflexivity].
  - apply quote_noLF.
  - constructor; [discriminate|]. apply noLF_app.
    + apply join_noLF. apply Forall_map.
      eapply Forall_impl; [|exact H].
      intros e He. cbv beta. destruct (stringify e) as [t|] eqn:E.
      * exact (He t E).
      * apply noLF_js_literal; reflexivity.
    + constructor; [discriminate | constructor].
  - constructor; [discriminate|]. apply noLF_app.
    + apply join_noLF. apply Forall_flat_map.
      eapply Forall_impl; [|exact H].
      intros p Hp. cbv beta. destruct (stringify (snd p)) as [t|] eqn:E.
      * constructor; [|constructor].
        apply (noLF_app (quote (fst p)) (58 :: t)); [apply quote_noLF|].
        constructor; [discriminate|]. exact (Hp t E).
      * constructor.
    + constructor; [discriminate | constructor].
Qed.

End JSONFacts.

(** ** Reading back what [stringify] wrote *)

Module JSONRoundTrip.
Import JSStr JSON JSStrFacts JSONFacts NumberFacts.
Local Open Scope N_scope.

(** *** Values *)

Lemma stringify_json (v : JSValue) :
  isJson v = true -> stringify v = Some (render v).
Proof. destruct v; intros H; try discriminate; reflexivity. Qed.

Lemma render_number (x : Number) :
  isJson (JSNumber x) = true -> render (JSNumber x) = toString x.
Proof.
  cbn [isJson]. intros H. apply andb_true_iff in H. destruct H as [H _].
  unfold render. cbn [stringify]. now rewrite H.
Qed.

Lemma isDigit_start (c : N) :
  c = 45 \/ isDigit c = true ->
  isJsonWs c = false /\ (c =? 123) = false /\ (c =? 91) = false
  /\ (c =? 34) = false /\ (c =? 116) = false /\ (c =? 102) = false
  /\ (c =? 110) = false /\ c <> 93.
Proof.
  intros H.
  assert (Hc : 45 <= c <= 57).
  { destruct H as [->|H]; [lia|]. unfold isDigit in H.
    apply andb_true_iff in H. destruct H as [H1 H2].
    apply N.leb_le in H1, H2. lia. }
  unfold isJsonWs.
  repeat split; try (apply N.eqb_neq; lia); try lia.
  repeat (apply orb_false_iff; split); apply N.eqb_neq; lia.
Qed.

Lemma render_array (elems : list JSValue) :
  render (JSArray elems) = 91 :: join [44] (List.map render elems) ++ [93].
Proof. reflexivity. Qed.

Lemma render_object (props : list (jsstring * JSValue)) :
  forallb (fun p => wfString (fst p) && isJson (snd p)) props = true ->
  render (JSObject props) = 123 :: join [44] (List.map memberText props) ++ [125].
Proof.
  intros H. unfold render at 1. cbn [stringify]. do 3 f_equal.
  induction props as [|p props IH]; [reflexivity|].
  cbn [forallb] in H. apply andb_true_iff in H as [Hp H].
  apply andb_true_iff in Hp as [_ Hp].
  cbn [flat_map List.map]. rewrite (stringify_json _ Hp).
  unfold memberText at 1. unfold render at 2. rewrite (stringify_json _ Hp).
  cbn [app]. f_equal. now apply IH.
Qed.

Lemma render_head (v : JSValue) :
  isJson v = true -> exists c t, render v = c :: t /\ valueStart c.
Proof.
  destruct v as [| |b|x|s|elems|props]; intros H; try discriminate.
  - eexists _, _; split; [reflexivity|]. now split.
  - destruct b; (eexists _, _; split; [reflexivity|]; now split).
  - rewrite (render_number x H). cbn [isJson] in H.
    apply andb_true_iff in H. destruct H as [Hfin _].
    destruct (toString_head x Hfin) as (c & t & E & Hc).
    exists c, t. split; [exact E|].
    destruct (isDigit_start c Hc) as (Hws & _ & _ & _ & _ & _ & _ & H93).
    now split.
  - eexists _, _; split; [reflexivity|]. now split.
  - eexists _, _; split; [reflexivity|]. now split.
  - eexists _, _; split; [reflexivity|]. now split.
Qed.

Lemma skipWs_start (c : N) (s : jsstring) :
  isJsonWs c = false -> skipWs (c :: s) = c :: s.
Proof. intros H. simpl. now rewrite H. Qed.

Lemma length_join_cons (p q : jsstring) (parts : list jsstring) :
  List.length (join [44] (p :: q :: parts)) =
  S (Nat.add (List.length p) (List.length (join [44] (q :: parts)))).
Proof.
  change (join [44] (p :: q :: parts)) with (p ++ [44] ++ join [44] (q :: parts)).
  rewrite !length_app. simpl. lia.
Qed.

Lemma parseElements_join (elems : list JSValue) :
  elems <> [] ->
  Forall readsBack elems ->
  forall fuel rest,
    lt (List.length (join [44] (List.map render elems))) fuel ->
    parseElements fuel (join [44] (List.map render elems) ++ 93 :: rest)
    = Some (List.map unsignZero elems, rest).
Proof.
  intros Hne Hall. induction Hall as [|e es He Hes IH]; [congruence|].
  intros fuel rest Hfuel. destruct fuel as [|fuel]; [lia|].
  destruct es as [|e' es'].
  - cbn [List.map join] in *.
    cbn [parseElements]. rewrite (He fuel (93 :: rest)) by (try lia; reflexivity).
    reflexivity.
  - cbn [List.map] in *. rewrite length_join_cons in Hfuel.
    change (join [44] (render e :: render e' :: List.map render es'))
      with (render e ++ [44] ++ join [44] (render e' :: List.map render es')).
    rewrite <- !app_assoc.
    cbn [parseElements].
    rewrite (He fuel) by (try lia; reflexivity).
    cbn [app skipWs isJsonWs N.eqb Pos.eqb orb].
    rewrite IH by (try discriminate; lia). reflexivity.
Qed.

Lemma length_memberText (p : jsstring * JSValue) :
  (List.length (render (snd p)) + 3 <= List.length (memberText p))%nat.
Proof.
  unfold memberText, quote. cbn [List.length]. rewrite !length_app.
  cbn [List.length]. rewrite length_app. cbn [List.length]. lia.
Qed.

Lemma parseMembers_join (props : list (jsstring * JSValue)) :
  props <> [] ->
  Forall (fun p => wfString (fst p) = true /\ readsBack (snd p)) props ->
  forall fuel rest,
    lt (List.length (join [44] (List.map memberText props))) fuel ->
    parseMembers fuel (join [44] (List.map memberText props) ++ 125 :: rest)
    = Some (List.map (fun p => (fst p, unsignZero (snd p))) props, rest).
Proof.
  intros Hne Hall. induction Hall as [|[k v] ps [Hk Hv] Hps IH]; [congruence|].
  intros fuel rest Hfuel. destruct fuel as [|fuel]; [lia|].
  cbn [fst snd] in *.
  pose proof (length_memberText (k, v)) as Hlen. cbn [snd] in Hlen.
  destruct ps as [|p' ps'].
  - cbn [List.map join] in *.
    unfold memberText, quote. cbn [fst snd].
    cbn [parseMembers app skipWs isJsonWs N.eqb Pos.eqb orb].
    rewrite <- !app_assoc. rewrite parse_quote by assumption.
    cbn [skipWs isJsonWs N.eqb Pos.eqb orb app].
    rewrite (Hv fuel (125 :: rest)) by (try lia; reflexivity).
    reflexivity.
  - cbn [List.map] in *. rewrite length_join_cons in Hfuel.
    change (join [44] (memberText (k, v) :: memberText p' :: List.map memberText ps'))
      with (memberText (k, v) ++ [44]
            ++ join [44] (memberText p' :: List.map memberText ps')).
    unfold memberText at 1, quote. cbn [fst snd].
    cbn [parseMembers app skipWs isJsonWs N.eqb Pos.eqb orb].
    rewrite <- !app_assoc. rewrite parse_quote by assumption.
    cbn [skipWs isJsonWs N.eqb Pos.eqb orb app].
    rewrite (Hv fuel) by (try lia; reflexivity).
    cbn [app skipWs isJsonWs N.eqb Pos.eqb orb].
    rewrite IH by (try discriminate; lia). reflexivity.
Qed.

(** Properties with distinct names are put back as they were written. *)
Lemma setProp_fresh (k : jsstring) (v : JSValue) (acc : list (jsstring * JSValue)) :
  includes (List.map fst acc) k = false -> setProp k v acc = acc ++ [(k, v)].
Proof.
  induction acc as [|[k' v'] acc IH]; [reflexivity|].
  unfold includes. cbn [List.map fst existsb setProp].
  intros H. apply orb_false_iff in H as [H1 H2].
  rewrite H1. cbn [app]. f_equal. now apply IH.
Qed.

Lemma includes_app (a b : list jsstring) (x : jsstring) :
  includes (a ++ b) x = includes a x || includes b x.
Proof. unfold includes. apply existsb_app. Qed.

Lemma buildObject_distinct_acc (members acc : list (jsstring * JSValue)) :
  distinct (List.map fst (acc ++ members)) = true ->
  fold_left (fun a m => setProp (fst m) (snd m) a) members acc = acc ++ members.
Proof.
  revert acc. induction members as [|[k v] ms IH]; intros acc H.
  - now rewrite List.app_nil_r.
  - cbn [fold_left fst snd].
    assert (Hk : includes (List.map fst acc) k = false).
    { clear IH. induction acc as [|[k' v'] acc IHacc]; [reflexivity|].
      cbn [app List.map fst distinct] in H.
      apply andb_true_iff in H as [H1 H2].
      unfold includes. cbn [List.map fst existsb].
      apply orb_false_iff. split.
      - apply negb_true_iff in H1. rewrite map_app, includes_app in H1.
        apply orb_false_iff in H1 as [_ H1].
        unfold includes in H1. cbn [List.map fst existsb] in H1.
        apply orb_false_iff in H1 as [H1 _].
        destruct (eqb k k') eqn:E; [|reflexivity].
        apply eqb_eq in E; subst k'. now rewrite eqb_refl in H1.
      - now apply IHacc. }
    rewrite setProp_fresh by assumption.
    rewrite IH; rewrite <- app_assoc; [reflexivity | exact H].
Qed.

Lemma buildObject_distinct (props : list (jsstring * JSValue)) :
  distinct (List.map fst props) = true -> buildObject props = JSObject props.
Proof.
  intros H. unfold buildObject. f_equal.
  now rewrite buildObject_distinct_acc.
Qed.

(** Every JSON value is read back from its serialisation. *)
Lemma parseValue_render (v : JSValue) : isJson v = true -> readsBack v.
Proof.
  induction v as [| |b|x|s|elems IH|props IH] using JSValue_ind;
    intros Hjson fuel rest Hfuel Hrest; try discriminate.
  - destruct fuel as [|fuel]; [simpl in Hfuel; lia|]. reflexivity.
  - destruct fuel as [|fuel]; [destruct b; simpl in Hfuel; lia|].
    destruct b; reflexivity.
  - pose proof Hjson as Hx. cbn [isJson] in Hx.
    apply andb_true_iff in Hx. destruct Hx as [Hfin Hdbl].
    rewrite (render_number x Hjson) in *.
    pose proof (parseNumber_toString x rest Hfin Hdbl Hrest) as Hnum.
    destruct (toString_head x Hfin) as (c & t & E & Hc).
    destruct fuel as [|fuel]; [rewrite E in Hfuel; cbn [List.length] in Hfuel; lia|].
    cbn [parseValue unsignZero]. rewrite E in *. cbn [app] in *.
    destruct (isDigit_start c Hc) as (Hws & H1 & H2 & H3 & H4 & H5 & H6 & _).
    rewrite skipWs_start by assumption.
    rewrite H1, H2, H3, H4, H5, H6. now rewrite Hnum.
  - destruct fuel as [|fuel]; [simpl in Hfuel; lia|].
    change (render (JSString s)) with (quote s). unfold quote.
    cbn [parseValue app skipWs isJsonWs N.eqb Pos.eqb orb].
    rewrite <- app_assoc. rewrite parse_quote by exact Hjson. reflexivity.
  - rewrite render_array in *.
    destruct fuel as [|fuel]; [simpl in Hfuel; lia|].
    cbn [List.length] in Hfuel. rewrite length_app in Hfuel.
    cbn [List.length] in Hfuel.
    cbn [isJson] in Hjson.
    destruct elems as [|e es].
    + reflexivity.
    + assert (Hall : Forall readsBack (e :: es)).
      { rewrite forallb_forall in Hjson. rewrite Forall_forall in IH |- *.
        intros x Hx. apply IH; auto. }
      assert (He : isJson e = true) by (cbn [forallb] in Hjson;
        now apply andb_true_iff in Hjson as [? _]).
      destruct (render_head e He) as (c & t & E & Hws & H93).
      pose proof (parseElements_join (e :: es) ltac:(discriminate) Hall
                    fuel rest ltac:(lia)) as Hparse.
      cbn [parseValue app skipWs isJsonWs N.eqb Pos.eqb orb].
      rewrite <- app_assoc. cbn [app].
      assert (Hstart : exists u, join [44] (List.map render (e :: es)) ++ 93 :: rest
                                 = c :: u).
      { cbn [List.map]. destruct (List.map render es) as [|q qs].
        - cbn [join]. rewrite E. now eexists.
        - change (join [44] (render e :: q :: qs))
            with (render e ++ [44] ++ join [44] (q :: qs)).
          rewrite E. now eexists. }
      destruct Hstart as (u & Hu). rewrite Hu in *.
      rewrite skipWs_start by assumption.
      destruct (N.eqb_spec c 93) as [->|_]; [now elim H93|].
      destruct c as [|q]; [now rewrite Hparse|].
      repeat (destruct q as [q|q|]; try (now rewrite Hparse); try (now elim H93)).
  - cbn [isJson] in Hjson. apply andb_true_iff in Hjson as [Hprops Hdist].
    rewrite (render_object _ Hprops) in *.
    destruct fuel as [|fuel]; [simpl in Hfuel; lia|].
    cbn [List.length] in Hfuel. rewrite length_app in Hfuel.
    cbn [List.length] in Hfuel.
    destruct props as [|p ps].
    + reflexivity.
    + assert (Hall : Forall (fun p => wfString (fst p) = true /\ readsBack (snd p))
                            (p :: ps)).
      { rewrite forallb_forall in Hprops. rewrite Forall_forall in IH |- *.
        intros x Hx. specialize (Hprops x Hx).
        apply andb_true_iff in Hprops as [? ?]. split; [assumption|].
        apply IH; auto. }
      pose proof (parseMembers_join (p :: ps) ltac:(discriminate) Hall
                    fuel rest ltac:(lia)) as Hparse.
      cbn [parseValue app skipWs isJsonWs N.eqb Pos.eqb orb].
      rewrite <- app_assoc. cbn [app].
      assert (Hstart : exists u, join [44] (List.map memberText (p :: ps))
                                   ++ 125 :: rest = 34 :: u).
      { cbn [List.map]. destruct (List.map memberText ps) as [|q qs].
        - cbn [join]. unfold memberText, quote. now eexists.
        - change (join [44] (memberText p :: q :: qs))
            with (memberText p ++ [44] ++ join [44] (q :: qs)).
          unfold memberText, quote. now eexists. }
      destruct Hstart as (u & Hu). rewrite Hu in *.
      cbn [skipWs isJsonWs N.eqb Pos.eqb orb].
      rewrite Hparse. rewrite buildObject_distinct; [reflexivity|].
      rewrite map_map. cbn [fst]. exact Hdist.
Qed.

Lemma unsignZero_id (v : JSValue) : noNegativeZero v = true -> unsignZero v = v.
Proof.
  induction v as [| |b|x|s|elems IH|props IH] using JSValue_ind;
    intros H; try reflexivity.
  - destruct x as [| |[|]|]; try reflexivity. discriminate.
  - cbn [noNegativeZero unsignZero] in *. f_equal.
    rewrite forallb_forall in H. rewrite Forall_forall in IH.
    rewrite <- (map_id elems) at 2. apply map_ext_in.
    intros e He. apply IH; auto.
  - cbn [noNegativeZero unsignZero] in *. f_equal.
    rewrite forallb_forall in H. rewrite Forall_forall in IH.
    rewrite <- (map_id props) at 2. apply map_ext_in.
    intros [k w] Hp. cbn [fst snd]. f_equal.
    apply (IH (k, w) Hp). exact (H (k, w) Hp).
Qed.

(** [JSON.parse(JSON.stringify(v))] is [v] for every JSON value, but for
    the sign of a zero. *)
Lemma parse_stringify (v : JSValue) (t : jsstring) :
  isJson v = true -> stringify v = Some t -> parse t = Some (unsignZero v).
Proof.
  intros Hjson Ht. rewrite (stringify_json _ Hjson) in Ht. injection Ht as <-.
  unfold parse.
  pose proof (parseValue_render v Hjson (S (List.length (render v))) []
                ltac:(lia) eq_refl) as H.
  rewrite List.app_nil_r in H. now rewrite H.
Qed.

End JSONRoundTrip.

(** ** Frames *)

Module SseFacts.
Import JSStr JSON Sse JSStrFacts JSONFacts JSONRoundTrip.
Local Open Scope N_scope.

(** An event is an object literal: its text is braces around a body. *)
Lemma stringify_toJS (e : GeminiSSEEvent) :
  exists body, stringify (toJS e) = Some (123 :: body ++ [125]).
Proof.
  destruct e as [|payload|reason|[message|]|error]; cbn [toJS stringify];
    eexists; reflexivity.
Qed.

Lemma sseEvent_toJS (e : GeminiSSEEvent) :
  exists body,
    stringify (toJS e) = Some (123 :: body ++ [125]) /\
    sseEvent (toJS e) = (js "data: " ++ 123 :: body ++ [125]) ++ [LF; LF] /\
    noLF (js "data: " ++ 123 :: body ++ [125]).
Proof.
  destruct (stringify_toJS e) as (body & E). exists body.
  split; [exact E|]. split.
  - unfold sseEvent. rewrite E. cbn [interpolate]. now rewrite <- app_assoc.
  - apply noLF_app; [apply noLF_js_literal; reflexivity|].
    exact (stringify_noLF (toJS e) _ E).
Qed.

Lemma isJson_toJS (e : GeminiSSEEvent) :
  isWireEvent e = true -> isJson (toJS e) = true.
Proof.
  destruct e as [|payload|reason|[message|]|error]; cbn [isWireEvent toJS];
    intros H; cbn [isJson forallb fst snd List.map]; rewrite ?H; reflexivity.
Qed.

(** C8: the frame of every event is a body without line feed followed by
    two line feeds, so the blank line occurs once, at the end. *)
Theorem sseEvent_single_blank_line (e : GeminiSSEEvent) :
  exists body,
    sseEvent (toJS e) = body ++ [LF; LF] /\
    Forall (fun c => c <> LF) body /\
    countBlankLines (sseEvent (toJS e)) = 1%nat.
Proof.
  destruct (sseEvent_toJS e) as (body & _ & E & Hno).
  exists (js "data: " ++ 123 :: body ++ [125]). split; [exact E|].
  split; [exact Hno|].
  rewrite E. now rewrite countBlankLines_noLF.
Qed.

(** One frame at the head of the buffer is one event read. *)
Lemma readFrames_frame (e : GeminiSSEEvent) (rest : jsstring) (fuel : nat) :
  isWireEvent e = true ->
  readFrames (S fuel) (sseEvent (toJS e) ++ rest)
  = unsignZero (toJS e) :: readFrames fuel rest.
Proof.
  intros Hwire.
  destruct (sseEvent_toJS e) as (body & Hs & E & Hno).
  rewrite E.
  replace (((js "data: " ++ 123 :: body ++ [125]) ++ [LF; LF]) ++ rest)
    with ((js "data: " ++ 123 :: body ++ [125]) ++ LF :: LF :: rest)
    by (exact (app_assoc _ [LF; LF] rest)).
  cbn [readFrames].
  rewrite (cutAtBlankLine_first _ rest Hno).
  change (js "data: " ++ 123 :: body ++ [125])
    with (100 :: (js "ata: " ++ 123 :: body) ++ [125]).
  rewrite trim_id by reflexivity.
  change (100 :: (js "ata: " ++ 123 :: body) ++ [125])
    with (js "data:" ++ 32 :: 123 :: body ++ [125]).
  rewrite stripPrefix_app.
  change (trimStart (32 :: 123 :: body ++ [125])) with (123 :: body ++ [125]).
  now rewrite (parse_stringify (toJS e) _ (isJson_toJS e Hwire) Hs).
Qed.

Lemma readFrames_nil (fuel : nat) : readFrames fuel [] = [].
Proof. destruct fuel; reflexivity. Qed.

(** C7, amended: the frame of an event of the wire contract, whatever
    JSON values it carries, read by [readSSE], gives back the event's
    value with every negative zero replaced by zero: the event's value
    itself when no number in it is negative zero. *)
Theorem sseEvent_readSSE (e : GeminiSSEEvent) :
  isWireEvent e = true ->
  readSSE (sseEvent (toJS e)) = [unsignZero (toJS e)]
  /\ (noNegativeZero (toJS e) = true ->
      readSSE (sseEvent (toJS e)) = [toJS e]).
Proof.
  intros Hwire.
  assert (H : readSSE (sseEvent (toJS e)) = [unsignZero (toJS e)]).
  { unfold readSSE.
    destruct (List.length (sseEvent (toJS e))) as [|fuel] eqn:Hlen;
      [unfold sseEvent in Hlen; rewrite !length_app in Hlen;
       cbn [List.length] in Hlen; lia|].
    rewrite <- (app_nil_r (sseEvent (toJS e))).
    rewrite readFrames_frame by exact Hwire.
    now rewrite readFrames_nil. }
  split; [exact H|].
  intros Hz. rewrite H. now rewrite (unsignZero_id _ Hz).
Qed.

(** C7 as worded fails: a [message] event whose payload is negative zero
    is written with the payload [0], and is read back with the payload
    zero. *)
Lemma sseEvent_readSSE_negative_zero :
  isWireEvent negativeZeroEvent = true /\
  toJS negativeZeroEvent
  = JSObject [(js "type", JSString (js "message"));
              (js "payload", JSNumber (Zero true))] /\
  sseEvent (toJS negativeZeroEvent)
  = js "data: " ++ 123 :: quote (js "type") ++ 58 :: quote (js "message")
       ++ 44 :: quote (js "payload") ++ 58 :: js "0" ++ [125; LF; LF] /\
  readSSE (sseEvent (toJS negativeZeroEvent))
  = [JSObject [(js "type", JSString (js "message"));
               (js "payload", JSNumber (Zero false))]].
Proof. repeat split; vm_compute; reflexivity. Qed.

(** A whole body: the frames of a list of events, one after the other,
    give back the list. *)
Lemma readFrames_concat (events : list GeminiSSEEvent) :
  forallb isWireEvent events = true ->
  forall fuel, (List.length events <= fuel)%nat ->
  readFrames fuel (List.concat (List.map (fun e => sseEvent (toJS e)) events))
  = List.map (fun e => unsignZero (toJS e)) events.
Proof.
  induction events as [|e events IH]; intros Hall fuel Hfuel.
  - apply readFrames_nil.
  - cbn [forallb] in Hall. apply andb_true_iff in Hall as [He Hall].
    destruct fuel as [|fuel]; [cbn [List.length] in Hfuel; lia|].
    cbn [List.map List.concat]. rewrite readFrames_frame by exact He.
    f_equal. apply IH; [exact Hall | cbn [List.length] in Hfuel; lia].
Qed.

Lemma length_sseEvent (data : JSValue) : (1 <= List.length (sseEvent data))%nat.
Proof. unfold sseEvent. rewrite !length_app. simpl. lia. Qed.

Lemma readSSE_concat (events : list GeminiSSEEvent) :
  forallb isWireEvent events = true ->
  readSSE (List.concat (List.map (fun e => sseEvent (toJS e)) events))
  = List.map (fun e => unsignZero (toJS e)) events.
Proof.
  intros Hall. unfold readSSE. apply readFrames_concat; [exact Hall|].
  clear Hall. induction events as [|e events IH]; [simpl; lia|].
  cbn [List.map List.concat]. rewrite length_app.
  pose proof (length_sseEvent (toJS e)). simpl. lia.
Qed.

Lemma sseEvent_readSSE_witness :
  isWireEvent sampleEvent = true /\
  noNegativeZero (toJS sampleEvent) = true /\
  readSSE (sseEvent (toJS sampleEvent)) = [toJS sampleEvent].
Proof.
  assert (Hwire : isWireEvent sampleEvent = true) by (vm_compute; reflexivity).
  assert (Hz : noNegativeZero (toJS sampleEvent) = true)
    by (vm_compute; reflexivity).
  split; [exact Hwire|]. split; [exact Hz|].
  exact (proj2 (sseEvent_readSSE sampleEvent Hwire) Hz).
Defined.

(** [GET] encodes with the same function. *)
Lemma sseEventLocal_sseEvent (data : JSValue) :
  sseEventLocal data = sseEvent data.
Proof. reflexivity. Qed.

End SseFacts.

(** ** The allow-list and the CORS headers *)

Module CorsFacts.
Import JSStr Cors JSStrFacts.
Local Open Scope N_scope.

(** *** Trimming and splitting *)

Lemma whitespace_not_comma (c : N) : isWhiteSpace c = true -> (c =? 44) = false.
Proof.
  intros H. destruct (N.eqb_spec c 44) as [->|]; [discriminate H | reflexivity].
Qed.

Lemma split_nonempty (s : jsstring) : split 44 s <> [].
Proof.
  destruct s as [|c r]; simpl; [discriminate|].
  destruct (c =? 44); [discriminate|]. destruct (split 44 r); discriminate.
Qed.

Lemma trimStart_whitespaceOnly (s : jsstring) :
  whitespaceOnly s = true -> trimStart s = [].
Proof.
  induction s as [|c r IH]; [reflexivity|]. simpl.
  intros H. apply andb_true_iff in H as [Hc Hr]. rewrite Hc. now apply IH.
Qed.

Lemma trim_whitespaceOnly (s : jsstring) :
  whitespaceOnly s = true -> trim s = [].
Proof. intros H. unfold trim. now rewrite trimStart_whitespaceOnly. Qed.

Lemma trimStart_app (p s : jsstring) :
  trimStart (p ++ s) = if whitespaceOnly p then trimStart s else trimStart p ++ s.
Proof.
  induction p as [|c r IH]; [reflexivity|]. simpl.
  destruct (isWhiteSpace c); [exact IH | reflexivity].
Qed.

Lemma trimEnd_snoc (q : jsstring) (c : N) :
  isWhiteSpace c = true -> trimEnd (q ++ [c]) = trimEnd q.
Proof.
  intros H. unfold trimEnd. rewrite rev_app_distr.
  change (rev [c] ++ rev q) with (c :: rev q). simpl. now rewrite H.
Qed.

Lemma trim_snoc (p : jsstring) (c : N) :
  isWhiteSpace c = true -> trim (p ++ [c]) = trim p.
Proof.
  intros H. unfold trim. rewrite trimStart_app.
  destruct (whitespaceOnly p) eqn:E.
  - rewrite (trimStart_whitespaceOnly p E). simpl. now rewrite H.
  - now apply trimEnd_snoc.
Qed.

Lemma trim_cons (c : N) (p : jsstring) :
  isWhiteSpace c = true -> trim (c :: p) = trim p.
Proof. intros H. unfold trim. simpl. now rewrite H. Qed.

Lemma split_snoc (s : jsstring) (c : N) :
  (c =? 44) = false -> split 44 (s ++ [c]) = snocLast (split 44 s) c.
Proof.
  intros Hc. induction s as [|d r IH].
  - simpl. now rewrite Hc.
  - change ((d :: r) ++ [c]) with (d :: (r ++ [c])).
    cbn [split]. rewrite IH.
    pose proof (split_nonempty r) as Hne.
    destruct (d =? 44).
    + destruct (split 44 r) as [|p ps]; [congruence | reflexivity].
    + destruct (split 44 r) as [|p [|q qs]]; [congruence | reflexivity..].
Qed.

Lemma map_trim_snocLast (parts : list jsstring) (c : N) :
  isWhiteSpace c = true ->
  List.map trim (snocLast parts c) = List.map trim parts.
Proof.
  intros H. induction parts as [|p [|q qs] IH]; [reflexivity| |].
  - cbn [snocLast List.map]. now rewrite trim_snoc.
  - change (snocLast (p :: q :: qs) c) with (p :: snocLast (q :: qs) c).
    cbn [List.map]. f_equal. exact IH.
Qed.

Lemma entries_snoc (s : jsstring) (c : N) :
  isWhiteSpace c = true -> entries (s ++ [c]) = entries s.
Proof.
  intros H. unfold entries.
  rewrite split_snoc by (now apply whitespace_not_comma).
  now rewrite map_trim_snocLast.
Qed.

Lemma entries_cons (c : N) (s : jsstring) :
  isWhiteSpace c = true -> entries (c :: s) = entries s.
Proof.
  intros H. unfold entries. cbn [split].
  rewrite (whitespace_not_comma c H).
  pose proof (split_nonempty s) as Hne.
  destruct (split 44 s) as [|p ps]; [congruence|].
  cbn [List.map]. now rewrite trim_cons.
Qed.

Lemma entries_trimStart (s : jsstring) : entries (trimStart s) = entries s.
Proof.
  induction s as [|c r IH]; [reflexivity|]. simpl.
  destruct (isWhiteSpace c) eqn:E; [|reflexivity].
  rewrite IH. symmetry. now apply entries_cons.
Qed.

Lemma entries_app_whitespace (w s : jsstring) :
  whitespaceOnly w = true -> entries (s ++ w) = entries s.
Proof.
  revert s. induction w as [|c w IH]; intros s H.
  - now rewrite app_nil_r.
  - simpl in H. apply andb_true_iff in H as [Hc Hw].
    change (c :: w) with ([c] ++ w). rewrite app_assoc.
    rewrite IH by assumption. now apply entries_snoc.
Qed.

(** What [trimStart] removes is white space. *)
Lemma trimStart_prefix (s : jsstring) :
  exists w, whitespaceOnly w = true /\ s = w ++ trimStart s.
Proof.
  induction s as [|c r (w & Hw & E)]; [now exists []|]. simpl.
  destruct (isWhiteSpace c) eqn:Hc.
  - exists (c :: w). split; [simpl; now rewrite Hc|]. simpl. now f_equal.
  - now exists [].
Qed.

Lemma whitespaceOnly_rev (w : jsstring) :
  whitespaceOnly w = true -> whitespaceOnly (rev w) = true.
Proof.
  unfold whitespaceOnly. rewrite !forallb_forall.
  intros H c Hc. apply H. now apply in_rev.
Qed.

Lemma trimEnd_suffix (s : jsstring) :
  exists w, whitespaceOnly w = true /\ s = trimEnd s ++ w.
Proof.
  destruct (trimStart_prefix (rev s)) as (w & Hw & E).
  exists (rev w). split; [now apply whitespaceOnly_rev|].
  unfold trimEnd. rewrite <- rev_app_distr, <- E. now rewrite rev_involutive.
Qed.

(** Trimming the whole value first does not change its entries. *)
Lemma entries_trim (s : jsstring) : entries (trim s) = entries s.
Proof.
  unfold trim. rewrite <- (entries_trimStart s).
  destruct (trimEnd_suffix (trimStart s)) as (w & Hw & E).
  rewrite E at 2. now rewrite entries_app_whitespace.
Qed.

(** A value made of commas and white space has no entry. *)
Lemma split_commasOnly (s : jsstring) :
  commasOnly s = true -> Forall (fun p => whitespaceOnly p = true) (split 44 s).
Proof.
  induction s as [|c r IH]; [repeat constructor|].
  simpl. intros H. apply andb_true_iff in H as [Hc Hr].
  specialize (IH Hr).
  destruct (c =? 44) eqn:E.
  - constructor; [reflexivity | exact IH].
  - simpl in Hc. inversion IH as [|p ps Hp Hps Eq].
    + constructor; [simpl; now rewrite Hc | constructor].
    + constructor; [simpl; now rewrite Hc, Hp | exact Hps].
Qed.

Lemma entries_commasOnly (s : jsstring) :
  commasOnly s = true -> entries s = [].
Proof.
  intros H. unfold entries.
  induction (split_commasOnly s H) as [|p ps Hp Hps IH]; [reflexivity|].
  cbn [List.map filter]. rewrite (trim_whitespaceOnly p Hp). exact IH.
Qed.

(** *** The allow-list *)

(** C10 as worded fails: with a star between blanks as the value, the
    wildcard is returned while the value is set, is not white space, is not
    the literal star and has one entry. *)
Lemma parseAllowedOrigins_padded_star :
  parseAllowedOrigins paddedStar = AnyOrigin /\
  allowListOfLiteral (getenv paddedStar (js "CORS_ALLOW_ORIGINS"))
  = Origins [js "*"].
Proof. split; vm_compute; reflexivity. Qed.

(** C10, amended: [parseAllowedOrigins] returns the wildcard when the
    variable is unset, holds white space only, is the star once trimmed, or
    has no non-empty entry after splitting on commas and trimming; it
    returns the trimmed non-empty entries in order otherwise. A value of
    commas and white space has no entry, so it allows every origin. *)
Theorem parseAllowedOrigins_allowListOfValue (env : Env) :
  parseAllowedOrigins env
  = allowListOfValue (getenv env (js "CORS_ALLOW_ORIGINS"))
  /\ (forall v, commasOnly v = true -> allowListOfValue (Some v) = AnyOrigin).
Proof.
  split.
  - unfold parseAllowedOrigins, allowListOfValue.
    destruct (getenv env (js "CORS_ALLOW_ORIGINS")) as [v|]; [|reflexivity].
    cbn [option_map]. unfold noEntry.
    fold (entries (trim v)). rewrite entries_trim.
    destruct (eqb (trim v) (js "*")) eqn:Estar;
      [now rewrite !orb_true_r|].
    rewrite !orb_false_r.
    destruct (entries v) as [|e es] eqn:Ee.
    + rewrite orb_true_r. now destruct (negb (nonEmpty (trim v))).
    + rewrite orb_false_r.
      assert (Hws : whitespaceOnly v = false).
      { destruct (whitespaceOnly v) eqn:E; [|reflexivity].
        rewrite <- entries_trim, (trim_whitespaceOnly v E) in Ee. discriminate. }
      rewrite Hws.
      destruct (trim v) as [|c r] eqn:Et; [|reflexivity].
      rewrite <- entries_trim, Et in Ee. discriminate.
  - intros v Hv. unfold allowListOfValue, noEntry.
    rewrite (entries_commasOnly v Hv). now rewrite orb_true_r.
Qed.

Lemma parseAllowedOrigins_allowListOfValue_witness :
  commasOnly (js " , ,") = true /\
  allowListOfValue (Some (js " , ,")) = AnyOrigin.
Proof.
  split; [reflexivity|].
  exact (proj2 (parseAllowedOrigins_allowListOfValue []) (js " , ,") eq_refl).
Defined.

(** *** The headers *)

(** C2 fails on the code: with the wildcard configured, or nothing
    configured, and credentials enabled, the response carries both the
    wildcard origin and the credentials header. *)
Theorem corsHeaders_wildcard_with_credentials :
  let origin := Some (js "https://app.example.com") in
  let configured := corsHeaders wildcardWithCredentials origin in
  let unset := corsHeaders unsetWithCredentials origin in
  hget configured allowOrigin = Some (js "*") /\
  hget configured allowCredentials = Some (js "true") /\
  hget unset allowOrigin = Some (js "*") /\
  hget unset allowCredentials = Some (js "true").
Proof. vm_compute. repeat split. Qed.

(** The same for every configuration that resolves to the wildcard. *)
Lemma corsHeaders_any_origin_credentials (env : Env) (origin : option jsstring) :
  parseAllowedOrigins env = AnyOrigin ->
  envIs env (js "CORS_ALLOW_CREDENTIALS") (js "true") = true ->
  hget (corsHeaders env origin) allowOrigin = Some (js "*") /\
  hget (corsHeaders env origin) allowCredentials = Some (js "true").
Proof.
  intros Hany Hcred. unfold corsHeaders. rewrite Hany, Hcred.
  vm_compute. split; reflexivity.
Qed.

(** Without the credentials flag the header is never set. *)
Lemma corsHeaders_no_credentials (env : Env) (origin : option jsstring) :
  envIs env (js "CORS_ALLOW_CREDENTIALS") (js "true") = false ->
  hget (corsHeaders env origin) allowCredentials = None.
Proof.
  intros Hcred. unfold corsHeaders. rewrite Hcred.
  destruct (parseAllowedOrigins env) as [|allowed]; [reflexivity|].
  destruct (whenTruthy origin) as [o|]; [|reflexivity].
  destruct (includes allowed o); reflexivity.
Qed.

End CorsFacts.

(** ** The bridge: finalisation *)

Module BridgeFacts.
Import JSStr JSON Sse Bridge JSStrFacts.
Local Open Scope N_scope.

Section Encoder.
Variable encode : JSValue -> jsstring.

(** *** The queue drains *)

Lemma load_app (st : State) (item : Pending * Proc) (q : list (Pending * Proc)) :
  fold_right (fun item n => S (size (snd item) + n)) 0%nat (q ++ [item])
  = (fold_right (fun item n => S (size (snd item) + n)) 0%nat q
     + S (size (snd item)))%nat.
Proof. induction q as [|x q IH]; simpl; [lia | rewrite IH; lia]. Qed.

Lemma load_run (p : Proc) :
  forall st, (load (run p st) <= load st + size p)%nat.
Proof.
  induction p as [| |frame a IHa b IHb|a IHa b IHb|a IHa b IHb]; intros st;
    cbn [run size].
  - lia.
  - unfold load; cbn [queue]. lia.
  - destruct (closeRequested st).
    + specialize (IHb st). lia.
    + unfold load; cbn [queue]. rewrite (load_app st). cbn [snd]. lia.
  - destruct (closeRequested st).
    + specialize (IHb st). lia.
    + unfold load; cbn [queue]. rewrite (load_app st). cbn [snd]. lia.
  - destruct (sessionClosed st && sessionStrict st).
    + specialize (IHb st). lia.
    + match goal with |- (load (run a ?s) <= _)%nat => specialize (IHa s) end.
      unfold load in *; cbn [queue] in *. lia.
Qed.

Lemma load_serve (st : State) :
  queue st <> [] -> (load (step encode st Serve) < load st)%nat.
Proof.
  intros Hne. unfold step. destruct (queue st) as [|[req k] later] eqn:E;
    [congruence|].
  match goal with |- (load (run k ?s) < _)%nat => pose proof (load_run k s) as H end.
  unfold load in *. rewrite E. cbn [queue fold_right snd] in *. lia.
Qed.

Lemma drainFor_empty (fuel : nat) :
  forall st, (load st <= fuel)%nat -> queue (drainFor encode fuel st) = [].
Proof.
  induction fuel as [|fuel IH]; intros st Hload.
  - destruct (queue st) as [|[req k] later] eqn:E; [exact E|].
    unfold load in Hload. rewrite E in Hload. simpl in Hload. lia.
  - cbn [drainFor]. destruct (queue st) as [|item later] eqn:E; [exact E|].
    apply IH. assert (Hne : queue st <> []) by (rewrite E; discriminate).
    pose proof (load_serve st Hne). lia.
Qed.

Lemma drain_empty (st : State) : queue (drain encode st) = [].
Proof. apply drainFor_empty. lia. Qed.

Lemma drain_idle (st : State) : queue st = [] -> drain encode st = st.
Proof.
  intros H. unfold drain, load. rewrite H. reflexivity.
Qed.

(** *** The stream gets closed *)

Lemma willClose_run (p : Proc) :
  forall st, willClose st = true -> willClose (run p st) = true.
Proof.
  unfold willClose.
  induction p as [| |frame a IHa b IHb|a IHa b IHb|a IHa b IHb]; intros st H;
    cbn [run]; auto.
  - destruct (closeRequested st) eqn:E; [apply IHb; now rewrite E|].
    cbn [closeRequested queue]. rewrite ?E in *. cbn [orb] in *.
    rewrite existsb_app, H. reflexivity.
  - destruct (closeRequested st) eqn:E; [apply IHb; now rewrite E|].
    reflexivity.
  - destruct (sessionClosed st && sessionStrict st); [now apply IHb|].
    apply IHa. exact H.
Qed.

Lemma willClose_finishes (p : Proc) :
  finishes p = true -> forall st, willClose (run p st) = true.
Proof.
  unfold willClose.
  induction p as [| |frame a IHa b IHb|a IHa b IHb|a IHa b IHb]; intros Hp st;
    cbn [run finishes] in *; try discriminate.
  - apply andb_true_iff in Hp as [Ha Hb].
    destruct (closeRequested st) eqn:E; [now apply IHb|].
    cbn [closeRequested queue]. rewrite ?E. cbn [orb].
    rewrite existsb_app. cbn [existsb snd]. rewrite Ha. now rewrite !orb_true_r.
  - destruct (closeRequested st) eqn:E; [|reflexivity].
    fold (willClose (run b st)). apply willClose_run. unfold willClose.
    now rewrite E.
  - apply andb_true_iff in Hp as [Ha Hb].
    destruct (sessionClosed st && sessionStrict st); auto.
Qed.

Lemma willClose_serve (st : State) :
  willClose st = true -> willClose (step encode st Serve) = true.
Proof.
  intros H. cbn [step]. destruct (queue st) as [|[req k] later] eqn:E;
    [exact H|].
  unfold willClose in H. rewrite E in H. cbn [existsb snd] in H.
  destruct (closeRequested st) eqn:Ec.
  - apply willClose_run. unfold willClose. cbn [closeRequested]. reflexivity.
  - cbn [orb] in H. apply orb_true_iff in H as [H|H].
    + now apply willClose_finishes.
    + apply willClose_run. unfold willClose. cbn [closeRequested queue].
      rewrite H. now rewrite orb_true_r.
Qed.

Lemma willClose_drainFor (fuel : nat) :
  forall st, willClose st = true -> willClose (drainFor encode fuel st) = true.
Proof.
  induction fuel as [|fuel IH]; intros st H; cbn [drainFor]; [exact H|].
  destruct (queue st) eqn:E; [exact H|].
  apply IH. now apply willClose_serve.
Qed.

Lemma finishes_closeWith (message : JSValue) (next : Proc) :
  finishes (closeWith encode message next) = true.
Proof. unfold closeWith. now destruct (truthy message). Qed.

(** On a closing stream [closeWith] changes nothing. *)
Lemma run_closeWith_closing (message : JSValue) (st : State) :
  closeRequested st = true -> run (closeWith encode message Return) st = st.
Proof.
  intros H. unfold closeWith. destruct (truthy message); cbn [run];
    rewrite H; cbn [run]; rewrite ?H; reflexivity.
Qed.

Lemma finalize_settled (message : JSValue) (st : State) :
  closeRequested (finalize encode message st) = true /\
  queue (finalize encode message st) = [].
Proof.
  pose proof (drain_empty (run (closeWith encode message Return) st)) as Hq.
  unfold finalize. split; [|exact Hq].
  pose proof (willClose_drainFor
                (load (run (closeWith encode message Return) st)) _
                (willClose_finishes _ (finishes_closeWith message Return) st)) as H.
  fold (drain encode (run (closeWith encode message Return) st)) in H.
  unfold willClose in H. rewrite Hq in H. cbn [existsb] in H.
  now rewrite orb_false_r in H.
Qed.

(** C5: finalising a second time, once the first has finished, leaves
    the state as it is: no chunk is written, no callback rejects; and
    closing the session handle again changes nothing either. *)
Theorem finalize_twice (st : State) (first second : JSValue) :
  finalize encode second (finalize encode first st) = finalize encode first st
  /\ run onabort (run onabort st) = run onabort st.
Proof.
  split.
  - destruct (finalize_settled first st) as [Hc Hq].
    unfold finalize at 1. rewrite run_closeWith_closing by exact Hc.
    now apply drain_idle.
  - destruct st as [w q c s sc strict r]. unfold onabort. cbn.
    destruct sc, strict; reflexivity.
Qed.

End Encoder.

End BridgeFacts.

(** ** The bridge: runs without overlap *)

Module BridgeRuns.
Import JSStr JSON Sse Bridge JSStrFacts BridgeFacts.
Local Open Scope N_scope.

(** *** Frames and their types *)

Lemma isEndFrame_sseEvent (e : GeminiSSEEvent) :
  isEndFrame (sseEvent (toJS e))
  = match e with EvEnd _ => true | _ => false end.
Proof.
  destruct e as [|payload|reason|[message|]|error]; try reflexivity;
    unfold sseEvent; cbn [toJS stringify flat_map snd fst app];
    destruct (stringify _); reflexivity.
Qed.

Lemma countEndFrames_app (a b : list jsstring) :
  countEndFrames (a ++ b) = (countEndFrames a + countEndFrames b)%nat.
Proof. unfold countEndFrames. now rewrite filter_app, length_app. Qed.

Lemma endIsLast_app (a b : list jsstring) :
  countEndFrames a = 0%nat -> endIsLast (a ++ b) = endIsLast b.
Proof.
  induction a as [|f a IH]; [reflexivity|].
  unfold countEndFrames. cbn [filter app endIsLast].
  destruct (isEndFrame f); [discriminate|]. exact IH.
Qed.

Lemma endIsLast_count (frames : list jsstring) :
  endIsLast frames = true -> (countEndFrames frames <= 1)%nat.
Proof.
  unfold countEndFrames.
  induction frames as [|f rest IH]; [cbn; lia|].
  cbn [endIsLast filter].
  destruct (isEndFrame f).
  - intros H. destruct rest; [cbn; lia | discriminate H].
  - exact IH.
Qed.

(** *** Runs in which callbacks do not overlap *)

Lemma settled_plain (w : list jsstring) (e : GeminiSSEEvent)
    (sc ss strict : bool) (r : nat) :
  countEndFrames w = 0%nat ->
  match e with EvEnd _ => False | _ => True end ->
  settled (mkState (w ++ [sseEvent (toJS e)]) [] false sc ss strict r).
Proof.
  intros Hw He. unfold settled. cbn [queue written closeRequested streamClosed].
  assert (Hf : isEndFrame (sseEvent (toJS e)) = false)
    by (rewrite isEndFrame_sseEvent; destruct e; tauto).
  repeat split; try discriminate.
  - rewrite endIsLast_app by exact Hw. cbn [endIsLast]. now rewrite Hf.
  - intros _. rewrite countEndFrames_app, Hw. unfold countEndFrames.
    cbn [filter]. now rewrite Hf.
Qed.

Lemma settled_ended (w : list jsstring) (e : GeminiSSEEvent) (m : JSValue)
    (ss strict : bool) (r : nat) :
  countEndFrames w = 0%nat ->
  match e with EvEnd _ => False | _ => True end ->
  settled (mkState ((w ++ [sseEvent (toJS e)]) ++ [sseEvent (toJS (EvEnd (Some m)))])
                   [] true true ss strict r).
Proof.
  intros Hw He. unfold settled. cbn [queue written closeRequested streamClosed].
  assert (Hf : isEndFrame (sseEvent (toJS e)) = false)
    by (rewrite isEndFrame_sseEvent; destruct e; tauto).
  repeat split; try discriminate.
  rewrite endIsLast_app.
  - cbn [endIsLast]. now rewrite isEndFrame_sseEvent.
  - rewrite countEndFrames_app, Hw. unfold countEndFrames.
    cbn [filter]. now rewrite Hf.
Qed.

(** What a callback leaves once its requests are served, on a stream
    that is not closing and has nothing pending. *)
Lemma drain_write (w : list jsstring) (f : jsstring) (sc ss strict : bool)
    (r : nat) :
  drain sseEvent (run (Write f Return Reject) (mkState w [] false sc ss strict r))
  = mkState (w ++ [f]) [] false sc ss strict r.
Proof. reflexivity. Qed.

Lemma drain_write_end (w : list jsstring) (f e : jsstring) (sc ss strict : bool)
    (r : nat) :
  drain sseEvent
    (run (Write f (Write e (CloseWriter Return Return) (CloseWriter Return Return))
            Reject)
         (mkState w [] false sc ss strict r))
  = mkState ((w ++ [f]) ++ [e]) [] true true ss strict r.
Proof. reflexivity. Qed.

Lemma drain_write_close_end (w : list jsstring) (f e : jsstring)
    (sc ss strict : bool) (r : nat) :
  let finish := Write e (CloseWriter Return Return) (CloseWriter Return Return) in
  drain sseEvent
    (run (Write f (CloseSession finish finish) Reject)
         (mkState w [] false sc ss strict r))
  = mkState ((w ++ [f]) ++ [e]) [] true true true strict r.
Proof. destruct ss, strict; reflexivity. Qed.

Lemma closeWith_text (text : string) (next : Proc) :
  js text <> [] ->
  closeWith sseEvent (JSString (js text)) next
  = Write (sseEvent (toJS (EvEnd (Some (JSString (js text))))))
      (CloseWriter next next) (CloseWriter next next).
Proof.
  intros H. unfold closeWith. cbn [truthy].
  destruct (js text); [congruence | reflexivity].
Qed.

Lemma settled_deliver (st : State) (s : Signal) :
  settled st -> settled (drain sseEvent (step sseEvent st (Deliver s))).
Proof.
  destruct st as [w q c sc ss strict r].
  intros (Hq & Hlast & Hnone & Hclosed).
  cbn [queue written closeRequested streamClosed] in Hq, Hlast, Hnone, Hclosed.
  subst q. destruct c.
  - (* the stream is closing: the first write is refused *)
    assert (E : step sseEvent (mkState w [] true sc ss strict r) (Deliver s)
                = mkState w [] true sc ss strict (S r)) by (destruct s; reflexivity).
    rewrite E. rewrite drain_idle by reflexivity.
    unfold settled. cbn [queue written closeRequested streamClosed]. auto.
  - specialize (Hnone eq_refl). cbn [step].
    destruct s as [|message|message|reason]; cbn [callback].
    + unfold onopen. rewrite drain_write.
      exact (settled_plain w EvOpen sc ss strict r Hnone I).
    + unfold onmessage. destruct (truthy (turnComplete message)).
      * rewrite closeWith_text by discriminate.
        rewrite drain_write_close_end.
        exact (settled_ended w (EvMessage message) _ _ strict r Hnone I).
      * rewrite drain_write.
        exact (settled_plain w (EvMessage message) sc ss strict r Hnone I).
    + unfold onerror. rewrite closeWith_text by discriminate.
      rewrite drain_write_close_end.
      exact (settled_ended w (EvError message) _ _ strict r Hnone I).
    + unfold onclose. rewrite closeWith_text by discriminate.
      rewrite drain_write_end.
      exact (settled_ended w (EvClose reason) _ _ strict r Hnone I).
Qed.

Lemma settled_serial (signals : list Signal) :
  forall st, settled st -> settled (serial sseEvent st signals).
Proof.
  induction signals as [|s signals IH]; intros st H; [exact H|].
  cbn [serial fold_left]. apply IH. now apply settled_deliver.
Qed.

(** When no two callbacks overlap, [end] is the last frame, there is at
    most one, and the stream is closed once it is written. *)
Lemma serial_end_once (strict : bool) (signals : list Signal) :
  let st := serial sseEvent (initial strict) signals in
  endIsLast (written st) = true /\
  (countEndFrames (written st) <= 1)%nat /\
  (countEndFrames (written st) = 1%nat -> streamClosed st = true).
Proof.
  assert (H0 : settled (initial strict)) by (unfold settled; cbn; auto).
  destruct (settled_serial signals _ H0) as (Hq & Hlast & Hnone & Hclosed).
  cbv zeta. split; [exact Hlast|]. split; [now apply endIsLast_count|].
  intros H1. apply Hclosed.
  destruct (closeRequested _) eqn:E; [reflexivity|].
  rewrite (Hnone eq_refl) in H1. discriminate.
Qed.

(** A fault then a closure without overlap: the closure finds the stream
    closed, its [close] frame is refused and its callback rejects. *)
Lemma serial_fault_then_close (message reason : jsstring) (strict : bool) :
  let st := serial sseEvent (initial strict)
              [SigOpen; SigError message; SigClose reason] in
  written st
  = [sseEvent (toJS EvOpen); sseEvent (toJS (EvError message));
     sseEvent (toJS (EvEnd (Some (JSString (js "error")))))] /\
  streamClosed st = true /\ rejections st = 1%nat.
Proof.
  cbv zeta. unfold serial. cbn [fold_left step callback].
  unfold onopen at 1. unfold initial. rewrite drain_write.
  unfold onerror. rewrite closeWith_text by discriminate.
  rewrite drain_write_close_end. repeat split.
Qed.

(** *** Every pace of the reader *)

Section Pace.
Variable encode : JSValue -> jsstring.

Lemma exec_app (st : State) (a b : list Action) :
  exec encode st (a ++ b) = exec encode (exec encode st a) b.
Proof. apply fold_left_app. Qed.

Lemma serve_idle (n : nat) (st : State) :
  queue st = [] -> exec encode st (repeat Serve n) = st.
Proof.
  intros H. induction n as [|n IH]; [reflexivity|].
  cbn [repeat exec fold_left step]. rewrite H. exact IH.
Qed.

(** Once the queue is empty, serving more changes nothing. *)
Lemma serve_saturate (k n : nat) (st : State) :
  queue (exec encode st (repeat Serve k)) = [] -> (k <= n)%nat ->
  exec encode st (repeat Serve n) = exec encode st (repeat Serve k).
Proof.
  intros Hq Hle. replace n with (k + (n - k))%nat by lia.
  rewrite repeat_app, exec_app. now apply serve_idle.
Qed.

Lemma exec_paced (st : State) (a b c : nat) (message reason : jsstring) :
  exec encode st (paced a b c message reason)
  = exec encode
      (step encode
         (exec encode
            (step encode
               (exec encode (step encode st (Deliver SigOpen)) (repeat Serve a))
               (Deliver (SigError message)))
            (repeat Serve b))
         (Deliver (SigClose reason)))
      (repeat Serve c).
Proof.
  unfold paced. cbn [exec fold_left].
  fold (exec encode (step encode st (Deliver SigOpen))
          (repeat Serve a ++ Deliver (SigError message) :: repeat Serve b
           ++ Deliver (SigClose reason) :: repeat Serve c)).
  rewrite exec_app. cbn [exec fold_left].
  fold (exec encode
          (step encode (exec encode (step encode st (Deliver SigOpen)) (repeat Serve a))
             (Deliver (SigError message)))
          (repeat Serve b ++ Deliver (SigClose reason) :: repeat Serve c)).
  rewrite exec_app. reflexivity.
Qed.

End Pace.


End BridgeRuns.

(** ** The bridge: a fault then a closure *)

Module BridgePace.
Import JSStr JSON Sse Bridge JSStrFacts BridgeFacts BridgeRuns.
Local Open Scope N_scope.

(** A fault then a closure, the body read to its end: whatever the pace of
    the reader, the frame types are not the four of the specification.
    Serving more requests than are pending changes nothing, so a few paces
    stand for all. *)
Lemma paced_types (a b c : nat) (message reason : jsstring) (strict : bool) :
  let st := exec sseEvent (initial strict) (paced a b c message reason) in
  queue st = [] -> List.map frameType (written st) <> faultThenCloseTypes.
Proof.
  cbv zeta. rewrite exec_paced.
  destruct a as [|a];
    [|rewrite (serve_saturate sseEvent 1 (S a))
        by (first [lia | vm_compute; reflexivity])].
  all: destruct b as [|[|[|[|b]]]];
    try rewrite (serve_saturate sseEvent 4 (S (S (S (S b)))))
      by (first [lia | vm_compute; reflexivity]).
  all: destruct c as [|[|[|[|[|[|c]]]]]];
    try rewrite (serve_saturate sseEvent 6 (S (S (S (S (S (S c)))))))
      by (first [lia | vm_compute; reflexivity]).
  all: vm_compute; intros Hq; try discriminate Hq; discriminate.
Qed.

End BridgePace.

(** ** The handlers *)

Module RouteFacts.
Import JSStr JSON Sse Cors Route JSStrFacts JSONFacts JSONRoundTrip.
Local Open Scope N_scope.

(** *** Headers *)

Lemma getRaw_setRaw (name value : jsstring) (h : Headers) :
  getRaw name (setRaw name value h) = Some value.
Proof.
  induction h as [|[k v] h IH]; simpl.
  - now rewrite eqb_refl.
  - destruct (eqb name k) eqn:E; simpl; rewrite E; [reflexivity | exact IH].
Qed.

Lemma hget_jsonType (h : Headers) :
  hget (jsonType h) (js "Content-Type") = Some (js "application/json").
Proof. apply getRaw_setRaw. Qed.

(** *** Turn normalisation *)

Lemma POST_array_input (env : Env) (req : Request) (c : Client)
    (props : list (jsstring * JSValue)) (elems : list JSValue) :
  createGenAI env = inl c ->
  parse (bodyText req) = Some (JSObject props) ->
  lookupProp (js "input") props = JSArray elems ->
  opened (POST env req Connected)
  = Some (mkSession (nullish (lookupProp (js "model") props) defaultModel) elems).
Proof.
  intros Hc Hp Hi. unfold POST, jsonOrEmpty. rewrite Hc, Hp.
  cbn [getProp]. rewrite Hi. reflexivity.
Qed.

Lemma GET_no_input (env : Env) (req : Request) (c : Client) (probe : Probe) :
  createGenAI env = inl c ->
  healthRequested req = false ->
  searchGetAll (query req) (js "input") = [] ->
  option_map turns (opened (GET env req Connected probe)) = Some [hello].
Proof.
  intros Hc Hh Hi. unfold GET. rewrite Hc, Hh, Hi. reflexivity.
Qed.

(** C9: the normalisation of [POST] returns an array as it is, so a
    request whose body has an array as [input] opens the session with that
    array; for the empty array no turn is sent, while [GET] without [input]
    sends the default. *)
Theorem turnsOfBody_array_unchanged :
  (forall elems, turnsOfBody (JSArray elems) = elems) /\
  (forall env req c props elems,
     createGenAI env = inl c ->
     parse (bodyText req) = Some (JSObject props) ->
     lookupProp (js "input") props = JSArray elems ->
     option_map turns (opened (POST env req Connected)) = Some elems) /\
  opened (POST keyOnly emptyInputRequest Connected)
  = Some (mkSession defaultModel []) /\
  (forall env req c probe,
     createGenAI env = inl c ->
     healthRequested req = false ->
     searchGetAll (query req) (js "input") = [] ->
     option_map turns (opened (GET env req Connected probe)) = Some [hello]) /\
  opened (GET keyOnly bareRequest Connected (ProbeError []))
  = Some (mkSession defaultModel [hello]).
Proof.
  split; [reflexivity|]. split.
  { intros env req c props elems Hc Hp Hi.
    now rewrite (POST_array_input env req c props elems Hc Hp Hi). }
  split; [vm_compute; reflexivity|]. split.
  { intros env req c probe. apply GET_no_input. }
  vm_compute; reflexivity.
Qed.

(** C1 fails on [POST]: for the body whose [input] is the empty array the
    sequence sent to the session has length 0. *)
Theorem POST_empty_array_no_turn :
  option_map (fun s => List.length (turns s))
    (opened (POST keyOnly emptyInputRequest Connected)) = Some 0%nat.
Proof. vm_compute. reflexivity. Qed.

(** Everywhere else the sequence has a turn, and the default is used for
    what is absent, empty or not a string. *)
Lemma turnsOfBody_length (input : JSValue) :
  input <> JSArray [] -> (1 <= List.length (turnsOfBody input))%nat.
Proof.
  destruct input as [| |b|z|s|[|e es]|props]; intros H; simpl; try lia.
  - destruct (nonEmpty s); simpl; lia.
  - congruence.
Qed.

Lemma turnsOfBody_default (input : JSValue) :
  match input with
  | JSArray _ => False
  | JSString (_ :: _) => False
  | _ => True
  end -> turnsOfBody input = [hello].
Proof. destruct input as [| |b|z|[|c s]|elems|props]; simpl; tauto. Qed.

Lemma turnsOfBody_string (c : N) (s : jsstring) :
  turnsOfBody (JSString (c :: s)) = [JSString (c :: s)].
Proof. reflexivity. Qed.

Lemma turnsOfQuery_length (input : list jsstring) :
  (1 <= List.length (turnsOfQuery input))%nat.
Proof. destruct input; simpl; lia. Qed.

Lemma jsonOrEmpty_malformed (text : jsstring) :
  parse text = None ->
  turnsOfBody (getProp (jsonOrEmpty text) (js "input")) = [hello].
Proof. intros H. unfold jsonOrEmpty. now rewrite H. Qed.

(** *** Configuration errors *)

Lemma createGenAI_missing (env : Env) :
  apiKeyPresent env = false -> hostedIdentityComplete env = false ->
  exists msg, createGenAI env = inr msg /\ mentionsMissing env msg = true
              /\ (msg = vertexMessage \/ msg = apiKeyMessage).
Proof.
  unfold apiKeyPresent, hostedIdentityComplete, createGenAI, mentionsMissing.
  intros Hkey Hhosted.
  destruct (useVertex env).
  - exists vertexMessage.
    destruct (whenTruthy (getenv env (js "GOOGLE_CLOUD_PROJECT")));
      destruct (whenTruthy (getenv env (js "GOOGLE_CLOUD_LOCATION")));
      try discriminate; (split; [reflexivity|]; split; [vm_compute; reflexivity | now left]).
  - exists apiKeyMessage. destruct (apiKeyOf env); [discriminate|].
    split; [reflexivity|]. split; [vm_compute; reflexivity | now right].
Qed.

Lemma errorBody_json (msg : jsstring) :
  msg = vertexMessage \/ msg = apiKeyMessage ->
  exists text,
    errorBody msg = Text text /\
    parse text = Some (JSObject [(js "error", JSString msg)]) /\
    readSSE text = [].
Proof.
  intros [-> | ->]; eexists; (split; [reflexivity|]); split; vm_compute; reflexivity.
Qed.

(** C6: when neither an API key nor a complete hosted-identity
    configuration is present, [POST] and [GET] (with or without the health
    flag, which is read only once the client exists) answer 500 with a JSON
    body whose [error] names the missing variables; the body holds no SSE
    frame, no session is opened and no chunk is ever written. *)
Theorem missing_credentials_no_stream (env : Env) (req : Request)
    (remote : Connect) (probe : Probe) :
  apiKeyPresent env = false ->
  hostedIdentityComplete env = false ->
  exists msg,
    mentionsMissing env msg = true /\
    configurationFailure (POST env req remote) msg /\
    configurationFailure (GET env req remote probe) msg.
Proof.
  intros Hkey Hhosted.
  destruct (createGenAI_missing env Hkey Hhosted) as (msg & Hc & Hm & Hmsg).
  destruct (errorBody_json msg Hmsg) as (text & Hb & Hp & Hf).
  exists msg. split; [exact Hm|].
  unfold configurationFailure, streamed, POST, GET, failure. rewrite Hc.
  cbn [response status body headers opened]. rewrite Hb.
  split; (split; [reflexivity|]);
    (split; [exists text; repeat split; assumption|]);
    (split; [apply hget_jsonType|]); split; reflexivity.
Qed.

Lemma missing_credentials_no_stream_witness :
  apiKeyPresent [] = false /\
  hostedIdentityComplete [] = false /\
  exists msg,
    mentionsMissing [] msg = true /\
    configurationFailure (POST [] helloRequest Connected) msg /\
    configurationFailure (GET [] helloRequest Connected (ProbeError [])) msg.
Proof.
  split; [reflexivity|]. split; [reflexivity|].
  exact (missing_credentials_no_stream [] helloRequest Connected
           (ProbeError []) eq_refl eq_refl).
Defined.

(** *** The stream of the test-suite's session *)

(** C3 fails on the code in the run of the test [handles error callback]:
    after [open], [error] and [close] a first [end] carries [error] and a
    second [end] carries [closed]. *)
Theorem POST_fault_then_close_events :
  let o := POST keyOnly helloRequest Connected in
  let events :=
    readSSE (List.concat
               (streamed sseEvent o false (Bridge.faultThenClose ++ Bridge.readToEnd))) in
  status (response o) = 200%Z /\
  eventTypes events
  = List.map Bridge.jsText ["open"; "error"; "close"; "end"; "end"]%string /\
  List.map (fun e => getProp e (js "message")) events
  = [JSUndefined; JSUndefined; JSUndefined;
     Bridge.jsText "error"; Bridge.jsText "closed"].
Proof. vm_compute. repeat split. Qed.

(** C4 fails on the code in the same run, for [POST] and for [GET]: two
    [end] frames are written, the second after the first, before the stream
    is closed. *)
Theorem fault_then_close_two_end_frames :
  let schedule := Bridge.faultThenClose ++ Bridge.readToEnd in
  let post := streamed sseEvent (POST keyOnly helloRequest Connected) false schedule in
  let get := streamed sseEventLocal
               (GET keyOnly bareRequest Connected (ProbeError [])) false schedule in
  Bridge.countEndFrames post = 2%nat /\ Bridge.endIsLast post = false /\
  Bridge.countEndFrames get = 2%nat /\ Bridge.endIsLast get = false /\
  Bridge.streamClosed (Bridge.exec sseEvent (Bridge.initial false) schedule) = true.
Proof. vm_compute. repeat split. Qed.

(** The session of the other tests ends the same way: after the turn is
    complete, [end] is written for [turn_complete] and again for [closed]. *)
Lemma happy_path_events :
  let events :=
    readSSE (List.concat
               (streamed sseEvent (POST keyOnly helloRequest Connected) false
                  (Bridge.happyPath ++ Bridge.readToEnd))) in
  eventTypes events
  = List.map Bridge.jsText
      ["open"; "message"; "message"; "close"; "end"; "end"]%string /\
  List.map (fun e => getProp e (js "message")) events
  = [JSUndefined; JSUndefined; JSUndefined; JSUndefined;
     Bridge.jsText "turn_complete"; Bridge.jsText "closed"].
Proof. vm_compute. repeat split. Qed.

End RouteFacts.

(** ** Origins, [corsHeaders] and [OPTIONS] *)

Module OriginFacts.
Import JSStr JSON Cors Route Usage JSStrFacts CorsFacts.
Local Open Scope N_scope.

(** *** [Headers] *)

Lemma getRaw_setRaw_other (name other value : jsstring) (h : Headers) :
  eqb other name = false ->
  getRaw other (setRaw name value h) = getRaw other h.
Proof.
  intros Hne. induction h as [|[k v] h IH]; simpl.
  - now rewrite Hne.
  - destruct (eqb name k) eqn:E; simpl.
    + apply eqb_eq in E. subst k. now rewrite Hne.
    + destruct (eqb other k); [reflexivity | exact IH].
Qed.

Lemma hget_hset_other (name other value : jsstring) (h : Headers) :
  eqb (toLowerAscii other) (toLowerAscii name) = false ->
  hget (hset name value h) other = hget h other.
Proof. intros Hne. unfold hget, hset. now apply getRaw_setRaw_other. Qed.

Lemma hget_hset_same (name value : jsstring) (h : Headers) :
  hget (hset name value h) name = Some value.
Proof.
  unfold hget, hset. induction h as [|[k v] h IH]; simpl.
  - now rewrite eqb_refl.
  - destruct (eqb (toLowerAscii name) k) eqn:E; simpl; rewrite E;
      [reflexivity | exact IH].
Qed.

Lemma includes_In (l : list jsstring) (x : jsstring) :
  includes l x = true <-> In x l.
Proof.
  unfold includes. rewrite existsb_exists. split.
  - intros (y & Hy & E). apply eqb_eq in E. now subst.
  - intros H. exists x. split; [exact H | apply eqb_refl].
Qed.

(** *** Trimming *)

Lemma trimStart_idem (s : jsstring) : trimStart (trimStart s) = trimStart s.
Proof.
  induction s as [|c s IH]; simpl; [reflexivity|].
  destruct (isWhiteSpace c) eqn:E; [exact IH | simpl; now rewrite E].
Qed.

Lemma trimEnd_idem (s : jsstring) : trimEnd (trimEnd s) = trimEnd s.
Proof. unfold trimEnd. now rewrite rev_involutive, trimStart_idem. Qed.

Lemma trimStart_cases (s : jsstring) :
  trimStart s = [] \/
  exists c t, trimStart s = c :: t /\ isWhiteSpace c = false.
Proof.
  induction s as [|c s IH]; simpl; [now left|].
  destruct (isWhiteSpace c) eqn:E; [exact IH | right; now exists c, s].
Qed.

Lemma trimEnd_head (c : N) (t : jsstring) :
  isWhiteSpace c = false -> exists t', trimEnd (c :: t) = c :: t'.
Proof.
  intros Hc. destruct (trimEnd_suffix (c :: t)) as (w & Hw & E).
  destruct (trimEnd (c :: t)) as [|c' t'].
  - simpl in E. subst w. simpl in Hw. rewrite Hc in Hw. discriminate.
  - simpl in E. injection E as -> _. now exists t'.
Qed.

Lemma trim_idem (s : jsstring) : trim (trim s) = trim s.
Proof.
  unfold trim. destruct (trimStart_cases s) as [E | (c & t & E & Hc)];
    rewrite E.
  - reflexivity.
  - destruct (trimEnd_head c t Hc) as (t' & E').
    rewrite E'. rewrite trimStart_head by exact Hc.
    rewrite <- E'. apply trimEnd_idem.
Qed.

Lemma trimStart_incl (c : N) (s : jsstring) : In c (trimStart s) -> In c s.
Proof.
  destruct (trimStart_prefix s) as (w & _ & E). intros H.
  rewrite E. apply in_or_app. now right.
Qed.

Lemma trim_incl (c : N) (s : jsstring) : In c (trim s) -> In c s.
Proof.
  unfold trim. intros H. apply trimStart_incl.
  destruct (trimEnd_suffix (trimStart s)) as (w & _ & E).
  rewrite E. apply in_or_app. now left.
Qed.

Lemma split_no_comma (s : jsstring) :
  Forall (fun part => ~ In 44 part) (split 44 s).
Proof.
  induction s as [|c s IH]; simpl.
  - constructor; [intros [] | constructor].
  - destruct (c =? 44) eqn:E.
    + constructor; [intros [] | exact IH].
    + destruct (split 44 s) as [|part parts].
      * constructor; [|constructor].
        intros [H | []]. subst c. discriminate.
      * inversion IH as [|? ? Hp Hps]; subst. constructor; [|exact Hps].
        intros [H | H]; [subst c; discriminate | now apply Hp].
Qed.

(** *** The allow-list *)

(** X1: an allow-list the code returns is never empty, and each of its
    entries is non-empty, carries no white space at either end and holds
    no comma. *)
Theorem parseAllowedOrigins_entries_clean (env : Env) (parts : list jsstring) :
  parseAllowedOrigins env = Origins parts ->
  parts <> [] /\
  Forall (fun p => p <> [] /\ trim p = p /\ ~ In 44 p) parts.
Proof.
  unfold parseAllowedOrigins.
  destruct (getenv env (js "CORS_ALLOW_ORIGINS")) as [value|];
    cbn [option_map]; [|discriminate].
  match goal with |- context [if ?c then _ else _] => destruct c end;
    [discriminate|].
  destruct (filter nonEmpty (List.map trim (split 44 (trim value))))
    as [|p ps] eqn:E; [discriminate|].
  intros H. injection H as <-. split; [discriminate|].
  rewrite <- E. apply Forall_forall. intros q Hq.
  apply filter_In in Hq. destruct Hq as (Hq & Hne).
  apply in_map_iff in Hq. destruct Hq as (r & <- & Hr).
  split; [|split].
  - intros E0. rewrite E0 in Hne. discriminate.
  - apply trim_idem.
  - intros Hc. apply trim_incl in Hc.
    pose proof (split_no_comma (trim value)) as Hs.
    rewrite Forall_forall in Hs. exact (Hs r Hr Hc).
Qed.

Lemma parseAllowedOrigins_entries_clean_witness :
  parseAllowedOrigins [(js "CORS_ALLOW_ORIGINS", js " https://a.example , ,b ")]
  = Origins [js "https://a.example"; js "b"] /\
  [js "https://a.example"; js "b"] <> [] /\
  Forall (fun p => p <> [] /\ trim p = p /\ ~ In 44 p)
         [js "https://a.example"; js "b"].
Proof.
  split; [vm_compute; reflexivity|].
  exact (parseAllowedOrigins_entries_clean
           [(js "CORS_ALLOW_ORIGINS", js " https://a.example , ,b ")]
           [js "https://a.example"; js "b"] eq_refl).
Defined.

(** *** [corsHeaders] with an explicit allow-list *)

(** X2: with an explicit allow-list, the origin of the request is echoed in
    [Access-Control-Allow-Origin], with [Vary: Origin], when it is one of
    the entries; otherwise neither header is set. *)
Theorem corsHeaders_listed_origin (env : Env) (origin : option jsstring)
    (allowed : list jsstring) :
  parseAllowedOrigins env = Origins allowed ->
  (forall o, origin = Some o -> o <> [] -> In o allowed ->
     hget (corsHeaders env origin) allowOrigin = Some o /\
     hget (corsHeaders env origin) (js "Vary") = Some (js "Origin")) /\
  ((forall o, origin = Some o -> ~ In o allowed) ->
     hget (corsHeaders env origin) allowOrigin = None /\
     hget (corsHeaders env origin) (js "Vary") = None).
Proof.
  intros Hl. unfold corsHeaders. rewrite Hl. split.
  - intros o -> Hne Hin. destruct o as [|c o]; [now elim Hne|].
    cbn [whenTruthy nonEmpty].
    apply includes_In in Hin. rewrite Hin.
    destruct (envIs env (js "CORS_ALLOW_CREDENTIALS") (js "true"));
      split; reflexivity.
  - intros Hout. destruct origin as [o|].
    + destruct o as [|c o]; cbn [whenTruthy nonEmpty].
      * destruct (envIs env (js "CORS_ALLOW_CREDENTIALS") (js "true"));
          split; reflexivity.
      * destruct (includes allowed (c :: o)) eqn:Hin.
        -- apply includes_In in Hin. elim (Hout (c :: o) eq_refl Hin).
        -- destruct (envIs env (js "CORS_ALLOW_CREDENTIALS") (js "true"));
             split; reflexivity.
    + cbn [whenTruthy].
      destruct (envIs env (js "CORS_ALLOW_CREDENTIALS") (js "true"));
        split; reflexivity.
Qed.

Lemma corsHeaders_listed_origin_witness :
  parseAllowedOrigins listedOriginOnly = Origins [appOrigin] /\
  (forall o, Some appOrigin = Some o -> o <> [] -> In o [appOrigin] ->
     hget (corsHeaders listedOriginOnly (Some appOrigin)) allowOrigin = Some o /\
     hget (corsHeaders listedOriginOnly (Some appOrigin)) (js "Vary")
     = Some (js "Origin")) /\
  ((forall o, Some appOrigin = Some o -> ~ In o [appOrigin]) ->
     hget (corsHeaders listedOriginOnly (Some appOrigin)) allowOrigin = None /\
     hget (corsHeaders listedOriginOnly (Some appOrigin)) (js "Vary") = None).
Proof.
  split; [vm_compute; reflexivity|].
  exact (corsHeaders_listed_origin listedOriginOnly (Some appOrigin)
           [appOrigin] eq_refl).
Defined.

(** *** [OPTIONS] *)

(** X3: the preflight answer is always 204 without a body, with the three
    fixed headers; the credentials header is there exactly when
    [CORS_ALLOW_CREDENTIALS] is the text [true]; an empty [Origin] header
    counts as none. *)
Theorem OPTIONS_preflight (env : Env) (req : Request) :
  let r := OPTIONS env req in
  status r = 204%Z /\ body r = NoBody /\
  hget (headers r) (js "Access-Control-Allow-Methods")
  = Some (js "GET,POST,OPTIONS") /\
  hget (headers r) (js "Access-Control-Allow-Headers")
  = Some (js "Content-Type, Authorization") /\
  hget (headers r) (js "Access-Control-Max-Age") = Some (js "86400") /\
  hget (headers r) allowCredentials
  = (if envIs env (js "CORS_ALLOW_CREDENTIALS") (js "true")
     then Some (js "true") else None) /\
  (originHeader req = Some [] -> headers r = corsHeaders env None).
Proof.
  cbv zeta. unfold OPTIONS. cbn [status body headers].
  split; [reflexivity|]. split; [reflexivity|].
  assert (Hfixed :
    hget (corsHeaders env (originOf req)) (js "Access-Control-Allow-Methods")
    = Some (js "GET,POST,OPTIONS") /\
    hget (corsHeaders env (originOf req)) (js "Access-Control-Allow-Headers")
    = Some (js "Content-Type, Authorization") /\
    hget (corsHeaders env (originOf req)) (js "Access-Control-Max-Age")
    = Some (js "86400") /\
    hget (corsHeaders env (originOf req)) allowCredentials
    = (if envIs env (js "CORS_ALLOW_CREDENTIALS") (js "true")
       then Some (js "true") else None)).
  { unfold corsHeaders.
    destruct (parseAllowedOrigins env) as [|allowed];
      [|destruct (whenTruthy (originOf req)) as [o|];
        [destruct (includes allowed o)|]];
      destruct (envIs env (js "CORS_ALLOW_CREDENTIALS") (js "true"));
      repeat split; reflexivity. }
  destruct Hfixed as (H1 & H2 & H3 & H4).
  repeat (split; [assumption|]).
  intros Ho. unfold originOf. rewrite Ho. reflexivity.
Qed.

End OriginFacts.

(** ** Readers of the stream *)

Module ReaderFacts.
Import JSStr JSON Sse Cors Reader JSStrFacts JSONRoundTrip SseFacts CorsFacts OriginFacts.
Local Open Scope N_scope.

(** *** Cutting at a blank line *)

Lemma cutAtBlankLine_split (s pre post : jsstring) :
  cutAtBlankLine s = Some (pre, post) -> s = pre ++ LF :: LF :: post.
Proof.
  revert pre post. induction s as [|c s IH]; intros pre post; [discriminate|].
  cbn [cutAtBlankLine]. destruct s as [|d r]; [discriminate|].
  destruct ((c =? LF) && (d =? LF)) eqn:E.
  - intros H. injection H as <- <-.
    apply andb_true_iff in E. destruct E as (Ec & Ed).
    apply N.eqb_eq in Ec, Ed. now subst.
  - destruct (cutAtBlankLine (d :: r)) as [[pre' post']|]; [|discriminate].
    intros H. injection H as <- <-. cbn [app]. f_equal. now apply IH.
Qed.

Lemma cutAtBlankLine_length (s pre post : jsstring) :
  cutAtBlankLine s = Some (pre, post) ->
  (List.length post + 2 <= List.length s)%nat.
Proof.
  intros H. apply cutAtBlankLine_split in H. subst s.
  rewrite length_app. cbn [List.length]. lia.
Qed.

Lemma cutAtBlankLine_app (a b pre post : jsstring) :
  cutAtBlankLine a = Some (pre, post) ->
  cutAtBlankLine (a ++ b) = Some (pre, post ++ b).
Proof.
  revert pre post. induction a as [|c a IH]; intros pre post; [discriminate|].
  cbn [cutAtBlankLine app]. destruct a as [|d r]; [discriminate|].
  cbn [app]. destruct ((c =? LF) && (d =? LF)).
  - intros H. now injection H as <- <-.
  - destruct (cutAtBlankLine (d :: r)) as [[pre' post']|] eqn:E; [|discriminate].
    intros H. injection H as <- <-.
    change (d :: r ++ b) with ((d :: r) ++ b).
    now rewrite (IH pre' post' eq_refl).
Qed.

Lemma noBlankLine_cut (s : jsstring) :
  noBlankLine s = true -> cutAtBlankLine s = None.
Proof.
  induction s as [|c s IH]; [reflexivity|].
  cbn [noBlankLine cutAtBlankLine]. destruct s as [|d r]; [reflexivity|].
  intros H. apply andb_true_iff in H. destruct H as (H1 & H2).
  apply negb_true_iff in H1. rewrite H1. now rewrite (IH H2).
Qed.

(** *** The inner loop *)

Lemma pump_step (fuel : nat) (buffer : jsstring) :
  pump (S fuel) buffer
  = match cutAtBlankLine buffer with
    | None => ([], buffer)
    | Some (pre, post) =>
        (decodeChunk (trim pre) ++ fst (pump fuel post), snd (pump fuel post))
    end.
Proof.
  cbn [pump]. destruct (cutAtBlankLine buffer) as [[pre post]|]; [|reflexivity].
  unfold decodeChunk. destruct (pump fuel post) as [later left].
  destruct (stripPrefix (js "data:") (trim pre)) as [after|]; [|reflexivity].
  destruct (parse (trimStart after)); reflexivity.
Qed.

Lemma pump_empty (fuel : nat) : pump fuel [] = ([], []).
Proof. destruct fuel; reflexivity. Qed.

(** Fuel beyond the length of the buffer changes nothing. *)
Lemma pump_fuel (f1 : nat) :
  forall f2 buffer,
    (List.length buffer <= f1)%nat -> (List.length buffer <= f2)%nat ->
    pump f1 buffer = pump f2 buffer.
Proof.
  induction f1 as [|f1 IH]; intros f2 buffer H1 H2.
  - destruct buffer; [|simpl in H1; lia]. now rewrite !pump_empty.
  - destruct f2 as [|f2].
    + destruct buffer; [|simpl in H2; lia]. now rewrite !pump_empty.
    + rewrite !pump_step.
      destruct (cutAtBlankLine buffer) as [[pre post]|] eqn:E; [|reflexivity].
      apply cutAtBlankLine_length in E.
      rewrite (IH f2 post) by lia. reflexivity.
Qed.

Lemma readFrames_pump (fuel : nat) :
  forall buffer, readFrames fuel buffer = fst (pump fuel buffer).
Proof.
  induction fuel as [|fuel IH]; intros buffer; [reflexivity|].
  rewrite pump_step. cbn [readFrames].
  destruct (cutAtBlankLine buffer) as [[pre post]|]; [|reflexivity].
  cbn [fst]. rewrite IH. unfold decodeChunk.
  destruct (stripPrefix (js "data:") (trim pre)) as [after|]; [|reflexivity].
  destruct (parse (trimStart after)); reflexivity.
Qed.

(** What the loop leaves in the buffer holds no blank line. *)
Lemma pump_leftover (fuel : nat) :
  forall buffer,
    (List.length buffer <= fuel)%nat ->
    cutAtBlankLine (snd (pump fuel buffer)) = None.
Proof.
  induction fuel as [|fuel IH]; intros buffer H.
  - destruct buffer; [reflexivity | simpl in H; lia].
  - rewrite pump_step.
    destruct (cutAtBlankLine buffer) as [[pre post]|] eqn:E; [|exact E].
    cbn [snd]. apply IH. apply cutAtBlankLine_length in E. lia.
Qed.

(** Text that arrives later is read as if the loop had waited for it. *)
Lemma pump_app (fuel : nat) :
  forall a b f1 f2,
    (List.length a <= fuel)%nat ->
    (List.length (a ++ b) <= f1)%nat ->
    (List.length (snd (pump fuel a) ++ b) <= f2)%nat ->
    pump f1 (a ++ b)
    = (fst (pump fuel a) ++ fst (pump f2 (snd (pump fuel a) ++ b)),
       snd (pump f2 (snd (pump fuel a) ++ b))).
Proof.
  induction fuel as [|fuel IH]; intros a b f1 f2 Ha H1 H2.
  - destruct a; [|simpl in Ha; lia]. cbn [pump fst snd app] in *.
    rewrite (pump_fuel f1 f2 b H1 H2). now destruct (pump f2 b).
  - rewrite pump_step in *.
    destruct (cutAtBlankLine a) as [[pre post]|] eqn:E.
    + cbn [fst snd] in *.
      pose proof (cutAtBlankLine_length _ _ _ E) as Hlen.
      destruct f1 as [|f1]; [rewrite length_app in H1; lia|].
      rewrite pump_step, (cutAtBlankLine_app a b pre post E).
      rewrite length_app in H1.
      rewrite (IH post b f1 f2);
        [|lia | rewrite length_app; lia | exact H2].
      cbn [fst snd]. now rewrite app_assoc.
    + cbn [fst snd app] in *. rewrite (pump_fuel f1 f2 (a ++ b) H1 H2).
      now destruct (pump f2 (a ++ b)).
Qed.

(** *** The outer loop *)

Lemma readChunksFrom_pump (chunks : list jsstring) :
  forall buffer,
    cutAtBlankLine buffer = None ->
    readChunksFrom buffer chunks
    = fst (pump (List.length (buffer ++ List.concat chunks))
                (buffer ++ List.concat chunks)).
Proof.
  induction chunks as [|value rest IH]; intros buffer Hb.
  - cbn [readChunksFrom List.concat]. rewrite app_nil_r.
    destruct buffer as [|c r]; [reflexivity|].
    cbn [List.length]. rewrite pump_step, Hb. reflexivity.
  - cbn [readChunksFrom List.concat].
    destruct (pump (List.length (buffer ++ value)) (buffer ++ value))
      as [events left] eqn:E.
    assert (Hleft : cutAtBlankLine left = None).
    { replace left
        with (snd (pump (List.length (buffer ++ value)) (buffer ++ value)))
        by now rewrite E.
      apply pump_leftover. lia. }
    rewrite (IH left Hleft). rewrite app_assoc.
    rewrite (pump_app (List.length (buffer ++ value)) (buffer ++ value)
               (List.concat rest)
               (List.length ((buffer ++ value) ++ List.concat rest))
               (List.length (left ++ List.concat rest)));
      rewrite ?E; cbn [fst snd]; try lia.
    reflexivity.
Qed.

(** X4: the events a reader returns do not depend on how the transport
    cuts the body into chunks: reading chunk by chunk, with the buffer
    carried from one chunk to the next, gives what reading the whole body
    at once gives. *)
Theorem readChunks_readSSE (chunks : list jsstring) :
  readChunks chunks = readSSE (List.concat chunks).
Proof.
  unfold readChunks, readSSE. rewrite readFrames_pump.
  now rewrite (readChunksFrom_pump chunks [] eq_refl).
Qed.

(** *** Frames followed by an unfinished one *)

Lemma readFrames_cut_none (fuel : nat) (buffer : jsstring) :
  cutAtBlankLine buffer = None -> readFrames fuel buffer = [].
Proof. intros H. destruct fuel; [reflexivity|]. cbn [readFrames]. now rewrite H. Qed.

Lemma readFrames_bodyOf (events : list GeminiSSEEvent) (tail : jsstring) :
  forallb isWireEvent events = true ->
  cutAtBlankLine tail = None ->
  forall fuel, (List.length events <= fuel)%nat ->
  readFrames fuel (bodyOf events ++ tail)
  = List.map (fun e => unsignZero (toJS e)) events.
Proof.
  intros Hw Ht. induction events as [|e events IH]; intros fuel Hf.
  - cbn [bodyOf List.map List.concat app]. now apply readFrames_cut_none.
  - cbn [forallb] in Hw. apply andb_true_iff in Hw. destruct Hw as (He & Hw).
    destruct fuel as [|fuel]; [cbn [List.length] in Hf; lia|].
    unfold bodyOf. cbn [List.map List.concat]. rewrite <- app_assoc.
    rewrite (readFrames_frame e _ fuel He). f_equal.
    apply (IH Hw). cbn [List.length] in Hf. lia.
Qed.

Lemma length_bodyOf (events : list GeminiSSEEvent) :
  (List.length events <= List.length (bodyOf events))%nat.
Proof.
  induction events as [|e events IH]; [apply Nat.le_refl|].
  unfold bodyOf in *. cbn [List.map List.concat List.length].
  rewrite length_app. pose proof (length_sseEvent (toJS e)). lia.
Qed.

Lemma map_unsignZero_id (events : list GeminiSSEEvent) :
  forallb (fun e => noNegativeZero (toJS e)) events = true ->
  List.map (fun e => unsignZero (toJS e)) events = List.map toJS events.
Proof.
  intros H. apply map_ext_in. intros e He.
  rewrite forallb_forall in H. apply unsignZero_id. now apply H.
Qed.

(** X5: a body made of the frames of wire events, whatever JSON values
    they carry, cut into chunks at any places and ending with an
    unfinished frame or not, is read as those events in order, each with
    its negative zeros replaced by zero: as exactly those events when
    none holds a negative zero. The unfinished frame is dropped. *)
Theorem readChunks_events (events : list GeminiSSEEvent) (tail : jsstring)
    (chunks : list jsstring) :
  forallb isWireEvent events = true ->
  noBlankLine tail = true ->
  List.concat chunks = bodyOf events ++ tail ->
  readChunks chunks = List.map (fun e => unsignZero (toJS e)) events
  /\ (forallb (fun e => noNegativeZero (toJS e)) events = true ->
      readChunks chunks = List.map toJS events).
Proof.
  intros Hw Ht Hc.
  assert (H : readChunks chunks
              = List.map (fun e => unsignZero (toJS e)) events).
  { unfold readChunks.
    rewrite (readChunksFrom_pump chunks [] eq_refl), <- readFrames_pump.
    cbn [app]. rewrite Hc.
    apply readFrames_bodyOf; [exact Hw | now apply noBlankLine_cut|].
    rewrite length_app. pose proof (length_bodyOf events). lia. }
  split; [exact H|].
  intros Hz. rewrite H. now apply map_unsignZero_id.
Qed.

Lemma readChunks_events_witness :
  forallb isWireEvent [EvOpen; sampleEvent; negativeZeroEvent] = true /\
  noBlankLine (js "data: {") = true /\
  List.concat sampleChunks
  = bodyOf [EvOpen; sampleEvent; negativeZeroEvent] ++ js "data: {" /\
  readChunks sampleChunks
  = [toJS EvOpen; toJS sampleEvent; toJS (EvMessage (JSNumber (Zero false)))].
Proof.
  assert (Hw : forallb isWireEvent [EvOpen; sampleEvent; negativeZeroEvent]
               = true) by (vm_compute; reflexivity).
  assert (Hcut : List.concat sampleChunks
                 = bodyOf [EvOpen; sampleEvent; negativeZeroEvent]
                   ++ js "data: {")
    by (vm_compute; reflexivity).
  split; [exact Hw|]. split; [reflexivity|]. split; [exact Hcut|].
  exact (proj1 (readChunks_events [EvOpen; sampleEvent; negativeZeroEvent]
                  (js "data: {") sampleChunks Hw eq_refl Hcut)).
Defined.

(** *** The reader of the API document *)

Lemma stripPrefix_inv (p s r : jsstring) :
  stripPrefix p s = Some r -> s = p ++ r.
Proof.
  revert s. induction p as [|x p IH]; intros s; cbn [stripPrefix].
  - intros H. now injection H as ->.
  - destruct s as [|y s]; [discriminate|].
    destruct (x =? y) eqn:E; [|discriminate].
    apply N.eqb_eq in E. subst y. intros H. cbn [app]. f_equal. now apply IH.
Qed.

Lemma length_trimStart (s : jsstring) :
  (List.length (trimStart s) <= List.length s)%nat.
Proof.
  destruct (trimStart_prefix s) as (w & _ & E).
  rewrite E at 2. rewrite length_app. lia.
Qed.

Lemma trimStart_app_fixed (x a : jsstring) :
  trimStart (x ++ a) = x ++ a -> trimStart x = x.
Proof.
  rewrite trimStart_app. destruct (whitespaceOnly x) eqn:E.
  - intros H. pose proof (length_trimStart a) as Hl.
    rewrite H, length_app in Hl.
    destruct x; [reflexivity | simpl in Hl; lia].
  - intros H. now apply app_inv_tail in H.
Qed.

Lemma trimEnd_app_fixed (a x : jsstring) :
  trimEnd (a ++ x) = a ++ x -> trimEnd x = x.
Proof.
  unfold trimEnd. intros H.
  apply (f_equal (@rev N)) in H. rewrite rev_involutive, rev_app_distr in H.
  apply trimStart_app_fixed in H. now rewrite H, rev_involutive.
Qed.

(** After [data:] in a trimmed frame, trimming both ends removes what
    [/^data:\s*/] removes. *)
Lemma trim_after_prefix (pre after : jsstring) :
  stripPrefix (js "data:") (trim pre) = Some after ->
  trim after = trimStart after.
Proof.
  intros H. apply stripPrefix_inv in H.
  destruct (trimStart_prefix after) as (w & _ & E).
  assert (Hfix : trimEnd (trim pre) = trim pre) by apply trimEnd_idem.
  rewrite H, E, app_assoc in Hfix.
  apply trimEnd_app_fixed in Hfix. exact Hfix.
Qed.

Lemma postFrames_readFrames (fuel : nat) :
  forall buffer, postFrames fuel buffer = readFrames fuel buffer.
Proof.
  induction fuel as [|fuel IH]; intros buffer; [reflexivity|].
  cbn [postFrames readFrames].
  destruct (cutAtBlankLine buffer) as [[pre post]|]; [|reflexivity].
  rewrite IH.
  destruct (stripPrefix (js "data:") (trim pre)) as [after|] eqn:E;
    [|reflexivity].
  rewrite (trim_after_prefix pre after E).
  destruct (trimStart after) as [|c r]; reflexivity.
Qed.

(** X6: the reader of the API document ([postSSE]) and the reader of the
    test-suite and of the client example ([readSSE]) return the same
    events for every body, frames of other servers included. *)
Theorem postSSE_readSSE (body : jsstring) : postSSE body = readSSE body.
Proof. apply postFrames_readFrames. Qed.

End ReaderFacts.

(** ** The bridge: from the first signal to the end *)

Module LifecycleFacts.
Import JSStr JSON Sse Bridge Reader Lifecycle.
Import JSStrFacts JSONRoundTrip SseFacts BridgeFacts BridgeRuns ReaderFacts.
Local Open Scope N_scope.

Section Encoder.
Variable encode : JSValue -> jsstring.

(** *** A stream that is closing *)

Lemma run_closing (p : Proc) :
  forall st,
    closeRequested st = true ->
    written (run p st) = written st /\
    queue (run p st) = queue st /\
    closeRequested (run p st) = true /\
    streamClosed (run p st) = streamClosed st.
Proof.
  induction p as [| |frame a IHa b IHb|a IHa b IHb|a IHa b IHb]; intros st Hc;
    cbn [run].
  - now repeat split.
  - now repeat split.
  - rewrite Hc. now apply IHb.
  - rewrite Hc. now apply IHb.
  - destruct (sessionClosed st && sessionStrict st); [now apply IHb|].
    match goal with |- context [run a ?s] => specialize (IHa s Hc) end.
    exact IHa.
Qed.

Lemma step_closing (st : State) (a : Action) :
  closeRequested st = true ->
  written (step encode st a) = written st /\
  closeRequested (step encode st a) = true.
Proof.
  intros Hc. destruct a as [s| |]; cbn [step].
  - destruct (run_closing (callback encode s) st Hc) as (H1 & _ & H2 & _).
    now split.
  - destruct (queue st) as [|[req k] later]; [now split|].
    match goal with |- context [run k ?s] =>
      destruct (run_closing k s Hc) as (H1 & _ & H2 & _) end.
    now split.
  - destruct (run_closing onabort st Hc) as (H1 & _ & H2 & _). now split.
Qed.

Lemma exec_closing (schedule : list Action) :
  forall st,
    closeRequested st = true ->
    written (exec encode st schedule) = written st /\
    closeRequested (exec encode st schedule) = true.
Proof.
  induction schedule as [|a schedule IH]; intros st Hc; [now split|].
  change (exec encode st (a :: schedule))
    with (exec encode (step encode st a) schedule).
  destruct (step_closing st a Hc) as (H1 & H2).
  destruct (IH _ H2) as (H3 & H4). split; [congruence | exact H4].
Qed.

(** *** The close request is never lost *)

Lemma closeQueued_app (q r : list (Pending * Proc)) :
  closeQueued (q ++ r) = closeQueued q || closeQueued r.
Proof. apply existsb_app. Qed.

Lemma closing_run (p : Proc) :
  forall st, closing st -> closing (run p st).
Proof.
  induction p as [| |frame a IHa b IHb|a IHa b IHb|a IHa b IHb]; intros st Hst;
    cbn [run].
  - exact Hst.
  - exact Hst.
  - destruct (closeRequested st) eqn:Hc; [now apply IHb|].
    unfold closing. cbn [closeRequested]. congruence.
  - destruct (closeRequested st) eqn:Hc; [now apply IHb|].
    unfold closing. cbn [closeRequested streamClosed queue]. intros _. right.
    rewrite closeQueued_app. cbn. apply orb_true_r.
  - destruct (sessionClosed st && sessionStrict st); [now apply IHb|].
    apply IHa. exact Hst.
Qed.

Lemma closing_step (st : State) (a : Action) :
  closing st -> closing (step encode st a).
Proof.
  intros Hst. destruct a as [s| |]; cbn [step]; try now apply closing_run.
  destruct (queue st) as [|[req k] later] eqn:E; [exact Hst|].
  apply closing_run. unfold closing in *.
  cbn [closeRequested streamClosed queue]. intros Hc.
  specialize (Hst Hc). rewrite E in Hst.
  destruct req; [|now left].
  destruct Hst as [H | H]; [now left | right; exact H].
Qed.

Lemma closing_exec (schedule : list Action) :
  forall st, closing st -> closing (exec encode st schedule).
Proof.
  induction schedule as [|a schedule IH]; intros st Hst; [exact Hst|].
  apply (IH (step encode st a)). now apply closing_step.
Qed.

Lemma closing_drainFor (fuel : nat) :
  forall st, closing st -> closing (drainFor encode fuel st).
Proof.
  induction fuel as [|fuel IH]; intros st Hst; [exact Hst|].
  cbn [drainFor]. destruct (queue st); [exact Hst|].
  apply IH. now apply closing_step.
Qed.

Lemma closing_initial (strict : bool) : closing (initial strict).
Proof. unfold closing. cbn. discriminate. Qed.

(** *** Terminal signals *)

Lemma closeWith_endMessage (s : Signal) (next : Proc) :
  closeWith encode (endMessage s) next
  = Write (encode (toJS (EvEnd (Some (endMessage s)))))
      (CloseWriter next next) (CloseWriter next next).
Proof. destruct s; reflexivity. Qed.

Lemma callback_terminal (s : Signal) :
  isTerminal s = true ->
  callback encode s = Write (encode (toJS (eventOf s))) (afterwards encode s) Reject.
Proof.
  destruct s as [|m|m|r]; cbn [isTerminal]; intros H;
    [discriminate| | |]; unfold afterwards; cbn [callback closesSession eventOf endMessage].
  - unfold onmessage. now rewrite H.
  - reflexivity.
  - reflexivity.
Qed.

Lemma callback_quiet (s : Signal) :
  isTerminal s = false ->
  callback encode s = Write (encode (toJS (eventOf s))) Return Reject.
Proof.
  destruct s as [|m|m|r]; cbn [isTerminal]; intros H; try discriminate.
  - reflexivity.
  - cbn [callback eventOf]. unfold onmessage. now rewrite H.
Qed.

Lemma finishes_afterwards (s : Signal) : finishes (afterwards encode s) = true.
Proof.
  unfold afterwards. rewrite closeWith_endMessage.
  destruct (closesSession s); reflexivity.
Qed.

Lemma willClose_terminal (st : State) (s : Signal) :
  isTerminal s = true -> willClose (step encode st (Deliver s)) = true.
Proof.
  intros Hs. cbn [step]. rewrite (callback_terminal s Hs). cbn [run].
  unfold willClose. destruct (closeRequested st) eqn:Hc.
  - cbn [run closeRequested]. rewrite ?Hc. reflexivity.
  - cbn [closeRequested queue]. rewrite existsb_app. cbn [existsb snd].
    rewrite finishes_afterwards. cbn. apply orb_true_r.
Qed.

End Encoder.

(** X7: once [writer.close()] has been called the body is fixed: whatever
    signals arrive, whatever is served and whether or not the client
    disconnects, no further chunk is accepted and the stream stays
    closing. *)
Theorem closed_writer_keeps_body (encode : JSValue -> jsstring) (st : State)
    (schedule : list Action) :
  closeRequested st = true ->
  written (exec encode st schedule) = written st /\
  closeRequested (exec encode st schedule) = true.
Proof. apply exec_closing. Qed.

Lemma closed_writer_keeps_body_witness :
  closeRequested (finalize sseEvent JSNull (initial false)) = true /\
  written (exec sseEvent (finalize sseEvent JSNull (initial false))
             (faultThenClose ++ readToEnd))
  = written (finalize sseEvent JSNull (initial false)) /\
  closeRequested (exec sseEvent (finalize sseEvent JSNull (initial false))
                    (faultThenClose ++ readToEnd)) = true.
Proof.
  split; [reflexivity|].
  exact (closed_writer_keeps_body sseEvent
           (finalize sseEvent JSNull (initial false))
           (faultThenClose ++ readToEnd) eq_refl).
Defined.

(** X8: whatever happened before, in any interleaving, once a terminal
    signal (an error, a closure, a message with [turnComplete]) has been
    delivered and the pending requests are served, the stream is closed,
    and nothing that happens later adds a chunk. *)
Theorem terminal_signal_closes_stream (encode : JSValue -> jsstring)
    (strict : bool) (schedule : list Action) (s : Signal) :
  isTerminal s = true ->
  let st := ended encode strict schedule s in
  streamClosed st = true /\ queue st = [] /\
  forall later, written (exec encode st later) = written st.
Proof.
  intros Hs. cbv zeta. unfold ended.
  set (before := exec encode (initial strict) schedule).
  assert (Hq : queue (drain encode (step encode before (Deliver s))) = [])
    by apply drain_empty.
  assert (Hw : willClose (drain encode (step encode before (Deliver s))) = true).
  { apply willClose_drainFor. now apply willClose_terminal. }
  assert (Hc : closeRequested (drain encode (step encode before (Deliver s)))
               = true).
  { unfold willClose in Hw. rewrite Hq in Hw. cbn [existsb] in Hw.
    now rewrite orb_false_r in Hw. }
  assert (Hin : closing (drain encode (step encode before (Deliver s)))).
  { apply closing_drainFor, closing_step, closing_exec, closing_initial. }
  split; [|split; [exact Hq|]].
  - destruct (Hin Hc) as [H | H]; [exact H|].
    rewrite Hq in H. discriminate.
  - intros later. now apply exec_closing.
Qed.

Lemma terminal_signal_closes_stream_witness :
  isTerminal (SigClose (js "done")) = true /\
  let st := ended sseEvent true faultThenClose (SigClose (js "done")) in
  streamClosed st = true /\ queue st = [] /\
  forall later, written (exec sseEvent st later) = written st.
Proof.
  split; [reflexivity|].
  exact (terminal_signal_closes_stream sseEvent true faultThenClose
           (SigClose (js "done")) eq_refl).
Defined.

Section Quiet.
Variable encode : JSValue -> jsstring.

(** *** Before any terminal signal *)

Lemma frames_snoc (signals : list Signal) (s : Signal) :
  frames encode (signals ++ [s])
  = frames encode signals ++ [encode (toJS (eventOf s))].
Proof. unfold frames. now rewrite map_app. Qed.

Lemma forwarding_step (st : State) (signals : list Signal) (aborted : bool)
    (a : Action) :
  quiet a = true ->
  forwarding encode st signals aborted ->
  forwarding encode (step encode st a) (signals ++ delivered [a])
             (aborted || isAbort a).
Proof.
  intros Ha (Hw & Hq & Hc & Hs & Hr & Ho). destruct a as [s| |];
    cbn [quiet isAbort delivered] in *.
  - apply negb_true_iff in Ha. cbn [step]. rewrite (callback_quiet encode s Ha).
    cbn [run]. rewrite Hc. unfold forwarding.
    cbn [written queue closeRequested streamClosed rejections sessionClosed].
    rewrite frames_snoc, Hw, orb_false_r.
    unfold idleWrites in *. rewrite forallb_app, Hq.
    repeat split; assumption || reflexivity.
  - rewrite app_nil_r, orb_false_r. cbn [step].
    destruct (queue st) as [|[req k] later] eqn:E;
      [unfold forwarding; rewrite E; repeat split; assumption|].
    cbn [idleWrites forallb] in Hq.
    destruct req; [|discriminate]. destruct k; try discriminate.
    cbn [run]. unfold forwarding.
    cbn [written queue closeRequested streamClosed rejections sessionClosed].
    repeat split; assumption.
  - rewrite app_nil_r, orb_true_r. cbn [step]. unfold onabort. cbn [run].
    destruct (sessionClosed st && sessionStrict st) eqn:E.
    + apply andb_true_iff in E. destruct E as (E & _).
      unfold forwarding. repeat split; assumption.
    + unfold forwarding.
      cbn [written queue closeRequested streamClosed rejections sessionClosed].
      repeat split; assumption.
Qed.

Lemma forwarding_exec (schedule : list Action) :
  forall st signals aborted,
    forallb quiet schedule = true ->
    forwarding encode st signals aborted ->
    forwarding encode (exec encode st schedule) (signals ++ delivered schedule)
               (aborted || existsb isAbort schedule).
Proof.
  induction schedule as [|a schedule IH]; intros st signals aborted Hq Hst.
  - cbn [delivered existsb]. now rewrite app_nil_r, orb_false_r.
  - cbn [forallb] in Hq. apply andb_true_iff in Hq. destruct Hq as (Ha & Hq).
    change (exec encode st (a :: schedule))
      with (exec encode (step encode st a) schedule).
    pose proof (IH _ _ _ Hq (forwarding_step st signals aborted a Ha Hst)) as H.
    replace (signals ++ delivered (a :: schedule))
      with ((signals ++ delivered [a]) ++ delivered schedule)
      by (rewrite <- app_assoc; destruct a; reflexivity).
    cbn [existsb]. now rewrite orb_assoc.
Qed.

Lemma forwarding_initial (strict : bool) : forwarding encode (initial strict) [] false.
Proof. unfold forwarding. now repeat split. Qed.

(** *** Serving what is queued *)

Lemma drain_idle_write (w : list jsstring) (later : list (Pending * Proc))
    (cr sc ss strict : bool) (r : nat) :
  drain encode (mkState w ((ReqWrite, Return) :: later) cr sc ss strict r)
  = drain encode (mkState w later cr sc ss strict r).
Proof. reflexivity. Qed.

Lemma drain_idle_writes (q rest : list (Pending * Proc)) (w : list jsstring)
    (cr sc ss strict : bool) (r : nat) :
  idleWrites q = true ->
  drain encode (mkState w (q ++ rest) cr sc ss strict r)
  = drain encode (mkState w rest cr sc ss strict r).
Proof.
  induction q as [|[req k] q IH]; intros Hq; [reflexivity|].
  cbn [idleWrites forallb] in Hq.
  destruct req; [|discriminate]. destruct k; try discriminate.
  cbn [app]. rewrite drain_idle_write. now apply IH.
Qed.

Lemma drain_afterwards (s : Signal) (w : list jsstring) (ss strict : bool)
    (r : nat) :
  let st := drain encode
              (mkState w [(ReqWrite, afterwards encode s)] false false ss strict r) in
  written st = w ++ [encode (toJS (EvEnd (Some (endMessage s))))] /\
  queue st = [] /\ closeRequested st = true /\ streamClosed st = true /\
  rejections st = r /\ sessionClosed st = ss || closesSession s.
Proof.
  cbv zeta. unfold afterwards. rewrite closeWith_endMessage.
  destruct (closesSession s); destruct ss; destruct strict;
    repeat split; reflexivity.
Qed.

End Quiet.

(** X9: while no terminal signal has arrived, every signal delivered is
    forwarded as one frame, in the order of arrival, no write is refused
    and the stream stays open; a client that disconnects closes the session
    handle and leaves the stream open. *)
Theorem quiet_run_forwards (encode : JSValue -> jsstring) (strict : bool)
    (schedule : list Action) :
  forallb quiet schedule = true ->
  let st := exec encode (initial strict) schedule in
  written st = frames encode (delivered schedule) /\
  closeRequested st = false /\ streamClosed st = false /\
  rejections st = 0%nat /\
  sessionClosed st = existsb isAbort schedule.
Proof.
  intros Hq. cbv zeta.
  destruct (forwarding_exec encode schedule (initial strict) [] false Hq
              (forwarding_initial encode strict))
    as (Hw & _ & Hc & Hs & Hr & Ho).
  repeat split; assumption.
Qed.

Lemma quiet_run_forwards_witness :
  forallb quiet quietRun = true /\
  let st := exec sseEvent (initial true) quietRun in
  written st = frames sseEvent (delivered quietRun) /\
  closeRequested st = false /\ streamClosed st = false /\
  rejections st = 0%nat /\
  sessionClosed st = existsb isAbort quietRun.
Proof.
  split; [reflexivity|].
  exact (quiet_run_forwards sseEvent true quietRun eq_refl).
Defined.

(** X10: a run with one terminal signal, after any quiet beginning and
    with the writes served at any pace: the frames of the signals in order,
    then one [end] frame that names the cause ([turn_complete], [error] or
    [closed]), and the stream is closed without a refused write; the
    session handle is closed when the signal was an error or the end of
    the turn. *)
Theorem single_terminal_signal_run (encode : JSValue -> jsstring)
    (strict : bool) (schedule : list Action) (s : Signal) :
  forallb quiet schedule = true ->
  isTerminal s = true ->
  let st := ended encode strict schedule s in
  written st
  = frames encode (delivered schedule)
    ++ [encode (toJS (eventOf s)); encode (toJS (EvEnd (Some (endMessage s))))] /\
  streamClosed st = true /\ queue st = [] /\ rejections st = 0%nat /\
  sessionClosed st = existsb isAbort schedule || closesSession s.
Proof.
  intros Hq Hs. cbv zeta. unfold ended.
  destruct (forwarding_exec encode schedule (initial strict) [] false Hq
              (forwarding_initial encode strict))
    as (Hw & Hi & Hc & Hsc & Hr & Ho).
  cbn [app orb] in *.
  set (before := exec encode (initial strict) schedule) in *.
  cbn [step]. rewrite (callback_terminal encode s Hs). cbn [run].
  rewrite Hc, Hw, Hsc, Hr, Ho.
  rewrite (drain_idle_writes encode (queue before)) by exact Hi.
  destruct (drain_afterwards encode s
              (frames encode (delivered schedule) ++ [encode (toJS (eventOf s))])
              (existsb isAbort schedule) (sessionStrict before) 0)
    as (H1 & H2 & _ & H4 & H5 & H6).
  rewrite H1, <- app_assoc. repeat split; assumption.
Qed.

Lemma single_terminal_signal_run_witness :
  forallb quiet quietRun = true /\
  isTerminal turnCompleteMessage = true /\
  let st := ended sseEvent true quietRun turnCompleteMessage in
  written st
  = frames sseEvent (delivered quietRun)
    ++ [sseEvent (toJS (eventOf turnCompleteMessage));
        sseEvent (toJS (EvEnd (Some (endMessage turnCompleteMessage))))] /\
  streamClosed st = true /\ queue st = [] /\ rejections st = 0%nat /\
  sessionClosed st = existsb isAbort quietRun || closesSession turnCompleteMessage.
Proof.
  split; [reflexivity|]. split; [reflexivity|].
  exact (single_terminal_signal_run sseEvent true quietRun turnCompleteMessage
           eq_refl eq_refl).
Defined.

(** *** Runs without overlap *)

Section Serial.
Variable encode : JSValue -> jsstring.

Lemma serial_app (st : State) (a b : list Signal) :
  serial encode st (a ++ b) = serial encode (serial encode st a) b.
Proof. unfold serial. apply fold_left_app. Qed.

Lemma callback_shape (s : Signal) :
  exists frame next, callback encode s = Write frame next Reject.
Proof. destruct s; eexists; eexists; reflexivity. Qed.

Lemma serial_quiet (signals : list Signal) :
  forall st before aborted,
    forallb (fun s => negb (isTerminal s)) signals = true ->
    forwarding encode st before aborted -> queue st = [] ->
    forwarding encode (serial encode st signals) (before ++ signals) aborted /\
    queue (serial encode st signals) = [].
Proof.
  induction signals as [|s signals IH]; intros st before aborted Hq Hst He.
  - rewrite app_nil_r. now split.
  - cbn [forallb] in Hq. apply andb_true_iff in Hq. destruct Hq as (Hs & Hq).
    change (serial encode st (s :: signals))
      with (serial encode (drain encode (step encode st (Deliver s))) signals).
    replace (before ++ s :: signals) with ((before ++ [s]) ++ signals)
      by now rewrite <- app_assoc.
    pose proof (forwarding_step encode st before aborted (Deliver s) Hs Hst)
      as Hstep.
    cbn [delivered isAbort] in Hstep. rewrite orb_false_r in Hstep.
    assert (Hd : drain encode (step encode st (Deliver s))
                 = mkState (written (step encode st (Deliver s))) []
                     false false aborted (sessionStrict st) 0).
    { destruct Hst as (Hw & _ & Hc & Hsc & Hr & Ho).
      apply negb_true_iff in Hs.
      cbn [step]. rewrite (callback_quiet encode s Hs). cbn [run].
      rewrite Hc, He, Hsc, Hr, Ho. reflexivity. }
    rewrite Hd. apply IH; [exact Hq| |reflexivity].
    destruct Hstep as (Hw & _). unfold forwarding.
    cbn [written queue closeRequested streamClosed rejections sessionClosed].
    now repeat split.
Qed.

Lemma serial_refused (signals : list Signal) :
  forall st,
    closeRequested st = true -> queue st = [] ->
    let st' := serial encode st signals in
    written st' = written st /\ queue st' = [] /\
    closeRequested st' = true /\ streamClosed st' = streamClosed st /\
    sessionClosed st' = sessionClosed st /\
    rejections st' = (rejections st + List.length signals)%nat.
Proof.
  induction signals as [|s signals IH]; intros st Hc He; cbv zeta.
  - cbn [serial fold_left List.length]. rewrite Nat.add_0_r. now repeat split.
  - change (serial encode st (s :: signals))
      with (serial encode (drain encode (step encode st (Deliver s))) signals).
    destruct (callback_shape s) as (frame & next & Hs).
    assert (Hd : drain encode (step encode st (Deliver s))
                 = mkState (written st) [] true (streamClosed st)
                     (sessionClosed st) (sessionStrict st) (S (rejections st))).
    { cbn [step]. rewrite Hs. cbn [run]. rewrite Hc, He. reflexivity. }
    rewrite Hd.
    match goal with |- context [serial encode ?s0 signals] =>
      destruct (IH s0 eq_refl eq_refl) as (H1 & H2 & H3 & H4 & H5 & H6) end.
    cbn [written streamClosed sessionClosed rejections] in *.
    rewrite H1, H2, H3, H4, H5, H6. cbn [List.length].
    repeat split; try reflexivity. lia.
Qed.

End Serial.

(** X11: a run in which no two callbacks overlap. The signals before the
    first terminal one are forwarded in order, the terminal one is
    followed by one [end] frame naming it, and the stream is closed; every
    signal that arrives later is refused by the closed writer, writes
    nothing, and leaves its callback rejected. *)
Theorem serial_run_frames (encode : JSValue -> jsstring) (strict : bool)
    (before later : list Signal) (s : Signal) :
  forallb (fun x => negb (isTerminal x)) before = true ->
  isTerminal s = true ->
  let st := serial encode (initial strict) (before ++ s :: later) in
  written st
  = frames encode before
    ++ [encode (toJS (eventOf s)); encode (toJS (EvEnd (Some (endMessage s))))] /\
  streamClosed st = true /\ queue st = [] /\
  rejections st = List.length later /\
  sessionClosed st = closesSession s.
Proof.
  intros Hq Hs. cbv zeta.
  rewrite serial_app.
  destruct (serial_quiet encode before (initial strict) [] false Hq
              (forwarding_initial encode strict) eq_refl)
    as ((Hw & _ & Hc & Hsc & Hr & Ho) & He).
  cbn [app] in Hw.
  set (st0 := serial encode (initial strict) before) in *.
  change (serial encode st0 (s :: later))
    with (serial encode (drain encode (step encode st0 (Deliver s))) later).
  destruct (drain_afterwards encode s
              (frames encode before ++ [encode (toJS (eventOf s))])
              false (sessionStrict st0) 0)
    as (H1 & H2 & H3 & H4 & H5 & H6).
  assert (Hd : drain encode (step encode st0 (Deliver s))
               = drain encode
                   (mkState (frames encode before ++ [encode (toJS (eventOf s))])
                      [(ReqWrite, afterwards encode s)] false false false
                      (sessionStrict st0) 0)).
  { cbn [step]. rewrite (callback_terminal encode s Hs). cbn [run].
    rewrite Hc, He, Hw, Hsc, Hr, Ho. reflexivity. }
  rewrite Hd.
  match goal with |- context [serial encode ?s0 later] =>
    destruct (serial_refused encode later s0 H3 H2)
      as (G1 & G2 & _ & G4 & G5 & G6)
  end.
  rewrite G1, G2, G4, G5, G6, H1, H4, H5, H6, <- app_assoc.
  now repeat split.
Qed.

Lemma serial_run_frames_witness :
  forallb (fun x => negb (isTerminal x)) [SigOpen] = true /\
  isTerminal (SigError (js "boom")) = true /\
  let st := serial sseEvent (initial false)
              ([SigOpen] ++ SigError (js "boom") :: [SigClose (js "error")]) in
  written st
  = frames sseEvent [SigOpen]
    ++ [sseEvent (toJS (eventOf (SigError (js "boom"))));
        sseEvent (toJS (EvEnd (Some (endMessage (SigError (js "boom"))))))] /\
  streamClosed st = true /\ queue st = [] /\
  rejections st = List.length [SigClose (js "error")] /\
  sessionClosed st = closesSession (SigError (js "boom")).
Proof.
  split; [reflexivity|]. split; [reflexivity|].
  exact (serial_run_frames sseEvent false [SigOpen] [SigClose (js "error")]
           (SigError (js "boom")) eq_refl eq_refl).
Defined.

(** *** What the client reads *)

Lemma concat_frames (signals : list Signal) :
  List.concat (frames sseEvent signals) = bodyOf (List.map eventOf signals).
Proof. unfold frames, bodyOf. now rewrite map_map. Qed.

Lemma forallb_eventOf (signals : list Signal) :
  forallb isWireEvent (List.map eventOf signals)
  = forallb (fun x => isWireEvent (eventOf x)) signals.
Proof.
  induction signals as [|s signals IH]; [reflexivity|].
  cbn [List.map forallb]. now rewrite IH.
Qed.

Lemma isWireEvent_end (s : Signal) :
  isWireEvent (EvEnd (Some (endMessage s))) = true.
Proof. destruct s; reflexivity. Qed.

Lemma unsignZero_end (s : Signal) :
  unsignZero (toJS (EvEnd (Some (endMessage s))))
  = toJS (EvEnd (Some (endMessage s))).
Proof. destruct s; reflexivity. Qed.

(** X12: in such a run of [POST], when the payloads are JSON values of
    any kind, a client that reads the body to its end finds the delivered
    events in order, each with its negative zeros replaced by zero, then
    one [end] event; the same holds of [GET], whose encoder is the same
    function. *)
Theorem single_terminal_signal_read_back (strict : bool)
    (schedule : list Action) (s : Signal) :
  forallb quiet schedule = true ->
  isTerminal s = true ->
  forallb (fun x => isWireEvent (eventOf x)) (delivered schedule ++ [s]) = true ->
  readSSE (List.concat (written (ended sseEvent strict schedule s)))
  = List.map (fun x => unsignZero (toJS (eventOf x))) (delivered schedule)
    ++ [unsignZero (toJS (eventOf s)); toJS (EvEnd (Some (endMessage s)))] /\
  (forallb (fun x => noNegativeZero (toJS (eventOf x)))
           (delivered schedule ++ [s]) = true ->
   readSSE (List.concat (written (ended sseEvent strict schedule s)))
   = List.map (fun x => toJS (eventOf x)) (delivered schedule)
     ++ [toJS (eventOf s); toJS (EvEnd (Some (endMessage s)))]) /\
  written (ended sseEventLocal strict schedule s)
  = written (ended sseEvent strict schedule s).
Proof.
  intros Hq Hs Hwire.
  assert (H : readSSE (List.concat (written (ended sseEvent strict schedule s)))
              = List.map (fun x => unsignZero (toJS (eventOf x)))
                  (delivered schedule)
                ++ [unsignZero (toJS (eventOf s));
                    toJS (EvEnd (Some (endMessage s)))]).
  { destruct (single_terminal_signal_run sseEvent strict schedule s Hq Hs)
      as (Hw & _).
    rewrite Hw.
    change [sseEvent (toJS (eventOf s));
            sseEvent (toJS (EvEnd (Some (endMessage s))))]
      with (frames sseEvent [s]
            ++ [sseEvent (toJS (EvEnd (Some (endMessage s))))]).
    rewrite app_assoc. unfold frames at 1 2. rewrite <- map_app.
    set (all := List.map eventOf (delivered schedule ++ [s])
                ++ [EvEnd (Some (endMessage s))]).
    transitivity (List.map (fun e => unsignZero (toJS e)) all).
    - rewrite <- (readSSE_concat all).
      + f_equal. unfold all. rewrite !map_app, !map_map. reflexivity.
      + unfold all. rewrite forallb_app, forallb_eventOf, Hwire.
        cbn [forallb]. now rewrite isWireEvent_end.
    - unfold all. rewrite !map_app, !map_map, <- app_assoc.
      cbn [List.map app]. now rewrite unsignZero_end. }
  split; [exact H|]. split; [|reflexivity].
  intros Hz. rewrite H. rewrite forallb_app in Hz.
  apply andb_true_iff in Hz. destruct Hz as (Hd & Hlast).
  cbn [forallb] in Hlast. rewrite andb_true_r in Hlast.
  rewrite (unsignZero_id _ Hlast). f_equal.
  apply map_ext_in. intros x Hx. apply unsignZero_id.
  rewrite forallb_forall in Hd. now apply Hd.
Qed.

Lemma single_terminal_signal_read_back_witness :
  forallb quiet numbersRun = true /\
  isTerminal turnCompleteMessage = true /\
  forallb (fun x => isWireEvent (eventOf x))
          (delivered numbersRun ++ [turnCompleteMessage]) = true /\
  readSSE (List.concat (written (ended sseEvent true numbersRun turnCompleteMessage)))
  = List.map (fun x => unsignZero (toJS (eventOf x))) (delivered numbersRun)
    ++ [unsignZero (toJS (eventOf turnCompleteMessage));
        toJS (EvEnd (Some (endMessage turnCompleteMessage)))].
Proof.
  assert (Hq : forallb quiet numbersRun = true) by (vm_compute; reflexivity).
  assert (Hw : forallb (fun x => isWireEvent (eventOf x))
                 (delivered numbersRun ++ [turnCompleteMessage]) = true)
    by (vm_compute; reflexivity).
  split; [exact Hq|]. split; [reflexivity|]. split; [exact Hw|].
  exact (proj1 (single_terminal_signal_read_back true numbersRun
                  turnCompleteMessage Hq eq_refl Hw)).
Defined.

End LifecycleFacts.

(** ** The handlers: clients, failures, headers, bodies *)

Module HandlerFacts.
Import JSStr JSON Sse Cors Route Reader Usage.
Import JSStrFacts JSONFacts JSONRoundTrip SseFacts CorsFacts RouteFacts.
Import OriginFacts ReaderFacts.
Local Open Scope N_scope.

(** *** Bodies of failures *)

Lemma noLF_cut (s : jsstring) : noLF s -> cutAtBlankLine s = None.
Proof.
  induction s as [|c s IH]; intros H; [reflexivity|].
  inversion H as [|? ? Hc Hs]; subst. cbn [cutAtBlankLine].
  destruct s as [|d r]; [reflexivity|].
  apply N.eqb_neq in Hc. rewrite Hc. cbn [andb]. now rewrite (IH Hs).
Qed.

Lemma text_decodes (v : JSValue) :
  isJson v = true ->
  exists text,
    interpolate (stringify v) = text /\ parse text = Some (unsignZero v)
    /\ readSSE text = [].
Proof.
  intros Hv. pose proof (stringify_json v Hv) as Hs.
  exists (render v). rewrite Hs. cbn [interpolate].
  split; [reflexivity|]. split; [now apply parse_stringify|].
  apply readFrames_cut_none, noLF_cut. now apply (stringify_noLF v).
Qed.



Lemma hget_jsonType_other (h : Headers) (name : jsstring) :
  eqb (toLowerAscii name) (js "content-type") = false ->
  hget (jsonType h) name = hget h name.
Proof. intros H. unfold jsonType. now apply hget_hset_other. Qed.

(** *** [createGenAI] *)

Lemma whenTruthy_Some (v : option jsstring) (s : jsstring) :
  whenTruthy v = Some s -> v = Some s /\ s <> [].
Proof.
  destruct v as [[|c r]|]; cbn; intros H; try discriminate.
  injection H as <-. split; [reflexivity | discriminate].
Qed.

Lemma whenTruthy_not_empty (v : option jsstring) : whenTruthy v <> Some [].
Proof. destruct v as [[|c r]|]; cbn; discriminate. Qed.

(** X13: the client [createGenAI] builds. Under the hosted flag it is the
    hosted client, with the project and the location of the environment,
    both non-empty, and the key variables are not looked at; otherwise it
    holds a non-empty key, [GOOGLE_API_KEY] when that is set and not
    empty, [GEMINI_API_KEY] when it is not. The API version is never the
    empty text. *)
Theorem createGenAI_client (env : Env) (c : Client) :
  createGenAI env = inl c ->
  match c with
  | VertexClient project location version =>
      useVertex env = true /\
      getenv env (js "GOOGLE_CLOUD_PROJECT") = Some project /\ project <> [] /\
      getenv env (js "GOOGLE_CLOUD_LOCATION") = Some location /\
      location <> [] /\ version <> Some []
  | ApiKeyClient key version =>
      useVertex env = false /\ key <> [] /\ version <> Some [] /\
      (getenv env (js "GOOGLE_API_KEY") = Some key \/
       whenTruthy (getenv env (js "GOOGLE_API_KEY")) = None /\
       getenv env (js "GEMINI_API_KEY") = Some key)
  end.
Proof.
  unfold createGenAI. destruct (useVertex env).
  - destruct (whenTruthy (getenv env (js "GOOGLE_CLOUD_PROJECT")))
      as [project|] eqn:Ep; [|discriminate].
    destruct (whenTruthy (getenv env (js "GOOGLE_CLOUD_LOCATION")))
      as [location|] eqn:El; [|discriminate].
    intros H. injection H as <-.
    apply whenTruthy_Some in Ep, El. destruct Ep as (Ep & Hp), El as (El & Hl).
    repeat split; try assumption. apply whenTruthy_not_empty.
  - unfold apiKeyOf.
    destruct (whenTruthy (getenv env (js "GOOGLE_API_KEY"))) as [k|] eqn:Ek.
    + intros H. injection H as <-. apply whenTruthy_Some in Ek.
      destruct Ek as (Ek & Hk).
      repeat split; try assumption; [apply whenTruthy_not_empty | now left].
    + destruct (whenTruthy (getenv env (js "GEMINI_API_KEY"))) as [k|] eqn:Eg;
        [|discriminate].
      intros H. injection H as <-. apply whenTruthy_Some in Eg.
      destruct Eg as (Eg & Hk).
      repeat split; try assumption; [apply whenTruthy_not_empty | now right].
Qed.

Lemma createGenAI_client_witness :
  createGenAI emptyFirstKey = inl (ApiKeyClient (js "test-key") None) /\
  useVertex emptyFirstKey = false /\ js "test-key" <> [] /\
  None <> Some (@nil N) /\
  (getenv emptyFirstKey (js "GOOGLE_API_KEY") = Some (js "test-key") \/
   whenTruthy (getenv emptyFirstKey (js "GOOGLE_API_KEY")) = None /\
   getenv emptyFirstKey (js "GEMINI_API_KEY") = Some (js "test-key")).
Proof.
  split; [reflexivity|].
  exact (createGenAI_client emptyFirstKey (ApiKeyClient (js "test-key") None)
           eq_refl).
Defined.

(** X14: under the hosted flag an API key does not help: when the project
    or the location is missing, [POST] and [GET] answer with the
    configuration failure of the hosted mode whether or not a key is
    set. *)
Theorem hosted_flag_ignores_api_key (env : Env) (req : Request)
    (remote : Connect) (probe : Probe) :
  useVertex env = true ->
  hostedIdentityComplete env = false ->
  configurationFailure (POST env req remote) vertexMessage /\
  configurationFailure (GET env req remote probe) vertexMessage.
Proof.
  intros Hv Hh.
  assert (Hc : createGenAI env = inr vertexMessage).
  { unfold createGenAI, hostedIdentityComplete in *. rewrite Hv in *.
    cbn [andb] in Hh.
    destruct (whenTruthy (getenv env (js "GOOGLE_CLOUD_PROJECT")));
      [|reflexivity].
    destruct (whenTruthy (getenv env (js "GOOGLE_CLOUD_LOCATION")));
      [discriminate | reflexivity]. }
  destruct (errorBody_json vertexMessage (or_introl eq_refl))
    as (text & Hb & Hp & Hf).
  unfold configurationFailure, streamed, POST, GET, failure. rewrite Hc.
  cbn [response status body headers opened]. rewrite Hb.
  split; (split; [reflexivity|]);
    (split; [exists text; repeat split; assumption|]);
    (split; [apply hget_jsonType|]); split; reflexivity.
Qed.

Lemma hosted_flag_ignores_api_key_witness :
  apiKeyPresent hostedWithKey = true /\
  useVertex hostedWithKey = true /\
  hostedIdentityComplete hostedWithKey = false /\
  configurationFailure (POST hostedWithKey helloRequest Connected) vertexMessage /\
  configurationFailure (GET hostedWithKey helloRequest Connected (ProbeError []))
    vertexMessage.
Proof.
  split; [reflexivity|]. split; [reflexivity|]. split; [reflexivity|].
  exact (hosted_flag_ignores_api_key hostedWithKey helloRequest Connected
           (ProbeError []) eq_refl eq_refl).
Defined.

(** *** Failures of the two handlers *)

(** X15: when the client cannot be created, the answer of [POST] carries
    the content type and nothing else, no CORS header among them, while
    the answer of [GET] carries the CORS headers of the request. *)
Theorem POST_configuration_error_headers (env : Env) (req : Request)
    (remote : Connect) (probe : Probe) (msg : jsstring) :
  createGenAI env = inr msg ->
  headers (response (POST env req remote))
  = [(js "content-type", js "application/json")] /\
  (forall name,
     eqb (toLowerAscii name) (js "content-type") = false ->
     hget (headers (response (POST env req remote))) name = None /\
     hget (headers (response (GET env req remote probe))) name
     = hget (corsHeaders env (originOf req)) name).
Proof.
  intros Hc. unfold POST, GET, failure. rewrite Hc.
  cbn [response headers]. split; [reflexivity|].
  intros name Hn. split.
  - unfold jsonType, hset, hget. cbn [setRaw getRaw].
    change (toLowerAscii (js "content-type")) with (js "content-type").
    now rewrite Hn.
  - now apply hget_jsonType_other.
Qed.

Lemma POST_configuration_error_headers_witness :
  createGenAI listedOriginOnly = inr apiKeyMessage /\
  hget (headers (response (POST listedOriginOnly appRequest Connected)))
       allowOrigin = None /\
  hget (headers (response (GET listedOriginOnly appRequest Connected
                             (ProbeError []))))
       allowOrigin = Some appOrigin.
Proof.
  split; [reflexivity|].
  destruct (POST_configuration_error_headers listedOriginOnly appRequest
              Connected (ProbeError []) apiKeyMessage eq_refl)
    as (_ & H).
  destruct (H allowOrigin eq_refl) as (Hp & Hg).
  split; [exact Hp|]. rewrite Hg. reflexivity.
Defined.



(** *** The streaming response *)

Lemma hget_streamHeaders (h : Headers) :
  hget (streamHeaders h) (js "Content-Type")
  = Some (js "text/event-stream; charset=utf-8") /\
  hget (streamHeaders h) (js "Cache-Control")
  = Some (js "no-cache, no-transform") /\
  hget (streamHeaders h) (js "Connection") = Some (js "keep-alive") /\
  hget (streamHeaders h) (js "X-Accel-Buffering") = Some (js "no").
Proof.
  unfold streamHeaders. repeat split.
  - rewrite !hget_hset_other by reflexivity. apply hget_hset_same.
  - rewrite !hget_hset_other by reflexivity. apply hget_hset_same.
  - rewrite !hget_hset_other by reflexivity. apply hget_hset_same.
  - apply hget_hset_same.
Qed.

Lemma hget_streamHeaders_other (h : Headers) (name : jsstring) :
  includes streamHeaderNames (toLowerAscii name) = false ->
  hget (streamHeaders h) name = hget h name.
Proof.
  unfold includes, streamHeaderNames. cbn [existsb]. intros H.
  repeat (apply orb_false_iff in H; destruct H as (? & H)).
  unfold streamHeaders. now rewrite !hget_hset_other.
Qed.

(** X17: the answer that carries the stream is 200 with the event-stream
    content type and the three headers that keep proxies from caching or
    buffering it; every other header is the CORS header of the request,
    and [GET] answers with the same headers as [POST]. *)
Theorem streaming_response_headers (env : Env) (req : Request) (c : Client)
    (probe : Probe) :
  createGenAI env = inl c ->
  destructurable (jsonOrEmpty (bodyText req)) = true ->
  let p := response (POST env req Connected) in
  status p = 200%Z /\ body p = EventStream /\
  hget (headers p) (js "Content-Type")
  = Some (js "text/event-stream; charset=utf-8") /\
  hget (headers p) (js "Cache-Control") = Some (js "no-cache, no-transform") /\
  hget (headers p) (js "Connection") = Some (js "keep-alive") /\
  hget (headers p) (js "X-Accel-Buffering") = Some (js "no") /\
  (forall name,
     includes streamHeaderNames (toLowerAscii name) = false ->
     hget (headers p) name = hget (corsHeaders env (originOf req)) name) /\
  (healthRequested req = false ->
   status (response (GET env req Connected probe)) = 200%Z /\
   body (response (GET env req Connected probe)) = EventStream /\
   headers (response (GET env req Connected probe)) = headers p).
Proof.
  intros Hc Hd. cbv zeta.
  assert (Hp : exists m ts, POST env req Connected = streaming env req m ts).
  { unfold POST. rewrite Hc.
    destruct (jsonOrEmpty (bodyText req)); try discriminate Hd;
      eexists; eexists; reflexivity. }
  destruct Hp as (m & ts & Hp). rewrite Hp.
  unfold streaming. cbn [response status body headers].
  destruct (hget_streamHeaders (corsHeaders env (originOf req)))
    as (H1 & H2 & H3 & H4).
  repeat (split; [assumption || reflexivity|]).
  split; [intros name Hn; now apply hget_streamHeaders_other|].
  intros Hh. unfold GET. rewrite Hc, Hh. unfold streaming.
  cbn [response status body headers]. now repeat split.
Qed.

Lemma streaming_response_headers_witness :
  createGenAI keyOnly = inl (ApiKeyClient (js "test-key") None) /\
  destructurable (jsonOrEmpty (bodyText helloRequest)) = true /\
  let p := response (POST keyOnly helloRequest Connected) in
  status p = 200%Z /\ body p = EventStream /\
  hget (headers p) (js "Content-Type")
  = Some (js "text/event-stream; charset=utf-8") /\
  hget (headers p) (js "Cache-Control") = Some (js "no-cache, no-transform") /\
  hget (headers p) (js "Connection") = Some (js "keep-alive") /\
  hget (headers p) (js "X-Accel-Buffering") = Some (js "no") /\
  (forall name,
     includes streamHeaderNames (toLowerAscii name) = false ->
     hget (headers p) name
     = hget (corsHeaders keyOnly (originOf helloRequest)) name) /\
  (healthRequested helloRequest = false ->
   status (response (GET keyOnly helloRequest Connected (ProbeError []))) = 200%Z /\
   body (response (GET keyOnly helloRequest Connected (ProbeError [])))
   = EventStream /\
   headers (response (GET keyOnly helloRequest Connected (ProbeError [])))
   = headers p).
Proof.
  assert (Hd : destructurable (jsonOrEmpty (bodyText helloRequest)) = true)
    by (vm_compute; reflexivity).
  split; [reflexivity|]. split; [exact Hd|].
  exact (streaming_response_headers keyOnly helloRequest
           (ApiKeyClient (js "test-key") None) (ProbeError []) eq_refl Hd).
Defined.

(** *** The body of [POST] *)

(** X18: the body of a [POST] never stops the stream unless it is the JSON
    text [null]: a body that is not JSON opens the session with the default
    model and the default turn; any other JSON value, whatever else it
    holds, opens the session with its [model] (the default one when it has
    none) and the turns of its [input], and the turn sequence is empty only
    for an empty array; the text [null] is answered 500 and no session is
    kept. *)
Theorem POST_body_tolerance (env : Env) (c : Client) :
  createGenAI env = inl c ->
  (forall req,
     parse (bodyText req) = None ->
     POST env req Connected = streaming env req defaultModel [hello]) /\
  (forall req v,
     parse (bodyText req) = Some v -> destructurable v = true ->
     POST env req Connected
     = streaming env req (nullish (getProp v (js "model")) defaultModel)
         (turnsOfBody (getProp v (js "input"))) /\
     status (response (POST env req Connected)) = 200%Z /\
     (getProp v (js "input") <> JSArray [] ->
      (1 <= List.length (turnsOfBody (getProp v (js "input"))))%nat)) /\
  (forall req,
     parse (bodyText req) = Some JSNull ->
     forall remote,
       status (response (POST env req remote)) = 500%Z /\
       opened (POST env req remote) = None).
Proof.
  intros Hc. unfold POST, jsonOrEmpty. rewrite Hc. split; [|split].
  - intros req Hp. rewrite Hp. reflexivity.
  - intros req v Hp Hd. rewrite Hp.
    destruct v; try discriminate Hd;
      (split; [reflexivity|]); (split; [reflexivity|]);
      intros Hi; now apply turnsOfBody_length.
  - intros req Hp remote. rewrite Hp. now split.
Qed.

Lemma POST_body_tolerance_witness :
  createGenAI keyOnly = inl (ApiKeyClient (js "test-key") None) /\
  parse (bodyText bareRequest) = None /\
  POST keyOnly bareRequest Connected
  = streaming keyOnly bareRequest defaultModel [hello] /\
  parse (bodyText temperatureRequest)
  = Some (JSObject [(js "input", JSString (js "hi"));
                    (js "temperature",
                     JSNumber (Finite false 4503599627370496 (-53)))]) /\
  POST keyOnly temperatureRequest Connected
  = streaming keyOnly temperatureRequest defaultModel [JSString (js "hi")] /\
  parse (bodyText nullRequest) = Some JSNull /\
  status (response (POST keyOnly nullRequest Connected)) = 500%Z /\
  opened (POST keyOnly nullRequest Connected) = None.
Proof.
  destruct (POST_body_tolerance keyOnly (ApiKeyClient (js "test-key") None)
              eq_refl) as (H1 & H2 & H3).
  assert (Hp : parse (bodyText temperatureRequest)
               = Some (JSObject [(js "input", JSString (js "hi"));
                                 (js "temperature",
                                  JSNumber (Finite false 4503599627370496 (-53)))]))
    by (vm_compute; reflexivity).
  split; [reflexivity|]. split; [reflexivity|].
  split; [exact (H1 bareRequest eq_refl)|].
  split; [exact Hp|].
  split; [exact (proj1 (H2 temperatureRequest _ Hp eq_refl))|].
  split; [reflexivity|].
  exact (H3 nullRequest eq_refl Connected).
Defined.

(** *** The same conversation through [POST] and through [GET] *)

Lemma isJson_strings (inputs : list jsstring) :
  forallb isJson (List.map JSString inputs) = forallb wfString inputs.
Proof.
  induction inputs as [|s inputs IH]; [reflexivity|].
  cbn [List.map forallb isJson]. now rewrite IH.
Qed.

Lemma noNegativeZero_strings (inputs : list jsstring) :
  forallb noNegativeZero (List.map JSString inputs) = true.
Proof. induction inputs as [|s inputs IH]; [reflexivity | exact IH]. Qed.

Lemma wfString_model (model : option jsstring) :
  wfString (match model with Some name => name | None => [] end) = true ->
  forall input,
    isJson input = true -> noNegativeZero input = true ->
    jsonOrEmpty (postBody input model)
    = JSObject ((js "input", input)
                :: match model with
                   | Some name => [(js "model", JSString name)]
                   | None => []
                   end).
Proof.
  intros Hm input Hi Hz. unfold jsonOrEmpty, postBody.
  pose proof (stringify_json input Hi) as Hs.
  destruct model as [name|]; cbn [modelValue].
  - destruct (text_decodes
                (JSObject [(js "input", input); (js "model", JSString name)]))
      as (text & Ht & Hp & _).
    { cbn [isJson forallb fst snd List.map]. rewrite Hi, Hm. reflexivity. }
    rewrite Ht, Hp. rewrite unsignZero_id; [reflexivity|].
    cbn [noNegativeZero forallb snd]. now rewrite Hz.
  - destruct (text_decodes (JSObject [(js "input", input)]))
      as (text & Ht & Hp & _).
    { cbn [isJson forallb fst snd List.map]. rewrite Hi. reflexivity. }
    replace (stringify (JSObject [(js "input", input); (js "model", JSUndefined)]))
      with (stringify (JSObject [(js "input", input)])).
    + rewrite Ht, Hp. rewrite unsignZero_id; [reflexivity|].
      cbn [noNegativeZero forallb snd]. now rewrite Hz.
    + cbn [stringify flat_map snd fst]. rewrite Hs. reflexivity.
Qed.

Lemma searchGet_inputs (inputs : list jsstring)
    (rest : list (jsstring * jsstring)) (name : jsstring) :
  eqb name (js "input") = false ->
  searchGet (List.map (fun turn => (js "input", turn)) inputs ++ rest) name
  = searchGet rest name.
Proof.
  intros Hn. induction inputs as [|s inputs IH]; [reflexivity|].
  cbn [List.map app searchGet]. now rewrite Hn.
Qed.

Lemma searchGetAll_getQuery (inputs : list jsstring) (model : option jsstring) :
  searchGetAll (getQuery inputs model) (js "input") = inputs.
Proof.
  unfold searchGetAll, getQuery. rewrite filter_app, map_app.
  replace (filter (fun p => eqb (js "input") (fst p))
             match model with Some name => [(js "model", name)] | None => [] end)
    with (@nil (jsstring * jsstring)) by (destruct model; reflexivity).
  cbn [List.map]. rewrite app_nil_r.
  induction inputs as [|s inputs IH]; [reflexivity|].
  cbn [List.map filter fst snd].
  change (eqb (js "input") (js "input")) with true. cbn [List.map snd].
  now rewrite IH.
Qed.

Lemma GET_getQuery (env : Env) (c : Client) (origin : option jsstring)
    (inputs : list jsstring) (model : option jsstring) (probe : Probe) :
  createGenAI env = inl c ->
  GET env (mkRequest origin [] (getQuery inputs model)) Connected probe
  = streaming env (mkRequest origin [] (getQuery inputs model))
      (nullish (modelValue model) defaultModel) (turnsOfQuery inputs).
Proof.
  intros Hc. unfold GET, healthRequested. rewrite Hc. cbn [query].
  rewrite searchGetAll_getQuery. unfold getQuery.
  rewrite !searchGet_inputs by reflexivity.
  destruct model as [name|]; reflexivity.
Qed.

(** X19: the same turns and the same model reach the session through
    either handler: for a non-empty list of turns, and a model given or
    not, the body [postSSE] sends to [POST] and the query of the
    [EventSource] example sent to [GET] open the same session; a single
    non-empty turn may also be sent to [POST] as a plain string. *)
Theorem POST_GET_same_session (env : Env) (c : Client)
    (origin : option jsstring) (inputs : list jsstring)
    (model : option jsstring) (probe : Probe) :
  createGenAI env = inl c ->
  inputs <> [] ->
  forallb wfString inputs = true ->
  wfString (match model with Some name => name | None => [] end) = true ->
  let session :=
    Some (mkSession (nullish (modelValue model) defaultModel)
            (List.map JSString inputs)) in
  opened (POST env (mkRequest origin
                      (postBody (JSArray (List.map JSString inputs)) model) [])
            Connected) = session /\
  opened (GET env (mkRequest origin [] (getQuery inputs model)) Connected probe)
  = session /\
  (forall turn,
     inputs = [turn] -> turn <> [] ->
     opened (POST env (mkRequest origin (postBody (JSString turn) model) [])
               Connected) = session).
Proof.
  intros Hc Hne Hw Hm. cbv zeta. split; [|split].
  - unfold POST. rewrite Hc. cbn [bodyText].
    rewrite (wfString_model model Hm)
      by (first [ cbn [isJson]; now rewrite isJson_strings
                | apply noNegativeZero_strings ]).
    destruct model; reflexivity.
  - rewrite (GET_getQuery env c origin inputs model probe Hc).
    destruct inputs; [now elim Hne | reflexivity].
  - intros turn -> Ht. unfold POST. rewrite Hc. cbn [bodyText].
    cbn [forallb] in Hw. rewrite andb_true_r in Hw.
    rewrite (wfString_model model Hm) by (first [exact Hw | reflexivity]).
    destruct turn; [now elim Ht|]. destruct model; reflexivity.
Qed.

Lemma POST_GET_same_session_witness :
  createGenAI keyOnly = inl (ApiKeyClient (js "test-key") None) /\
  [js "Hello there!"; js "And again"] <> [] /\
  forallb wfString [js "Hello there!"; js "And again"] = true /\
  wfString (@nil N) = true /\
  let session :=
    Some (mkSession (nullish (modelValue None) defaultModel)
            (List.map JSString [js "Hello there!"; js "And again"])) in
  opened (POST keyOnly
            (mkRequest None
               (postBody (JSArray (List.map JSString
                                     [js "Hello there!"; js "And again"])) None)
               [])
            Connected) = session /\
  opened (GET keyOnly
            (mkRequest None [] (getQuery [js "Hello there!"; js "And again"] None))
            Connected (ProbeError [])) = session /\
  (forall turn,
     [js "Hello there!"; js "And again"] = [turn] -> turn <> [] ->
     opened (POST keyOnly (mkRequest None (postBody (JSString turn) None) [])
               Connected) = session).
Proof.
  assert (Hne : [js "Hello there!"; js "And again"] <> []) by discriminate.
  split; [reflexivity|]. split; [exact Hne|].
  split; [reflexivity|]. split; [reflexivity|].
  exact (POST_GET_same_session keyOnly (ApiKeyClient (js "test-key") None) None
           [js "Hello there!"; js "And again"] None (ProbeError [])
           eq_refl Hne eq_refl eq_refl).
Defined.

(** X20: the two handlers part on an empty turn: [POST] replaces an empty
    string by the default turn, [GET] sends the empty value of an [input]
    parameter as a turn, and so for every empty value among several. *)
Theorem empty_turn_POST_default_GET_kept (env : Env) (c : Client)
    (origin : option jsstring) (inputs : list jsstring)
    (model : option jsstring) (probe : Probe) :
  createGenAI env = inl c ->
  wfString (match model with Some name => name | None => [] end) = true ->
  option_map turns
    (opened (POST env (mkRequest origin (postBody (JSString []) model) [])
               Connected)) = Some [hello] /\
  option_map turns
    (opened (GET env (mkRequest origin [] (getQuery ([] :: inputs) model))
               Connected probe))
  = Some (JSString [] :: List.map JSString inputs).
Proof.
  intros Hc Hm. split.
  - unfold POST. rewrite Hc. cbn [bodyText].
    rewrite (wfString_model model Hm) by reflexivity.
    destruct model; reflexivity.
  - now rewrite (GET_getQuery env c origin ([] :: inputs) model probe Hc).
Qed.

Lemma empty_turn_POST_default_GET_kept_witness :
  createGenAI keyOnly = inl (ApiKeyClient (js "test-key") None) /\
  wfString (@nil N) = true /\
  option_map turns
    (opened (POST keyOnly (mkRequest None (postBody (JSString []) None) [])
               Connected)) = Some [hello] /\
  option_map turns
    (opened (GET keyOnly (mkRequest None [] (getQuery ([] :: []) None))
               Connected (ProbeError [])))
  = Some (JSString [] :: List.map JSString []).
Proof.
  split; [reflexivity|]. split; [reflexivity|].
  exact (empty_turn_POST_default_GET_kept keyOnly
           (ApiKeyClient (js "test-key") None) None [] None (ProbeError [])
           eq_refl eq_refl).
Defined.

(** *** The health check *)

Lemma createGenAI_hosted (env : Env) (c : Client) :
  createGenAI env = inl c ->
  if useVertex env
  then exists p l,
         whenTruthy (getenv env (js "GOOGLE_CLOUD_PROJECT")) = Some p /\
         whenTruthy (getenv env (js "GOOGLE_CLOUD_LOCATION")) = Some l
  else exists k, apiKeyOf env = Some k.
Proof.
  unfold createGenAI. destruct (useVertex env).
  - destruct (whenTruthy (getenv env (js "GOOGLE_CLOUD_PROJECT"))) as [p|];
      [|discriminate].
    destruct (whenTruthy (getenv env (js "GOOGLE_CLOUD_LOCATION"))) as [l|];
      [|discriminate].
    intros _. now exists p, l.
  - destruct (apiKeyOf env) as [k|]; [|discriminate]. intros _. now exists k.
Qed.

(** X21: with [health=1] no session is ever opened and the remote is not
    contacted for one; the answer is 204 with the CORS headers when the
    hosted flag is set (nothing is probed then) or when the probe answers
    with a 2xx status, and 500 with a JSON body otherwise. The answers of
    the branch for a missing key, project or location cannot occur: the
    client would not have been created. *)
Theorem health_check_answer (env : Env) (req : Request) (remote : Connect)
    (probe : Probe) (c : Client) :
  createGenAI env = inl c ->
  healthRequested req = true ->
  let o := GET env req remote probe in
  opened o = None /\
  o = GET env req Connected probe /\
  (useVertex env || probeOk probe = true ->
   response o = mkResponse 204 (corsHeaders env (originOf req)) NoBody) /\
  (useVertex env || probeOk probe = false ->
   status (response o) = 500%Z /\
   hget (headers (response o)) (js "Content-Type") = Some (js "application/json") /\
   exists payload,
     body (response o) = Text (interpolate (stringify payload)) /\
     match probe with
     | ProbeError message => payload = JSObject [(js "error", JSString message)]
     | ProbeResponse code _ =>
         getProp payload (js "error")
         = JSString (js "Google API health failed: " ++ numberToString code)
     end).
Proof.
  intros Hc Hh. cbv zeta. unfold GET. rewrite Hc, Hh.
  pose proof (createGenAI_hosted env c Hc) as Hcfg.
  unfold healthCheck. destruct (useVertex env).
  - destruct Hcfg as (p & l & -> & ->). cbn [orb].
    split; [reflexivity|]. split; [reflexivity|].
    split; [reflexivity | discriminate].
  - destruct Hcfg as (k & ->). cbn [orb].
    destruct probe as [code text|message]; cbn [probeOk].
    + destruct ((200 <=? code) && (code <=? 299))%Z.
      * split; [reflexivity|]. split; [reflexivity|].
        split; [reflexivity | discriminate].
      * split; [reflexivity|]. split; [reflexivity|].
        split; [discriminate|]. intros _.
        split; [reflexivity|]. split; [apply hget_jsonType|].
        eexists. split; reflexivity.
    + split; [reflexivity|]. split; [reflexivity|].
      split; [discriminate|]. intros _.
      split; [reflexivity|]. split; [apply hget_jsonType|].
      eexists. split; reflexivity.
Qed.

Lemma health_check_answer_witness :
  createGenAI keyOnly = inl (ApiKeyClient (js "test-key") None) /\
  healthRequested healthRequest = true /\
  status (response (GET keyOnly healthRequest ConnectThrows
                      (ProbeResponse 403 None))) = 500%Z /\
  opened (GET keyOnly healthRequest ConnectThrows (ProbeResponse 403 None))
  = None.
Proof.
  split; [reflexivity|]. split; [reflexivity|].
  destruct (health_check_answer keyOnly healthRequest ConnectThrows
              (ProbeResponse 403 None) (ApiKeyClient (js "test-key") None)
              eq_refl eq_refl)
    as (Ho & _ & _ & Hs).
  split; [exact (proj1 (Hs eq_refl)) | exact Ho].
Defined.

Lemma wfString_toString (x : Number) : wfString (toString x) = true.
Proof.
  destruct x as [|[|]|negative|negative m e]; try reflexivity.
  unfold wfString. cbn [toString]. rewrite forallb_app.
  assert (H : forallb isCodeUnit (formatDecimal (shortest m e)) = true).
  { apply forallb_forall. intros ch Hch.
    pose proof (NumberFacts.formatDecimal_chars (shortest m e)) as Hall.
    rewrite forallb_forall in Hall.
    apply (NumberFacts.isNumberChar_inv ch (Hall ch Hch)). }
  rewrite H. now destruct negative.
Qed.

Lemma wfString_numberToString (z : Z) : wfString (numberToString z) = true.
Proof. apply wfString_toString. Qed.

Lemma wfString_app (a b : jsstring) :
  wfString (a ++ b) = wfString a && wfString b.
Proof. apply forallb_app. Qed.

Lemma wfString_firstn (n : nat) (s : jsstring) :
  wfString s = true -> wfString (firstn n s) = true.
Proof.
  revert s. induction n as [|n IH]; intros s H; [reflexivity|].
  destruct s as [|c s]; [reflexivity|]. cbn [firstn wfString forallb] in *.
  apply andb_true_iff in H. destruct H as (Hc & Hs).
  rewrite Hc. now apply IH.
Qed.

(** X22: when the probe of the health check answers outside 2xx, the body
    of the 500 answer decodes to an object with the status in its [error]
    and, in its [body], the first 300 code units of what the probe
    answered, never more; the text holds no SSE frame. *)
Theorem health_failure_body (env : Env) (req : Request) (remote : Connect)
    (c : Client) (code : Z) (text : option jsstring) :
  createGenAI env = inl c ->
  healthRequested req = true ->
  useVertex env = false ->
  probeOk (ProbeResponse code text) = false ->
  wfString (match text with Some t => t | None => [] end) = true ->
  exists sent kept,
    body (response (GET env req remote (ProbeResponse code text))) = Text sent /\
    parse sent
    = Some (JSObject
              [(js "error",
                JSString (js "Google API health failed: " ++ numberToString code));
               (js "body", JSString kept)]) /\
    kept = firstn 300 (match text with Some t => t | None => [] end) /\
    (List.length kept <= 300)%nat /\
    readSSE sent = [].
Proof.
  intros Hc Hh Hv Hp Hw. unfold GET. rewrite Hc, Hh.
  pose proof (createGenAI_hosted env c Hc) as Hcfg.
  unfold healthCheck. rewrite Hv in *. destruct Hcfg as (k & ->).
  cbn [probeOk] in Hp. rewrite Hp.
  set (kept := firstn 300 (match text with Some t => t | None => [] end)).
  destruct (text_decodes
              (JSObject
                 [(js "error",
                   JSString (js "Google API health failed: "
                             ++ numberToString code));
                  (js "body", JSString kept)]))
    as (sent & Hs & Hparse & Hread).
  { cbn [isJson forallb fst snd List.map].
    rewrite wfString_app, wfString_numberToString.
    assert (Hk : wfString kept = true) by (apply wfString_firstn; exact Hw).
    rewrite Hk. reflexivity. }
  exists sent, kept. unfold healthFailure. cbn [response body].
  rewrite Hs. repeat split; try assumption.
  unfold kept. apply firstn_le_length.
Qed.

Lemma health_failure_body_witness :
  createGenAI keyOnly = inl (ApiKeyClient (js "test-key") None) /\
  healthRequested healthRequest = true /\
  useVertex keyOnly = false /\
  probeOk (ProbeResponse 403 (Some (js "denied"))) = false /\
  wfString (js "denied") = true /\
  exists sent kept,
    body (response (GET keyOnly healthRequest Connected
                      (ProbeResponse 403 (Some (js "denied"))))) = Text sent /\
    parse sent
    = Some (JSObject
              [(js "error",
                JSString (js "Google API health failed: " ++ numberToString 403));
               (js "body", JSString kept)]) /\
    kept = firstn 300 (js "denied") /\
    (List.length kept <= 300)%nat /\
    readSSE sent = [].
Proof.
  split; [reflexivity|]. split; [reflexivity|]. split; [reflexivity|].
  split; [reflexivity|]. split; [reflexivity|].
  exact (health_failure_body keyOnly healthRequest Connected
           (ApiKeyClient (js "test-key") None) 403 (Some (js "denied"))
           eq_refl eq_refl eq_refl eq_refl eq_refl).
Defined.

End HandlerFacts.

(** ** The health check *)

Module HealthFacts.
Import JSStr JSON Sse Cors Route Usage HealthUrl.
Import JSStrFacts JSONFacts HandlerFacts.
Local Open Scope N_scope.

(** *** The two copies of [GET] *)

(** X23: the second copy of [GET] in the file answers as the first one to
    every request that is not a health check, and to a health check
    whenever the first one answers 204; it never answers 500 to a health
    check once the client is created, whatever a probe would say. *)
Theorem GET_copies_agree (env : Env) (req : Request) (remote : Connect)
    (probe : Probe) :
  (healthRequested req = false ->
   Revision.GET env req remote = GET env req remote probe) /\
  (status (response (GET env req remote probe)) = 204%Z ->
   Revision.GET env req remote = GET env req remote probe) /\
  (healthRequested req = true ->
   status (response (Revision.GET env req remote))
   = match createGenAI env with inl _ => 204%Z | inr _ => 500%Z end).
Proof.
  unfold Revision.GET, GET. split; [|split].
  - intros Hh. rewrite Hh. reflexivity.
  - destruct (createGenAI env) as [c|msg] eqn:Hc; [|reflexivity].
    destruct (healthRequested req) eqn:Hh.
    + pose proof (createGenAI_hosted env c Hc) as Hcfg.
      unfold healthCheck. destruct (useVertex env).
      * destruct Hcfg as (p & l & -> & ->). reflexivity.
      * destruct Hcfg as (k & ->).
        destruct probe as [code text|message]; [|discriminate].
        destruct ((200 <=? code) && (code <=? 299))%Z;
          [reflexivity | discriminate].
    + reflexivity.
  - intros Hh. rewrite Hh. destruct (createGenAI env); reflexivity.
Qed.

(** *** The probed address *)

Lemma replaceVersion_id (s : jsstring) : replaceVersion s = s.
Proof.
  destruct s as [|c [|d rest]]; try reflexivity. cbn [replaceVersion].
  destruct ((c =? 118) && isDigit d
            && forallb (fun x => negb (isLineTerminator x)) rest) eqn:E;
    [|reflexivity].
  apply andb_true_iff in E. destruct E as (E & _).
  apply andb_true_iff in E. destruct E as (E & _).
  apply N.eqb_eq in E. now subst c.
Qed.

Lemma isUnescaped_hexUpper (d : N) : d < 16 -> isUnescaped (hexUpper d) = true.
Proof.
  intros H. unfold hexUpper, isUnescaped. destruct (d <? 10) eqn:E.
  - apply N.ltb_lt in E.
    replace ((48 <=? 48 + d) && (48 + d <=? 57)) with true; [reflexivity|].
    symmetry. apply andb_true_iff. split; apply N.leb_le; lia.
  - apply N.ltb_ge in E.
    replace ((65 <=? 55 + d) && (55 + d <=? 90)) with true;
      [now rewrite orb_true_r|].
    symmetry. apply andb_true_iff. split; apply N.leb_le; lia.
Qed.

Lemma percent_safe (octet : N) :
  octet < 256 -> forallb isUrlSafe (percent octet) = true.
Proof.
  intros H. unfold percent. cbn [forallb]. unfold isUrlSafe at 2 3.
  rewrite !isUnescaped_hexUpper.
  - reflexivity.
  - apply N.mod_lt. discriminate.
  - apply N.Div0.div_lt_upper_bound. lia.
Qed.

Lemma utf8_octets (cp : N) : cp < 1114112 -> Forall (fun o => o < 256) (utf8 cp).
Proof.
  intros H. unfold utf8.
  assert (H64 : forall x, x mod 64 < 64) by (intros; apply N.mod_lt; discriminate).
  destruct (cp <? 128) eqn:E1; [apply N.ltb_lt in E1; repeat constructor; lia|].
  destruct (cp <? 2048) eqn:E2.
  { apply N.ltb_lt in E2.
    assert (cp / 64 < 32) by (apply N.Div0.div_lt_upper_bound; lia).
    pose proof (H64 cp). repeat constructor; lia. }
  destruct (cp <? 65536) eqn:E3.
  { apply N.ltb_lt in E3.
    assert (cp / 4096 < 16) by (apply N.Div0.div_lt_upper_bound; lia).
    pose proof (H64 cp). pose proof (H64 (cp / 64)). repeat constructor; lia. }
  assert (cp / 262144 < 5) by (apply N.Div0.div_lt_upper_bound; lia).
  pose proof (H64 cp). pose proof (H64 (cp / 64)). pose proof (H64 (cp / 4096)).
  repeat constructor; lia.
Qed.

Lemma escape_safe (cp : N) :
  cp < 1114112 -> forallb isUrlSafe (flat_map percent (utf8 cp)) = true.
Proof.
  intros H. pose proof (utf8_octets cp H) as Ho.
  induction Ho as [|o l Hlt _ IH]; [reflexivity|].
  cbn [flat_map]. rewrite forallb_app, IH, percent_safe by exact Hlt.
  reflexivity.
Qed.

Lemma codePoint_bound (lead trail : N) :
  isHighSurrogate lead = true -> isLowSurrogate trail = true ->
  codePoint lead trail < 1114112.
Proof.
  unfold isHighSurrogate, isLowSurrogate, codePoint. intros Hl Ht.
  apply andb_true_iff in Hl, Ht. destruct Hl as (L1 & L2), Ht as (T1 & T2).
  apply N.leb_le in L1, L2, T1, T2. lia.
Qed.

Lemma encodeURIComponent_cons (c : N) (r : jsstring) :
  encodeURIComponent (c :: r)
  = if isUnescaped c
    then option_map (cons c) (encodeURIComponent r)
    else if isLowSurrogate c then None
    else if isHighSurrogate c then
      match r with
      | d :: r' =>
          if isLowSurrogate d
          then option_map (app (flat_map percent (utf8 (codePoint c d))))
                          (encodeURIComponent r')
          else None
      | [] => None
      end
    else option_map (app (flat_map percent (utf8 c))) (encodeURIComponent r).
Proof. reflexivity. Qed.

Lemma encodeURIComponent_safe (s : jsstring) :
  wfString s = true ->
  forall t, encodeURIComponent s = Some t -> forallb isUrlSafe t = true.
Proof.
  induction s as [| c | c d r IHr IHdr] using list_pair_ind; intros Hw t.
  - intros H. now injection H as <-.
  - cbn [encodeURIComponent]. cbn [wfString forallb] in Hw.
    rewrite andb_true_r in Hw. apply N.ltb_lt in Hw.
    destruct (isUnescaped c) eqn:Eu.
    + intros H. injection H as <-. cbn [forallb]. unfold isUrlSafe.
      now rewrite Eu.
    + destruct (isLowSurrogate c); [discriminate|].
      destruct (isHighSurrogate c); [discriminate|].
      intros H. injection H as <-. rewrite app_nil_r.
      apply escape_safe. lia.
  - change (wfString (c :: d :: r))
      with (isCodeUnit c && wfString (d :: r)) in Hw.
    apply andb_true_iff in Hw. destruct Hw as (Hc & Hdr).
    assert (Hr : wfString r = true).
    { cbn [wfString forallb] in Hdr. now apply andb_true_iff in Hdr. }
    apply N.ltb_lt in Hc.
    rewrite encodeURIComponent_cons.
    destruct (isUnescaped c) eqn:Eu.
    { destruct (encodeURIComponent (d :: r)) as [t'|] eqn:E;
        cbn [option_map]; [|discriminate].
      intros H. injection H as <-. cbn [forallb]. unfold isUrlSafe at 1.
      rewrite Eu. now apply IHdr. }
    destruct (isLowSurrogate c); [discriminate|].
    destruct (isHighSurrogate c) eqn:Eh.
    { destruct (isLowSurrogate d) eqn:El; [|discriminate].
      destruct (encodeURIComponent r) as [t'|] eqn:E;
        cbn [option_map]; [|discriminate].
      intros H. injection H as <-. rewrite forallb_app.
      rewrite escape_safe by now apply codePoint_bound.
      now apply IHr. }
    destruct (encodeURIComponent (d :: r)) as [t'|] eqn:E;
        cbn [option_map]; [|discriminate].
    intros H. injection H as <-. rewrite forallb_app.
    rewrite escape_safe by lia. now apply IHdr.
Qed.

Lemma encodeURIComponent_plain (s : jsstring) :
  forallb isUnescaped s = true -> encodeURIComponent s = Some s.
Proof.
  induction s as [|c s IH]; [reflexivity|].
  cbn [forallb]. intros H. apply andb_true_iff in H. destruct H as (Hc & Hs).
  cbn [encodeURIComponent]. now rewrite Hc, (IH Hs).
Qed.

Lemma encodeURIComponent_throws (s : jsstring) :
  encodeURIComponent s = None -> existsb isSurrogate s = true.
Proof.
  induction s as [| c | c d r IHr IHdr] using list_pair_ind.
  - discriminate.
  - cbn [encodeURIComponent existsb]. unfold isSurrogate.
    destruct (isUnescaped c); [discriminate|].
    destruct (isLowSurrogate c); [now rewrite !orb_true_r|].
    destruct (isHighSurrogate c); [reflexivity | discriminate].
  - rewrite encodeURIComponent_cons.
    change (existsb isSurrogate (c :: d :: r))
      with (isSurrogate c || existsb isSurrogate (d :: r)).
    unfold isSurrogate at 1.
    destruct (isUnescaped c).
    { destruct (encodeURIComponent (d :: r)); cbn [option_map];
        [discriminate|].
      intros _. rewrite IHdr by reflexivity. apply orb_true_r. }
    destruct (isLowSurrogate c); [intros _; now rewrite orb_true_r|].
    destruct (isHighSurrogate c); [reflexivity|].
    destruct (encodeURIComponent (d :: r)); cbn [option_map]; [discriminate|].
    intros _. rewrite IHdr by reflexivity. apply orb_true_r.
Qed.

(** X24: the address the health check probes. The API version is put in
    the path as the environment gives it ([v1] when unset or empty): the
    [replace] never changes the text. The key is escaped: what follows
    [key=] holds only letters, digits, nine punctuation marks and percent
    escapes, so no character of the key ends the parameter; a key made of
    such characters is sent as it is, and only a key holding a surrogate
    can make the escaping throw. *)
Theorem checkUrl_key_escaped (env : Env) (apiKey : jsstring) :
  wfString apiKey = true ->
  ver env = match whenTruthy (getenv env (js "GOOGLE_GENAI_API_VERSION")) with
            | Some v => v
            | None => js "v1"
            end /\
  (forall url,
     checkUrl env apiKey = Some url ->
     exists escaped,
       url = js "https://generativelanguage.googleapis.com/" ++ ver env
             ++ js "/models?key=" ++ escaped /\
       forallb isUrlSafe escaped = true) /\
  (forallb isUnescaped apiKey = true ->
   checkUrl env apiKey
   = Some (js "https://generativelanguage.googleapis.com/" ++ ver env
           ++ js "/models?key=" ++ apiKey)) /\
  (checkUrl env apiKey = None -> existsb isSurrogate apiKey = true).
Proof.
  intros Hw. split; [apply replaceVersion_id|]. unfold checkUrl.
  split; [|split].
  - intros url. destruct (encodeURIComponent apiKey) as [escaped|] eqn:E;
      cbn [option_map]; [|discriminate].
    intros H. injection H as <-. exists escaped.
    split; [reflexivity|]. now apply (encodeURIComponent_safe apiKey Hw).
  - intros Hp. now rewrite (encodeURIComponent_plain apiKey Hp).
  - destruct (encodeURIComponent apiKey) eqn:E; cbn [option_map];
      [discriminate|].
    intros _. now apply encodeURIComponent_throws.
Qed.

Lemma checkUrl_key_escaped_witness :
  wfString (js "k&x=1 #") = true /\
  checkUrl keyOnly (js "k&x=1 #")
  = Some (js "https://generativelanguage.googleapis.com/v1/models?key=k%26x%3D1%20%23") /\
  exists escaped,
    js "https://generativelanguage.googleapis.com/v1/models?key=k%26x%3D1%20%23"
    = js "https://generativelanguage.googleapis.com/" ++ ver keyOnly
      ++ js "/models?key=" ++ escaped /\
    forallb isUrlSafe escaped = true.
Proof.
  assert (Hu : checkUrl keyOnly (js "k&x=1 #")
               = Some (js "https://generativelanguage.googleapis.com/v1/models?key=k%26x%3D1%20%23"))
    by (vm_compute; reflexivity).
  split; [reflexivity|]. split; [exact Hu|].
  exact (proj1 (proj2 (checkUrl_key_escaped keyOnly (js "k&x=1 #") eq_refl))
           _ Hu).
Defined.

End HealthFacts.
